(** * Urban Jungle system for Foundry VTT: dice rollers, initiative and
      condition bookkeeping

    A shallow embedding of the rule code of the system (the dice roller
    module, the combat extension and the condition helpers) together with a
    small model of the host services that code calls: the dice-formula
    evaluator, the chat log, localisation and the embedded-document store. *)

From Stdlib Require Import ZArith QArith List Bool Ascii String Lia Sorted.
From Stdlib Require Import Permutation.
From Stdlib Require Import Decimal DecimalString DecimalZ DecimalPos.
Import ListNotations.

#[local] Open Scope string_scope.
#[local] Open Scope Z_scope.

(* ================================================================== *)
(** * JavaScript strings and numbers *)
(* ================================================================== *)

Module Js.

(** [s.slice(0, -1)]: every character but the last. *)
Definition slice_drop_last (s : string) : string :=
  substring 0 (String.length s - 1) s.

(** The double quote character and the line break, as strings. *)
Definition quote : string := String (ascii_of_nat 34) EmptyString.
Definition newline : string := String (ascii_of_nat 10) EmptyString.

(** [n.toString()] of an integer-valued number. *)
Definition numToString (n : Z) : string :=
  NilZero.string_of_int (Z.to_int n).

(** [s.split(sep)] for a one-character separator. *)
Fixpoint split_on (sep : ascii) (s : string) : list string :=
  match s with
  | EmptyString => [EmptyString]
  | String c rest =>
      if Ascii.eqb c sep then EmptyString :: split_on sep rest
      else match split_on sep rest with
           | [] => [String c EmptyString]
           | piece :: pieces => String c piece :: pieces
           end
  end.

(** [pieces.join(sep)]. *)
Definition join (sep : string) (pieces : list string) : string :=
  String.concat sep pieces.

(** The part of [s] before the first [c] and the part after it. *)
Fixpoint cut_at (c : ascii) (s : string) : option (string * string) :=
  match s with
  | EmptyString => None
  | String a rest =>
      if Ascii.eqb a c then Some (EmptyString, rest)
      else match cut_at c rest with
           | Some (before, after) => Some (String a before, after)
           | None => None
           end
  end.

(** Whether [c] occurs in [s]. *)
Fixpoint has_char (c : ascii) (s : string) : bool :=
  match s with
  | EmptyString => false
  | String a rest => Ascii.eqb a c || has_char c rest
  end.

(** A decimal integer literal, with an optional leading minus sign. *)
Definition parseInteger (s : string) : option Z :=
  option_map Z.of_int (NilZero.int_of_string s).

(** Values a loosely typed setting can hold. *)
Inductive value : Type :=
| Undefined
| Number (n : Z)
| Text (s : string).

(** Truthiness of a value in a condition. *)
Definition truthy (v : value) : bool :=
  match v with
  | Undefined => false
  | Number n => negb (n =? 0)
  | Text s => negb (String.eqb s EmptyString)
  end.

(** Strict equality [v === n] against a number literal. *)
Definition strict_eq_number (v : value) (n : Z) : bool :=
  match v with
  | Number m => m =? n
  | _ => false
  end.

Definition is_digit (c : ascii) : bool :=
  let n := nat_of_ascii c in (48 <=? n)%nat && (n <=? 57)%nat.

(** The longest prefix of decimal digits of [s]. *)
Fixpoint digit_prefix (s : string) : string :=
  match s with
  | EmptyString => EmptyString
  | String c rest =>
      if is_digit c then String c (digit_prefix rest) else EmptyString
  end.

(** [parseInt(v)]: an integer number is returned as it is; a string is read
    up to its first character that is not part of a decimal integer; [None]
    is NaN.  Leading white space, a plus sign and the hexadecimal prefix,
    which the stored ordering modes do not have, are not modelled. *)
Definition parseInt (v : value) : option Z :=
  match v with
  | Undefined => None
  | Number n => Some n
  | Text s =>
      match s with
      | String "-" rest =>
          option_map Z.opp (parseInteger (digit_prefix rest))
      | _ => parseInteger (digit_prefix s)
      end
  end.

Fixpoint all_chars (P : ascii -> bool) (s : string) : bool :=
  match s with
  | EmptyString => true
  | String c rest => P c && all_chars P rest
  end.

Definition all_digits (s : string) : bool := all_chars is_digit s.

(** The characters of a printed integer. *)
Definition numeric_char (c : ascii) : bool :=
  is_digit c || Ascii.eqb c "-".

(** Every piece followed by the separator, as the loops that build a
    formula leave it before the last character is cut. *)
Fixpoint trailed (sep : string) (pieces : list string) : string :=
  match pieces with
  | [] => EmptyString
  | p :: rest => p ++ sep ++ trailed sep rest
  end.

End Js.

(* ================================================================== *)
(** * The host: dice formulas, rolls and the chat log *)
(* ================================================================== *)

(** The rule code hands the host a formula string such as
    [{1d12,1d8}cs>3] or [{5,1d6,2}kh1] and reads back the evaluated roll.
    The model covers the formulas the dice rollers build: one pool in braces,
    whose entries are dice expressions or integer literals, followed by the
    count-successes modifier [cs>N] or the keep-highest modifier [kh1]. *)

Module Foundry.

Record Speaker : Type := { alias : string }.

Module PoolTerm.
(** [terms] are the expressions of the pool entries as written in the
    formula, [results] the value each entry evaluated to
    ([results[i].result]). *)
Record t : Type := { terms : list string; results : list Z }.
End PoolTerm.

Module Roll.
(** [dice] holds the total of every dice expression of the roll, in
    formula order; [total] is the value of the whole formula. *)
Record t : Type :=
  { formula : string; terms : list PoolTerm.t; dice : list Z; total : Z }.
End Roll.

Inductive Entry : Type :=
| DiceEntry (count faces : Z)
| NumberEntry (n : Z).

Inductive Modifier : Type :=
| CountSuccesses (target : Z)
| KeepHighest.

Definition parseEntry (s : string) : option Entry :=
  match Js.split_on "d" s with
  | [literal] => option_map NumberEntry (Js.parseInteger literal)
  | [count; faces] =>
      match Js.parseInteger count, Js.parseInteger faces with
      | Some c, Some f => Some (DiceEntry c f)
      | _, _ => None
      end
  | _ => None
  end.

Fixpoint parseEntries (pieces : list string) : option (list Entry) :=
  match pieces with
  | [] => Some []
  | piece :: rest =>
      match parseEntry piece, parseEntries rest with
      | Some e, Some es => Some (e :: es)
      | _, _ => None
      end
  end.

Definition parseModifier (s : string) : option Modifier :=
  match s with
  | String "c" (String "s" (String ">" target)) =>
      option_map CountSuccesses (Js.parseInteger target)
  | "kh1" => Some KeepHighest
  | _ => None
  end.

(** A pool formula: its entry expressions, the parsed entries and the
    modifier. *)
Definition parseFormula (f : string)
  : option (list string * list Entry * Modifier) :=
  match f with
  | String "{" body =>
      match Js.cut_at "}" body with
      | Some (pool, modifier) =>
          let pieces := Js.split_on "," pool in
          match parseEntries pieces, parseModifier modifier with
          | Some es, Some m => Some (pieces, es, m)
          | _, _ => None
          end
      | None => None
      end
  | _ => None
  end.

(** The randomness source is a sequence of raw draws; a die of [faces]
    faces turns the next draw [r] into the face [1 + r mod faces], and
    shows a one once the draws have run out. *)
Definition rollDie (faces : Z) (entropy : list Z) : Z * list Z :=
  match entropy with
  | [] => (1, [])
  | r :: rest => (1 + r mod faces, rest)
  end.

Fixpoint rollDice (count : nat) (faces : Z) (entropy : list Z)
  : Z * list Z :=
  match count with
  | O => (0, entropy)
  | S k =>
      let '(face, entropy1) := rollDie faces entropy in
      let '(sum, entropy2) := rollDice k faces entropy1 in
      (face + sum, entropy2)
  end.

(** Evaluates the entries left to right: the result of each entry, the
    totals of the dice expressions among them, and the draws left. *)
Fixpoint evaluateEntries (es : list Entry) (entropy : list Z)
  : list Z * list Z * list Z :=
  match es with
  | [] => ([], [], entropy)
  | DiceEntry count faces :: rest =>
      let '(value, entropy1) := rollDice (Z.to_nat count) faces entropy in
      let '(results, dice, entropy2) := evaluateEntries rest entropy1 in
      (value :: results, value :: dice, entropy2)
  | NumberEntry n :: rest =>
      let '(results, dice, entropy1) := evaluateEntries rest entropy in
      (n :: results, dice, entropy1)
  end.

(** [cs>N] counts the results strictly greater than [N]. *)
Definition countSuccesses (target : Z) (results : list Z) : Z :=
  Z.of_nat (List.length (filter (fun x => target <? x) results)).

(** [kh1] keeps the highest result. *)
Definition keepHighest (results : list Z) : Z :=
  match results with
  | [] => 0
  | x :: rest => fold_left Z.max rest x
  end.

Definition applyModifier (m : Modifier) (results : list Z) : Z :=
  match m with
  | CountSuccesses target => countSuccesses target results
  | KeepHighest => keepHighest results
  end.

(** Message flags of the system's own scope. *)
Record Flags : Type :=
  { rollType : string;
    label : option string;
    originalRoll : bool;
    hasOne : bool }.

Record ChatMessage : Type :=
  { isRollMessage : bool;
    speaker : Speaker;
    flavor : string;
    flags : Flags;
    roll : Roll.t }.

Record World : Type :=
  { entropy : list Z;
    chatLog : list ChatMessage }.

(** What a call into the host comes back with. *)
Inductive completion (A : Type) : Type :=
| Returned (a : A)
| Thrown.
Arguments Returned {A} a.
Arguments Thrown {A}.

Definition Host (A : Type) : Type := World -> completion A * World.

Definition ret {A : Type} (a : A) : Host A := fun w => (Returned a, w).

Definition throw {A : Type} : Host A := fun w => (Thrown, w).

Definition bind {A B : Type} (m : Host A) (k : A -> Host B) : Host B :=
  fun w =>
    match m w with
    | (Returned a, w1) => k a w1
    | (Thrown, w1) => (Thrown, w1)
    end.

(** [new Roll(formula).evaluate()]; a formula outside the model throws. *)
Definition evaluate (f : string) : Host Roll.t :=
  fun w =>
    match parseFormula f with
    | None => (Thrown, w)
    | Some (pieces, es, m) =>
        let '(results, dice, rest) := evaluateEntries es (entropy w) in
        (Returned
           {| Roll.formula := f;
              Roll.terms :=
                [ {| PoolTerm.terms := pieces; PoolTerm.results := results |} ];
              Roll.dice := dice;
              Roll.total := applyModifier m results |},
         {| entropy := rest; chatLog := chatLog w |})
    end.

(** [roll.toMessage(data, { create })]: the message of the roll, appended to
    the chat log when [create] is set. *)
Definition toMessage (r : Roll.t) (s : Speaker) (flavorText : string)
    (fl : Flags) (create : bool) : Host ChatMessage :=
  fun w =>
    let msg := {| isRollMessage := true; speaker := s; flavor := flavorText;
                  flags := fl; roll := r |} in
    (Returned msg,
     if create
     then {| entropy := entropy w; chatLog := (chatLog w ++ [msg])%list |}
     else w).

End Foundry.

Declare Scope host_scope.
Delimit Scope host_scope with host.
Notation "x <- m ;; k" := (Foundry.bind m (fun x => k))
  (at level 61, m at next level, right associativity) : host_scope.

(* ================================================================== *)
(** * The dice rollers *)
(* ================================================================== *)

Module Dice.
Import Foundry.

(** Result styling of [CommonSystemInfo], which the helper module defines. *)
Record ResultColors : Type :=
  { success : string; tie : string; normal : string;
    failure : string; botch : string }.

Record CommonSystemInfo : Type :=
  { resultFontSize : string; resultColors : ResultColors }.

(** [game.i18n]: lookup of a translation key, and lookup followed by the
    substitution of named values. *)
Record I18n : Type :=
  { localize : string -> string;
    format : string -> list (string * string) -> string }.

Record TNData : Type := { successes : Z; ties : Z }.

Record DiceReturn : Type :=
  { roll : Roll.t;
    highest : Z;
    tnData : option TNData;
    message : ChatMessage;
    isSent : bool }.

(** [rollstring += piece], [n] times over. *)
Fixpoint appendTimes (n : nat) (piece rollstring : string) : string :=
  match n with
  | O => rollstring
  | S k => appendTimes k piece (rollstring ++ piece)
  end.

Definition formRoll (d12 d10 d8 d6 d4 : Z) : string :=
  let rollstring := EmptyString in
  let rollstring := appendTimes (Z.to_nat d12) "1d12," rollstring in
  let rollstring := appendTimes (Z.to_nat d10) "1d10," rollstring in
  let rollstring := appendTimes (Z.to_nat d8) "1d8," rollstring in
  let rollstring := appendTimes (Z.to_nat d6) "1d6," rollstring in
  let rollstring := appendTimes (Z.to_nat d4) "1d4," rollstring in
  if (0 <? String.length rollstring)%nat
  then Js.slice_drop_last rollstring
  else rollstring.

(** The loop over [roll.terms[0].results] of the target number rollers:
    the highest result, the ties with the target number and whether a die
    shows a one. *)
Definition scanStep (tni : Z) (acc : Z * Z * bool) (x : Z) : Z * Z * bool :=
  let '(highest, ties, hasOne) := acc in
  (if highest <? x then x else highest,
   if x =? tni then ties + 1 else ties,
   if x =? 1 then true else hasOne).

Definition scanResults (tni : Z) (results : list Z) : Z * Z * bool :=
  fold_left (scanStep tni) results (0, 0, false).

(** [roll.terms[0]]; reading it off a roll without terms throws. *)
Definition firstTerm (r : Roll.t) : Host PoolTerm.t :=
  fun w =>
    match Roll.terms r with
    | [] => (Thrown, w)
    | p :: _ => (Returned p, w)
    end.

Section Rollers.

Variable info : CommonSystemInfo.
Variable i18n : I18n.
Variable Actor : Type.
Variable getMacroSpeaker : option Actor -> Speaker.

Definition labelParagraph (label : string) : string :=
  if (0 <? String.length label)%nat then "<p>" ++ label ++ "</p>"
  else EmptyString.

Definition resultParagraph (color text : string) : string :=
  "<p style=" ++ Js.quote ++ "font-size:" ++ resultFontSize info
  ++ ";color:" ++ color ++ Js.quote ++ ">" ++ text ++ "</p>".

Definition flavorStringTN (successes ties : Z) (botched : bool)
    (label : string) : string :=
  if 0 <? successes then
    labelParagraph label
    ++ resultParagraph (success (resultColors info))
         (format i18n "urbanjungle.chat.success"
            [("successes", Js.numToString successes)])
  else if botched then
    labelParagraph label
    ++ resultParagraph (botch (resultColors info))
         (localize i18n "urbanjungle.chat.botch")
  else if 0 <? ties then
    labelParagraph label
    ++ resultParagraph (tie (resultColors info))
         (format i18n "urbanjungle.chat.tie" [("ties", Js.numToString ties)])
  else
    labelParagraph label
    ++ resultParagraph (failure (resultColors info))
         (localize i18n "urbanjungle.chat.failure").

Definition flavorStringHighest (highest : Z) (label : string) : string :=
  labelParagraph label
  ++ "<p style=" ++ Js.quote ++ "font-size:" ++ resultFontSize info ++ ";"
  ++ Js.newline ++ "    color:"
  ++ (if 1 <? highest then normal (resultColors info)
      else botch (resultColors info))
  ++ Js.quote ++ ">"
  ++ format i18n "urbanjungle.chat.highest"
       [("highest", Js.numToString highest)]
  ++ "</p>".

(** One step of the loop of [copyDicePoolResult]. *)
Definition copyStep (formula : string) (x : Z) : string :=
  formula ++ Js.numToString x ++ ",".

Definition copyDicePoolResult (r : Roll.t) : Host string :=
  let formula := EmptyString in
  if (0 <? List.length (Roll.terms r))%nat then
    (p <- firstTerm r ;;
     let formula := fold_left copyStep (PoolTerm.results p) formula in
     ret (if (0 <? String.length formula)%nat
          then Js.slice_drop_last formula else formula))%host
  else ret formula.

(** One step of the loop of [copyRerollHighestOne]; the accumulator holds
    the index [i], [onefound] and [formula].  An index past the end of
    [terms] reads [undefined]. *)
Definition rerollStep (terms : list string) (acc : nat * bool * string)
    (x : Z) : nat * bool * string :=
  let '(i, onefound, formula) := acc in
  if negb onefound && (x =? 1)
  then (S i, true, formula ++ nth i terms "undefined" ++ ",")
  else (S i, onefound, formula ++ Js.numToString x ++ ",").

Definition copyRerollHighestOne (r : Roll.t) : Host string :=
  let formula := EmptyString in
  if (0 <? List.length (Roll.terms r))%nat then
    (p <- firstTerm r ;;
     let '(_, _, formula) :=
       fold_left (rerollStep (PoolTerm.terms p)) (PoolTerm.results p)
         (O, false, formula) in
     ret (if (0 <? String.length formula)%nat
          then Js.slice_drop_last formula else formula))%host
  else ret formula.

(** The dice rollers answer [null] (here [None]) when there is nothing to
    roll; the copying rollers answer [undefined] (also [None]) when they
    give up. *)
Definition rollTargetNumber (tni d12 d10 d8 d6 d4 : Z) (label : string)
    (rollingactor : option Actor) (sendinchat : bool)
  : Host (option DiceReturn) :=
  let rollstring := formRoll d12 d10 d8 d6 d4 in
  if (String.length rollstring =? 0)%nat then ret None
  else
    (roll <- evaluate ("{" ++ rollstring ++ "}cs>" ++ Js.numToString tni) ;;
     let successes := Roll.total roll in
     p <- firstTerm roll ;;
     let '(highest, ties, hasOne) := scanResults tni (PoolTerm.results p) in
     let flavorstring := flavorStringTN successes ties (highest =? 1) label in
     let tnData := {| successes := successes; ties := ties |} in
     msg <- toMessage roll (getMacroSpeaker rollingactor) flavorstring
              {| rollType := "TN"; Foundry.label := Some label;
                 originalRoll := true; Foundry.hasOne := hasOne |}
              sendinchat ;;
     ret (Some {| roll := roll; highest := highest; tnData := Some tnData;
                  message := msg; isSent := sendinchat |}))%host.

Definition copyPrefix (rerollone : bool) (mode : string) : string :=
  (if rerollone then localize i18n "urbanjungle.chatInfo.reroll"
   else localize i18n "urbanjungle.chatInfo.copy")
  ++ " " ++ localize i18n mode ++ ": ".

(** The hanging attack flags that [copyToRollTN] and [copyToRollHighest]
    carry over to the new message afterwards do not touch the roll; they
    are not part of the model. *)
Definition copyToRollTN (tni : Z) (message : option ChatMessage)
    (sendinchat rerollone : bool) : Host (option DiceReturn) :=
  match message with
  | None => ret None
  | Some message =>
      if negb (isRollMessage message) then ret None
      else
        (rollstring <- (if rerollone
                        then copyRerollHighestOne (Foundry.roll message)
                        else copyDicePoolResult (Foundry.roll message)) ;;
         if (String.length rollstring =? 0)%nat then ret None
         else
           match Foundry.label (flags message) with
           | None => ret None
           | Some label =>
               roll <- evaluate ("{" ++ rollstring ++ "}cs>"
                                 ++ Js.numToString tni) ;;
               let successes := Roll.total roll in
               p <- firstTerm roll ;;
               let '(highest, ties, hasOne) :=
                 scanResults tni (PoolTerm.results p) in
               let flavorstring :=
                 flavorStringTN successes ties (highest =? 1)
                   (copyPrefix rerollone "urbanjungle.chatInfo.tn" ++ label) in
               let tnData := {| successes := successes; ties := ties |} in
               msg <- toMessage roll (speaker message) flavorstring
                        {| rollType := "TN"; Foundry.label := Some label;
                           originalRoll := false; Foundry.hasOne := hasOne |}
                        sendinchat ;;
               ret (Some {| roll := roll; highest := highest;
                            tnData := Some tnData; message := msg;
                            isSent := sendinchat |})
           end)%host
  end.

(** [results.some(x => x.result === 1)]. *)
Definition someOne (results : list Z) : bool :=
  existsb (fun x => x =? 1) results.

Definition rollHighest (d12 d10 d8 d6 d4 : Z) (label : string)
    (rollingactor : option Actor) (sendinchat : bool)
  : Host (option DiceReturn) :=
  let rollstring := formRoll d12 d10 d8 d6 d4 in
  if (String.length rollstring =? 0)%nat then ret None
  else
    (roll <- evaluate ("{" ++ rollstring ++ "}kh1") ;;
     let flavorstring := flavorStringHighest (Roll.total roll) label in
     p <- firstTerm roll ;;
     let hasOne := someOne (PoolTerm.results p) in
     msg <- toMessage roll (getMacroSpeaker rollingactor) flavorstring
              {| rollType := "HIGH"; Foundry.label := Some label;
                 originalRoll := true; Foundry.hasOne := hasOne |}
              sendinchat ;;
     ret (Some {| roll := roll; highest := Roll.total roll; tnData := None;
                  message := msg; isSent := sendinchat |}))%host.

Definition copyToRollHighest (message : option ChatMessage)
    (sendinchat rerollone : bool) : Host (option DiceReturn) :=
  match message with
  | None => ret None
  | Some message =>
      if negb (isRollMessage message) then ret None
      else
        (rollstring <- (if rerollone
                        then copyRerollHighestOne (Foundry.roll message)
                        else copyDicePoolResult (Foundry.roll message)) ;;
         if (String.length rollstring =? 0)%nat then ret None
         else
           match Foundry.label (flags message) with
           | None => ret None
           | Some label =>
               roll <- evaluate ("{" ++ rollstring ++ "}kh1") ;;
               let flavorstring :=
                 flavorStringHighest (Roll.total roll)
                   (copyPrefix rerollone "urbanjungle.chatInfo.high"
                    ++ label) in
               p <- firstTerm roll ;;
               let hasOne := someOne (PoolTerm.results p) in
               msg <- toMessage roll (speaker message) flavorstring
                        {| rollType := "HIGH"; Foundry.label := Some label;
                           originalRoll := false; Foundry.hasOne := hasOne |}
                        sendinchat ;;
               ret (Some {| roll := roll; highest := Roll.total roll;
                            tnData := None; message := msg;
                            isSent := sendinchat |})
           end)%host
  end.

(** The reroll entry of the chat context menu: offered on original rolls
    that show a one, it reads the target number back from the formula. *)
Definition rerollOneAllowed (message : ChatMessage) : bool :=
  isRollMessage message && originalRoll (flags message)
  && Foundry.hasOne (flags message).

Definition indexOf (c : ascii) (s : string) : Z :=
  match index 0 (String c EmptyString) s with
  | Some n => Z.of_nat n
  | None => -1
  end.

Definition rerollOneCallback (message : ChatMessage)
  : Host (option DiceReturn) :=
  if String.eqb (rollType (flags message)) "TN" then
    let formula := Roll.formula (Foundry.roll message) in
    let from := Z.to_nat (indexOf ">" formula + 1) in
    match Js.parseInt
            (Js.Text (substring from (String.length formula - from) formula))
    with
    | Some tn => copyToRollTN tn (Some message) true true
    | None => throw
    end
  else copyToRollHighest (Some message) true true.

End Rollers.
End Dice.

(* ================================================================== *)
(** * Combat: initiative threshold, groups, results and turn order *)
(* ================================================================== *)

Module Combat.
Import Foundry.

Record Actor : Type := { hasPlayerOwner : bool }.

(** Placement and attitude of a token on the scene. *)
Record TokenData : Type := { disposition : Z; x : Z; y : Z }.

Record Token : Type :=
  { data : option TokenData;
    name : string;
    tokenActor : option Actor }.

Record Combatant : Type :=
  { id : string;
    actor : option Actor;
    token : option Token;
    tokenId : string;
    isOwner : bool;
    initiative : option Q;
    initiativeResult : option string }.

(** The combat tracker configuration; [initType] is kept as it was stored,
    a number or the text of a form field. *)
Record Settings : Type :=
  { sideBased : bool;
    initType : Js.value;
    skipDefeated : bool;
    manualTN : option Z }.

(** [CONST.TOKEN_DISPOSITIONS.FRIENDLY] of the host. *)
Definition TOKEN_DISPOSITIONS_FRIENDLY : Z := 1.

(** [token.data?.disposition === CONST.TOKEN_DISPOSITIONS.FRIENDLY]. *)
Definition isFriendly (t : Token) : bool :=
  match data t with
  | Some d => disposition d =? TOKEN_DISPOSITIONS_FRIENDLY
  | None => false
  end.

(** [b == n] between a boolean and a number: the boolean is read as 1 or
    0. *)
Definition bool_eq_number (b : bool) (n : Z) : bool :=
  (if b then 1 else 0) =? n.

Definition getInitiativeGroup (combatant : option Combatant)
    (settings : option Settings) : Z :=
  match combatant, settings with
  | Some c, Some s =>
      match actor c, token c with
      | Some a, Some t =>
          if Js.truthy (initType s) then
            match Js.parseInt (initType s) with
            | Some initType =>
                if (initType =? 0) || (initType =? 1) then
                  let side := if hasPlayerOwner a then 1 else 0 in
                  if initType =? 0 then (if side =? 1 then 2 else 1)
                  else (if side =? 0 then 2 else 1)
                else if (initType =? 2) || (initType =? 3) then
                  let side :=
                    if hasPlayerOwner a || isFriendly t then 1 else 0 in
                  if initType =? 2 then (if side =? 1 then 2 else 1)
                  else (if side =? 0 then 2 else 1)
                else if (initType =? 4) || (initType =? 5) then
                  let side :=
                    if hasPlayerOwner a then 1
                    else if isFriendly t then 2 else 0 in
                  if initType =? 4
                  then (if side =? 1 then 3 else if side =? 2 then 2 else 1)
                  else (if bool_eq_number (side =? side) 0 then 3
                        else if side =? 1 then 2 else 1)
                else -1
            | None => -1
            end
          else -1
      | _, _ => -1
      end
  | _, _ => -1
  end.

Definition Qltb (a b : Q) : bool := negb (Qle_bool b a).

Definition getDistanceTN (distance : Q) : Z :=
  if Qle_bool distance 4 then 2
  else if Qle_bool distance 12 then 3
  else if Qle_bool distance 36 then 4
  else if Qle_bool distance 100 then 5
  else 6.

(** [x?.actor?.hasPlayerOwner], undefined without an actor. *)
Definition ownerFlag (c : Combatant) : option bool :=
  option_map hasPlayerOwner (actor c).

(** [x?.actor?.hasPlayerOwner || x?.token?.data?.disposition === FRIENDLY]. *)
Definition ownerOrFriendly (c : Combatant) : bool :=
  match ownerFlag c with
  | Some true => true
  | _ => match token c with
         | Some t => isFriendly t
         | None => false
         end
  end.

(** [v !== b] for a value that is a boolean or undefined. *)
Definition strict_neq_bool (v : option bool) (b : bool) : bool :=
  match v with
  | Some v => negb (Bool.eqb v b)
  | None => true
  end.

Section Grid.

(** [canvas.grid.measureDistance] of the host. *)
Variable measureDistance : option TokenData -> option TokenData -> Q.

Definition closestStep (own : Token) (distance : Q) (x : Combatant) : Q :=
  match token x with
  | Some other =>
      let dist := measureDistance (data own) (data other) in
      if Qltb dist distance then dist else distance
  | None => distance
  end.

Definition getDistanceToClosestOther (combatant : option Combatant)
    (othercombatants : list Combatant) : Q :=
  let distance := 10000%Q in
  match combatant with
  | Some c =>
      match token c with
      | Some own => fold_left (closestStep own) othercombatants distance
      | None => distance
      end
  | None => distance
  end.

Definition manualSet (settings : option Settings) : option Z :=
  match settings with
  | Some s =>
      match manualTN s with
      | Some tn => if negb (tn =? 0) && (0 <? tn) then Some tn else None
      | None => None
      end
  | None => None
  end.

(** The combatants on the other side of [a] and its token [t], by the
    ordering mode. *)
Definition otherSideOf (a : Actor) (t : Token) (s : Settings)
    (allcombatants : list Combatant) : list Combatant :=
  if Js.strict_eq_number (initType s) 0 || Js.strict_eq_number (initType s) 1
  then
    let playerOwnerComparison := hasPlayerOwner a in
    filter (fun x => strict_neq_bool (ownerFlag x) playerOwnerComparison)
      allcombatants
  else
    let playerOwnerComparison := hasPlayerOwner a || isFriendly t in
    filter (fun x =>
              negb (Bool.eqb (ownerOrFriendly x) playerOwnerComparison))
      allcombatants.

Definition getInitiativeTN (combatant : option Combatant)
    (allcombatants : option (list Combatant)) (settings : option Settings)
  : Z :=
  match manualSet settings with
  | Some tn => tn
  | None =>
      match combatant, settings, allcombatants with
      | Some c, Some s, Some all =>
          match actor c, token c with
          | Some a, Some t =>
              if Js.truthy (initType s) then
                let otherSide := otherSideOf a t s all in
                getDistanceTN (getDistanceToClosestOther combatant otherSide)
              else 2
          | _, _ => 2
          end
      | _, _, _ => 2
      end
  end.

End Grid.

(** ** Rolling initiative *)

(** The tie-breaker loop over the dice of the initiative roll: the first
    die equal to the highest is skipped, the largest of the others is
    kept. *)
Definition tieBreakStep (highest : Z) (acc : bool * Z) (total : Z)
  : bool * Z :=
  let '(skipped, decimals) := acc in
  if negb skipped && (total =? highest) then (true, decimals)
  else (skipped, if decimals <? total then total else decimals).

Definition tieBreaker (initRoll : Dice.DiceReturn) : Z :=
  snd (fold_left (tieBreakStep (Dice.highest initRoll))
         (Roll.dice (Dice.roll initRoll)) (false, 0)).

(** The display code stored next to the initiative: the number of
    successes, or T, B or F. *)
Definition initiativeResultOf (initRoll : Dice.DiceReturn) : string :=
  match Dice.tnData initRoll with
  | Some tn =>
      if 0 <? Dice.successes tn then Js.numToString (Dice.successes tn)
      else if negb (Dice.ties tn =? 0) then "T"
      else if Dice.highest initRoll =? 1 then "B"
      else "F"
  | None => EmptyString
  end.

Record Update : Type :=
  { _id : string;
    newInitiative : Q;
    newInitiativeResult : string }.

(** [updateEmbeddedDocuments("Combatant", updates)] of the host, as far as
    the two updated fields go. *)
Definition applyUpdate (cs : list Combatant) (u : Update) : list Combatant :=
  map (fun c =>
         if String.eqb (id c) (_id u)
         then {| id := id c; actor := actor c; token := token c;
                 tokenId := tokenId c; isOwner := isOwner c;
                 initiative := Some (newInitiative u);
                 initiativeResult := Some (newInitiativeResult u) |}
         else c) cs.

Definition updateEmbeddedDocuments (cs : list Combatant)
    (updates : list Update) : list Combatant :=
  fold_left applyUpdate updates cs.

Section Initiative.

Variable measureDistance : option TokenData -> option TokenData -> Q.

(** [combatant.getInitiativeRollIronclaw(tn)]: the initiative check of the
    combatant's actor, which the actor module rolls. *)
Variable getInitiativeRollIronclaw : Combatant -> Z -> Host Dice.DiceReturn.

Definition initiativeOf (c : Combatant) (settings : option Settings)
    (initRoll : Dice.DiceReturn) : Q :=
  if match settings with Some s => sideBased s | None => false end
  then inject_Z (getInitiativeGroup (Some c) settings)
  else (inject_Z (Dice.highest initRoll)
        + inject_Z (tieBreaker initRoll) / 20)%Q.

(** One turn of the loop of [rollInitiative] over the given ids.  Of the
    chat message that announces the roll the model keeps the read of
    [combatant.token.name], which throws when the combatant has no
    token. *)
Definition rollOne (all : list Combatant) (settings : option Settings)
    (updates : list Update) (cid : string) : Host (list Update) :=
  match find (fun c => String.eqb (id c) cid) all with
  | None => ret updates
  | Some c =>
      if negb (isOwner c) then ret updates
      else
        let tn := getInitiativeTN measureDistance (Some c) (Some all)
                    settings in
        (initRoll <- getInitiativeRollIronclaw c tn ;;
         let initiative := initiativeOf c settings initRoll in
         tokenName <- match token c with
                      | Some t => ret (name t)
                      | None => throw
                      end ;;
         let initResult := initiativeResultOf initRoll in
         ret (updates ++ [ {| _id := cid; newInitiative := initiative;
                              newInitiativeResult := initResult |} ])%list)%host
  end.

Fixpoint rollEach (all : list Combatant) (settings : option Settings)
    (updates : list Update) (ids : list string) : Host (list Update) :=
  match ids with
  | [] => ret updates
  | cid :: rest =>
      (updates1 <- rollOne all settings updates cid ;;
       rollEach all settings updates1 rest)%host
  end.

Definition rollInitiative (settings : option Settings) (ids : list string)
    (all : list Combatant) : Host (list Combatant) :=
  (updates <- rollEach all settings [] ids ;;
   if (List.length updates =? 0)%nat then ret all
   else ret (updateEmbeddedDocuments all updates))%host.

End Initiative.

(** ** Turn order *)

(** The value of a string in a subtraction.  Document ids are
    alphanumeric: one made of decimal digits only is that number, any other
    reads as NaN ([None]); the further literal forms of the language
    (signs, fractions, exponents, radix prefixes) are not modelled. *)
Definition stringToNumber (s : string) : option Z :=
  match s with
  | EmptyString => Some 0
  | _ => if Js.all_digits s then Js.parseInteger s else None
  end.

Section Order.

(** [a.localeCompare(b)] of the host: negative, zero or positive. *)
Variable localeCompare : string -> string -> Z.

Definition numericInitiative (c : Combatant) : Q :=
  match initiative c with
  | Some i => i
  | None => (-9999)%Q
  end.

Definition ownerAdvantage (c : Combatant) : bool :=
  match token c with
  | Some t => match tokenActor t with
              | Some a => hasPlayerOwner a
              | None => false
              end
  | None => false
  end.

Definition displayName (c : Combatant) : string :=
  match token c with
  | Some t => name t
  | None => EmptyString
  end.

(** The comparator answers a number, or NaN ([None]). *)
Definition _sortCombatants (a b : Combatant) : option Q :=
  let ia := numericInitiative a in
  let ib := numericInitiative b in
  let ci := (ib - ia)%Q in
  if negb (Qeq_bool ci 0) then Some ci
  else
    let apc := ownerAdvantage a in
    let bpc := ownerAdvantage b in
    let cpc := (if bpc then 1 else 0) - (if apc then 1 else 0) in
    if negb (cpc =? 0) then Some (inject_Z cpc)
    else
      let an := displayName a in
      let bn := displayName b in
      let cn := localeCompare an bn in
      if negb (cn =? 0) then Some (inject_Z cn)
      else
        match stringToNumber (tokenId a), stringToNumber (tokenId b) with
        | Some x, Some y => Some (inject_Z (x - y))
        | _, _ => None
        end.

End Order.

(** [array.sort(comparator)] of the language: a stable sort in which a
    comparator answer of NaN counts as zero, so that two elements stay in
    their given order unless the comparator puts the later one first. *)
Section Sort.

Variable A : Type.
Variable comparator : A -> A -> option Q.

Definition comesAfter (a b : A) : bool :=
  match comparator a b with
  | Some v => Qltb 0 v
  | None => false
  end.

Fixpoint insertSorted (a : A) (sorted : list A) : list A :=
  match sorted with
  | [] => [a]
  | b :: rest =>
      if comesAfter a b then b :: insertSorted a rest
      else a :: b :: rest
  end.

Definition sort (l : list A) : list A := fold_right insertSorted [] l.

End Sort.

End Combat.

(* ================================================================== *)
(** * Condition bookkeeping *)
(* ================================================================== *)

Module Conditions.

Record Condition : Type := { id : string; label : string; icon : string }.

Definition condition (i : string) (svg : string) : Condition :=
  {| id := i; label := "urbanjungle.effect.status." ++ i; icon := svg |}.

(** [CommonConditionInfo.conditionList]. *)
Definition conditionList : list Condition :=
  [ condition "focused" "icons/svg/upgrade.svg";
    condition "guarding" "icons/svg/shield.svg";
    condition "reeling" "icons/svg/lightning.svg";
    condition "hurt" "icons/svg/acid.svg";
    condition "afraid" "systems/urbanjungle/icons/status/afraid.svg";
    condition "injured" "icons/svg/blood.svg";
    condition "dying" "systems/urbanjungle/icons/status/dying.svg";
    condition "dead" "icons/svg/skull.svg";
    condition "overkilled" "systems/urbanjungle/icons/status/overkilled.svg";
    condition "asleep" "icons/svg/sleep.svg";
    condition "unconscious" "icons/svg/unconscious.svg";
    condition "burdened" "systems/urbanjungle/icons/status/burdened.svg";
    condition "over-burdened"
      "systems/urbanjungle/icons/status/overburdened.svg";
    condition "cannotmove" "systems/urbanjungle/icons/status/cantmove.svg";
    condition "fatigued" "icons/svg/degen.svg";
    condition "sick" "icons/svg/poison.svg";
    condition "confused" "icons/svg/daze.svg";
    condition "terrified" "systems/urbanjungle/icons/status/terrified.svg";
    condition "enraged" "icons/svg/explosion.svg";
    condition "knockdown" "icons/svg/falling.svg";
    condition "berserk" "icons/svg/hazard.svg";
    condition "blinded" "icons/svg/blind.svg";
    condition "silenced" "icons/svg/silenced.svg";
    condition "fulltilt" "icons/svg/up.svg";
    condition "slowed" "icons/svg/down.svg";
    condition "immobilized" "icons/svg/mountain.svg";
    condition "half-buried" "icons/svg/ruins.svg";
    condition "onfire" "icons/svg/fire.svg";
    condition "mesmerized" "icons/svg/ice-aura.svg";
    condition "marionette" "icons/svg/paralysis.svg";
    condition "controlled" "icons/svg/statue.svg";
    condition "allfours" "icons/svg/pawprint.svg";
    condition "flying" "icons/svg/wing.svg";
    condition "grappled" "icons/svg/net.svg";
    condition "hiding" "icons/svg/mystery-man.svg";
    condition "misc-a" "icons/svg/eye.svg";
    condition "misc-b" "icons/svg/clockwork.svg";
    condition "misc-c" "icons/svg/castle.svg";
    condition "misc-d" "icons/svg/book.svg";
    condition "misc-e" "icons/svg/coins.svg";
    condition "misc-f" "icons/svg/sound.svg" ].

(** [CommonConditionInfo.cubList]: the names the external provider uses. *)
Definition cubList : list (string * string) :=
  [ ("focused", "Focused"); ("guarding", "Guarding"); ("reeling", "Reeling");
    ("hurt", "Hurt"); ("afraid", "Afraid"); ("injured", "Injured");
    ("dying", "Dying"); ("dead", "Dead"); ("overkilled", "Overkilled");
    ("asleep", "Asleep"); ("unconscious", "Unconscious");
    ("burdened", "Burdened"); ("over-burdened", "Over-Burdened");
    ("cannotmove", "Cannot Move"); ("fatigued", "Fatigued"); ("sick", "Sick");
    ("confused", "Confused"); ("terrified", "Terrified");
    ("enraged", "Enraged"); ("knockdown", "Knockdown");
    ("berserk", "Berserk"); ("blinded", "Blinded"); ("silenced", "Silenced");
    ("fulltilt", "Full Tilt"); ("slowed", "Slowed");
    ("immobilized", "Immobilized"); ("half-buried", "Half-Buried");
    ("onfire", "On Fire"); ("mesmerized", "Mesmerized");
    ("marionette", "Marionette"); ("controlled", "Controlled");
    ("allfours", "All Fours"); ("flying", "Flying"); ("grappled", "Grappled");
    ("hiding", "Hiding"); ("misc-a", "Misc-A"); ("misc-b", "Misc-B");
    ("misc-c", "Misc-C"); ("misc-d", "Misc-D"); ("misc-e", "Misc-E");
    ("misc-f", "Misc-F") ].

(** The conditions argument of the unified functions: one id or an array
    of ids. *)
Inductive ConditionArg : Type :=
| One (c : string)
| Many (cs : list string).

Definition asArray (conditions : ConditionArg) : list string :=
  match conditions with
  | One c => [c]
  | Many cs => cs
  end.

(** [!conditions]: of the values modelled, only the empty string is
    falsy. *)
Definition falsy (conditions : ConditionArg) : bool :=
  match conditions with
  | One c => String.eqb c EmptyString
  | Many _ => false
  end.

(** [array.includes(s)]. *)
Definition includes (cs : list string) (s : string) : bool :=
  existsb (String.eqb s) cs.

Definition cubGet (c : string) : option string :=
  option_map snd (find (fun entry => String.eqb (fst entry) c) cubList).

Definition convertToCub (conditions : ConditionArg) : list string :=
  flat_map (fun c => match cubGet c with
                     | Some n => [n]
                     | None => []
                     end) (asArray conditions).

(** [getMatchedConditions] on an array of ids. *)
Definition getMatchedConditions (conditions : list string)
  : list Condition :=
  filter (fun cond => includes conditions (id cond)) conditionList.

(** An active effect on an actor; [statusId] is its
    [flags.core.statusId], if it has one. *)
Record ActiveEffect : Type :=
  { effectId : string;
    statusId : option string;
    effectLabel : string;
    effectIcon : string }.

(** The data an effect is created from. *)
Record EffectData : Type :=
  { dataStatusId : string; dataLabel : string; dataIcon : string }.

(** An actor document: its effects and the number of effects the host has
    created on it, from which the next effect id is drawn. *)
Record Actor : Type := { effects : list ActiveEffect; created : nat }.

Inductive Target : Type :=
| OfActor (a : Actor)
| OfToken (a : option Actor)
| Neither.

Definition getTargetActor (target : Target) : option Actor :=
  match target with
  | OfActor a => Some a
  | OfToken a => a
  | Neither => None
  end.

(** The writes the functions issue: to the embedded documents of the
    actor, or to the external provider. *)
Inductive Write : Type :=
| CreateEffects (datas : list EffectData)
| DeleteEffects (ids : list string)
| ProviderAdd (names : list string)
| ProviderRemove (names : list string).

(** [actor.createEmbeddedDocuments("ActiveEffect", datas)] and
    [actor.deleteEmbeddedDocuments("ActiveEffect", ids)] of the host. *)
Fixpoint createEmbeddedDocuments (a : Actor) (datas : list EffectData)
  : Actor :=
  match datas with
  | [] => a
  | d :: rest =>
      createEmbeddedDocuments
        {| effects :=
             (effects a
              ++ [ {| effectId :=
                        "effect" ++ Js.numToString (Z.of_nat (created a));
                      statusId := Some (dataStatusId d);
                      effectLabel := dataLabel d;
                      effectIcon := dataIcon d |} ])%list;
           created := S (created a) |}
        rest
  end.

Definition deleteEmbeddedDocuments (a : Actor) (ids : list string) : Actor :=
  {| effects := filter (fun e => negb (includes ids (effectId e))) (effects a);
     created := created a |}.

Definition withActor (target : Target) (a : Actor) : Target :=
  match target with
  | OfActor _ => OfActor a
  | OfToken _ => OfToken (Some a)
  | Neither => Neither
  end.

Section Backends.

(** Whether the external provider manages the conditions
    ([game.urbanjungle.useCUBConditions]), and its query. *)
Variable useCUBConditions : bool.
Variable cubHasCondition : list string -> Target -> bool.
Variable localize : string -> string.

Definition hasConditionsIronclaw (conditions : ConditionArg)
    (target : Target) : bool :=
  if falsy conditions then false
  else if useCUBConditions then
    cubHasCondition (convertToCub conditions) target
  else
    match getTargetActor target with
    | None => false
    | Some actor =>
        let conditions := asArray conditions in
        existsb (fun x => match statusId x with
                          | Some s => includes conditions s
                          | None => false
                          end) (effects actor)
    end.

(** The branch of the built-in backend, the one [addConditionsIronclaw]
    reaches. *)
Definition getConditionsIronclaw (target : Target) : list ActiveEffect :=
  match getTargetActor target with
  | None => []
  | Some actor => effects actor
  end.

Definition prepareEffects (conds : list Condition) : list EffectData :=
  map (fun effect =>
         {| dataStatusId := id effect;
            dataLabel := localize (label effect);
            dataIcon := icon effect |}) conds.

(** The functions answer the writes they issued, in order. *)
Definition addConditionsIronclaw (conditions : ConditionArg)
    (target : Target) : list Write :=
  if useCUBConditions then
    [ProviderAdd (convertToCub conditions)]
  else
    match getTargetActor target with
    | None => []
    | Some actor =>
        let usedconditions := asArray conditions in
        let usedconditions :=
          if hasConditionsIronclaw conditions target then
            let existingeffects := getConditionsIronclaw target in
            filter (fun x =>
                      Bool.eqb
                        (existsb (fun y =>
                                    match statusId y with
                                    | Some s => String.eqb s x
                                    | None => false
                                    end) existingeffects)
                        false)
                   usedconditions
          else usedconditions in
        let effects :=
          prepareEffects (getMatchedConditions usedconditions) in
        if (0 <? List.length effects)%nat then [CreateEffects effects]
        else []
    end.

Definition removeConditionsIronclaw (conditions : ConditionArg)
    (target : Target) (checkfirst : bool) : list Write :=
  if useCUBConditions then
    if negb checkfirst || hasConditionsIronclaw conditions target then
      [ProviderRemove (convertToCub conditions)]
    else []
  else
    match getTargetActor target with
    | None => []
    | Some actor =>
        let conditions := asArray conditions in
        let removals :=
          map effectId
            (filter (fun value =>
                       match statusId value with
                       | Some s => includes conditions s
                       | None => false
                       end) (effects actor)) in
        if (0 <? List.length removals)%nat then [DeleteEffects removals]
        else []
    end.

End Backends.

(** The target after the host has carried out a write to its embedded
    documents.  What the external provider does with a request is its
    own business and leaves the model's target as it is. *)
Definition commit (target : Target) (w : Write) : Target :=
  match getTargetActor target, w with
  | Some a, CreateEffects datas =>
      withActor target (createEmbeddedDocuments a datas)
  | Some a, DeleteEffects ids =>
      withActor target (deleteEmbeddedDocuments a ids)
  | _, _ => target
  end.

Definition commitAll (target : Target) (ws : list Write) : Target :=
  fold_left commit ws target.

(** The status ids of the effects of an actor. *)
Definition statusIds (a : Actor) : list string :=
  flat_map (fun e => match statusId e with
                     | Some s => [s]
                     | None => []
                     end) (effects a).

(** The ids the built-in backend goes on with after it has dropped the
    ones the actor carries already. *)
Definition used (cubHasCondition : list string -> Target -> bool)
    (conditions : ConditionArg) (target : Target) (a : Actor)
  : list string :=
  if hasConditionsIronclaw false cubHasCondition conditions target
  then filter (fun x =>
                 Bool.eqb
                   (existsb (fun y => match statusId y with
                                      | Some s => String.eqb s x
                                      | None => false
                                      end) (effects a))
                   false)
         (asArray conditions)
  else asArray conditions.

(** The status ids the target carries. *)
Definition conditionSet (target : Target) : list string :=
  match getTargetActor target with
  | None => []
  | Some a =>
      flat_map (fun e => match statusId e with
                         | Some s => [s]
                         | None => []
                         end) (effects a)
  end.

End Conditions.

(* ================================================================== *)
(** * The encounter: resetting the initiative *)
(* ================================================================== *)

Module Encounter.
Import Combat.

(** One entry of the updates of [resetAll]: the combatant of that id gets
    a null initiative and a null initiative result. *)
Definition applyReset (cs : list Combatant) (cid : string) : list Combatant :=
  map (fun c =>
         if String.eqb (id c) cid
         then {| id := id c; actor := actor c; token := token c;
                 tokenId := tokenId c; isOwner := isOwner c;
                 initiative := None; initiativeResult := None |}
         else c) cs.

(** [resetAll]: one update per combatant, handed to the host's
    [updateEmbeddedDocuments]; the turn, set back to 0 afterwards, is not
    part of the model. *)
Definition resetAll (cs : list Combatant) : list Combatant :=
  let updates := map id cs in
  fold_left applyReset updates cs.

End Encounter.

(* ================================================================== *)
(** * The system module: version numbers *)
(* ================================================================== *)

Module System.

(** The digits [s] starts with, and what follows them. *)
Fixpoint spanDigits (s : string) : string * string :=
  match s with
  | EmptyString => (EmptyString, EmptyString)
  | String c rest =>
      if Js.is_digit c
      then let '(digits, after) := spanDigits rest in (String c digits, after)
      else (EmptyString, s)
  end.

(** A match of the pattern [(\d+)\.(\d+)\.(\d+)?] at the very start of
    [s]: its three groups, the last one undefined when no digit follows the
    second dot.  A run of digits is taken whole: a shorter run would be
    followed by a digit, not by the dot the pattern asks for. *)
Definition matchVersionAt (s : string) : option (list (option string)) :=
  let '(major, after1) := spanDigits s in
  if (String.length major =? 0)%nat then None
  else
    match after1 with
    | String "." rest1 =>
        let '(minor, after2) := spanDigits rest1 in
        if (String.length minor =? 0)%nat then None
        else
          match after2 with
          | String "." rest2 =>
              let '(patch, _) := spanDigits rest2 in
              Some [Some major; Some minor;
                    if (String.length patch =? 0)%nat then None
                    else Some patch]
          | _ => None
          end
    | _ => None
    end.

(** [version.match(versiontest)]: the leftmost match in [s]. *)
Fixpoint searchVersion (s : string) : option (list (option string)) :=
  match matchVersionAt s with
  | Some groups => Some groups
  | None =>
      match s with
      | EmptyString => None
      | String _ rest => searchVersion rest
      end
  end.

(** The groups of the match, or null ([None]) when the version cannot be
    split. *)
Definition getVersionNumbers (version : string)
  : option (list (option string)) :=
  searchVersion version.

(** [a != b] and [a > b] between values that are strings or undefined:
    two strings are compared as strings, character by character; undefined
    differs from every string and is greater than nothing. *)
Definition looseNeq (a b : option string) : bool :=
  match a, b with
  | Some x, Some y => negb (String.eqb x y)
  | None, None => false
  | _, _ => true
  end.

Definition greater (a b : option string) : bool :=
  match a, b with
  | Some x, Some y => String.ltb y x
  | _, _ => false
  end.

(** The loop of [checkIfNewerVersion] from index [i] on. *)
Fixpoint newerFrom (i : nat) (rest : list (option string))
    (oldver : list (option string)) : bool :=
  match rest with
  | [] => false
  | n :: rest' =>
      if looseNeq n (nth i oldver None) then greater n (nth i oldver None)
      else newerFrom (S i) rest' oldver
  end.

(** Reading [newver.length] or [oldver[i]] off a null throws. *)
Definition checkIfNewerVersion (testing baseversion : string)
  : Foundry.completion bool :=
  let oldver := getVersionNumbers baseversion in
  let newver := getVersionNumbers testing in
  match newver with
  | None => Foundry.Thrown
  | Some newver =>
      match newver, oldver with
      | [], _ => Foundry.Returned false
      | _ :: _, None => Foundry.Thrown
      | _ :: _, Some oldver => Foundry.Returned (newerFrom 0 newver oldver)
      end
  end.

End System.

(* ================================================================== *)
(** * Notions used to state the properties *)
(* ================================================================== *)

Module Pool.
Import Foundry.

(** The die sizes of a pool, in the order [formRoll] writes them. *)
Definition sizes (d12 d10 d8 d6 d4 : Z) : list Z :=
  (repeat 12 (Z.to_nat d12) ++ repeat 10 (Z.to_nat d10)
   ++ repeat 8 (Z.to_nat d8) ++ repeat 6 (Z.to_nat d6)
   ++ repeat 4 (Z.to_nat d4))%list.

(** The expression of one die of [faces] faces. *)
Definition dieTerm (faces : Z) : string := "1d" ++ Js.numToString faces.

Definition terms (d12 d10 d8 d6 d4 : Z) : list string :=
  map dieTerm (sizes d12 d10 d8 d6 d4).

(** A pool holds a die when one of its counts is positive. *)
Definition nonEmpty (d12 d10 d8 d6 d4 : Z) : Prop :=
  0 < d12 \/ 0 < d10 \/ 0 < d8 \/ 0 < d6 \/ 0 < d4.

(** The faces a list of dice shows on the given draws. *)
Fixpoint faces (dice : list Z) (entropy : list Z) : list Z :=
  match dice with
  | [] => []
  | f :: rest =>
      fst (rollDie f entropy) :: faces rest (snd (rollDie f entropy))
  end.

Fixpoint drawsLeft (dice : list Z) (entropy : list Z) : list Z :=
  match dice with
  | [] => entropy
  | f :: rest => drawsLeft rest (snd (rollDie f entropy))
  end.

(** The die results of a roll: the results of its first pool. *)
Definition results (r : Roll.t) : list Z :=
  match Roll.terms r with
  | p :: _ => PoolTerm.results p
  | [] => []
  end.

(** How many results are greater than, equal to, and not less than the
    target number. *)
Definition above (tni : Z) (rs : list Z) : Z :=
  Z.of_nat (List.length (filter (fun x => tni <? x) rs)).

Definition equal (tni : Z) (rs : list Z) : Z :=
  Z.of_nat (List.length (filter (fun x => x =? tni) rs)).

Definition atLeast (tni : Z) (rs : list Z) : Z :=
  Z.of_nat (List.length (filter (fun x => tni <=? x) rs)).

(** The largest result, or 0 when there is none above it. *)
Definition highestOf (rs : list Z) : Z := fold_left Z.max rs 0.

(** The position of the first result that shows a one. *)
Fixpoint firstOne (rs : list Z) : option nat :=
  match rs with
  | [] => None
  | x :: rest => if x =? 1 then Some O else option_map S (firstOne rest)
  end.

(** [l] with the element at position [i] replaced by [v]. *)
Definition replaceAt {A : Type} (i : nat) (v : A) (l : list A) : list A :=
  (firstn i l ++ v :: skipn (S i) l)%list.

(** The pieces of the formula that [copyRerollHighestOne] writes from
    position [i] on. *)
Fixpoint rerollPieces (terms : list string) (i : nat) (onefound : bool)
    (rs : list Z) : list string :=
  match rs with
  | [] => []
  | x :: rest =>
      if negb onefound && (x =? 1)
      then nth i terms "undefined" :: rerollPieces terms (S i) true rest
      else Js.numToString x :: rerollPieces terms (S i) onefound rest
  end.

(** The pieces of the formula a copying roller evaluates. *)
Definition copiedPieces (rerollone : bool) (p : PoolTerm.t) : list string :=
  if rerollone
  then rerollPieces (PoolTerm.terms p) 0 false (PoolTerm.results p)
  else map Js.numToString (PoolTerm.results p).

(** A piece that holds neither a comma nor a closing brace. *)
Definition clean (piece : string) : Prop :=
  Js.has_char "," piece = false /\ Js.has_char "}" piece = false.

(** What a roller came back with, when it came back with a roll. *)
Definition returned (run : completion (option Dice.DiceReturn) * World)
  : option Dice.DiceReturn :=
  match fst run with
  | Returned r => r
  | Thrown => None
  end.

(** The four result paragraphs of a target number roll. *)
Section Classification.

Variable info : Dice.CommonSystemInfo.
Variable i18n : Dice.I18n.

Definition successString (label : string) (n : Z) : string :=
  Dice.labelParagraph label
  ++ Dice.resultParagraph info (Dice.success (Dice.resultColors info))
       (Dice.format i18n "urbanjungle.chat.success"
          [("successes", Js.numToString n)]).

Definition botchString (label : string) : string :=
  Dice.labelParagraph label
  ++ Dice.resultParagraph info (Dice.botch (Dice.resultColors info))
       (Dice.localize i18n "urbanjungle.chat.botch").

Definition tieString (label : string) (n : Z) : string :=
  Dice.labelParagraph label
  ++ Dice.resultParagraph info (Dice.tie (Dice.resultColors info))
       (Dice.format i18n "urbanjungle.chat.tie"
          [("ties", Js.numToString n)]).

Definition failureString (label : string) : string :=
  Dice.labelParagraph label
  ++ Dice.resultParagraph info (Dice.failure (Dice.resultColors info))
       (Dice.localize i18n "urbanjungle.chat.failure").

End Classification.

(** The roll the host hands back for a pool of dice showing [rs]. *)
Definition poolRoll (formula : string) (pieces : list string)
    (rs dice : list Z) (total : Z) : Roll.t :=
  {| Roll.formula := formula;
     Roll.terms := [ {| PoolTerm.terms := pieces; PoolTerm.results := rs |} ];
     Roll.dice := dice;
     Roll.total := total |}.

Definition rollMessage (s : Speaker) (flavorText kind label : string)
    (original : bool) (rs : list Z) (r : Roll.t) : ChatMessage :=
  {| isRollMessage := true; speaker := s; flavor := flavorText;
     flags := {| rollType := kind; Foundry.label := Some label;
                 originalRoll := original;
                 hasOne := existsb (fun x => x =? 1) rs |};
     roll := r |}.

(** The world after a roll that left the draws [rest] and produced the
    message [msg]. *)
Definition after (w : World) (rest : list Z) (msg : ChatMessage)
    (sent : bool) : World :=
  {| entropy := rest;
     chatLog := if sent then (chatLog w ++ [msg])%list else chatLog w |}.

End Pool.

(** What the combat tracker keeps of a combatant, and the order of its
    turns. *)
Module Tracker.
Import Combat.

(** The fields of a combatant that neither a roll nor a reset writes. *)
Definition frame (c : Combatant)
  : string * option Actor * option Token * string * bool :=
  (id c, actor c, token c, tokenId c, isOwner c).

(** A combatant without initiative and without initiative result. *)
Definition cleared (c : Combatant) : Combatant :=
  {| id := id c; actor := actor c; token := token c;
     tokenId := tokenId c; isOwner := isOwner c;
     initiative := None; initiativeResult := None |}.

(** [l] without its first element equal to [h]. *)
Fixpoint dropFirst (h : Z) (l : list Z) : list Z :=
  match l with
  | [] => []
  | x :: rest => if x =? h then rest else x :: dropFirst h rest
  end.

(** The initiative of a combatant that rolls for itself: the highest die,
    and a twentieth of the largest total among the dice of the roll once
    the first die that shows the highest is set aside, 0 when no total is
    above it. *)
Definition individualInitiative (initRoll : Dice.DiceReturn) : Q :=
  (inject_Z (Dice.highest initRoll)
   + inject_Z
       (Pool.highestOf
          (dropFirst (Dice.highest initRoll)
             (Foundry.Roll.dice (Dice.roll initRoll)))) / 20)%Q.

(** [a] may take its turn before [b]: its initiative is higher, or it is
    the same and [b] has no owner advantage over [a]. *)
Definition precedes (a b : Combatant) : Prop :=
  (numericInitiative b < numericInitiative a)%Q
  \/ ((numericInitiative a == numericInitiative b)%Q
      /\ (ownerAdvantage b = true -> ownerAdvantage a = true)).

End Tracker.

(** Version strings. *)
Module Version.

(** What does not start with a digit. *)
Definition stops (s : string) : Prop :=
  match s with
  | EmptyString => True
  | String c _ => Js.is_digit c = false
  end.

End Version.

(* ================================================================== *)
(** * A host to run the code on *)
(* ================================================================== *)

(** Translations are left at their keys, as the host leaves them when no
    language file provides them; the result styling stands for the values
    of the helper module. *)
Module Plain.

Definition info : Dice.CommonSystemInfo :=
  {| Dice.resultFontSize := "1.7em";
     Dice.resultColors :=
       {| Dice.success := "green"; Dice.tie := "orange";
          Dice.normal := "black"; Dice.failure := "red";
          Dice.botch := "darkred" |} |}.

Definition i18n : Dice.I18n :=
  {| Dice.localize := fun key => key;
     Dice.format := fun key _ => key |}.

(** Actors go by their names here. *)
Definition getMacroSpeaker (rollingactor : option string)
  : Foundry.Speaker :=
  {| Foundry.alias := match rollingactor with
                      | Some n => n
                      | None => "Gamemaster"
                      end |}.

Definition world (draws : list Z) : Foundry.World :=
  {| Foundry.entropy := draws; Foundry.chatLog := [] |}.

(** Names compared by code point. *)
Definition localeCompare (a b : string) : Z :=
  match String.compare a b with
  | Lt => -1
  | Eq => 0
  | Gt => 1
  end.

(** Distances counted in grid squares of 100 pixels, the larger of the
    two offsets; no distance to a token without placement. *)
Definition measureDistance (a b : option Combat.TokenData) : Q :=
  match a, b with
  | Some p, Some q =>
      inject_Z (Z.max (Z.abs (Combat.x p - Combat.x q))
                      (Z.abs (Combat.y p - Combat.y q)) / 100)
  | _, _ => 10000%Q
  end.

Definition combatant (cid tid nm : string) (owned : bool)
    (attitude px py : Z) (init : option Q) : Combat.Combatant :=
  {| Combat.id := cid;
     Combat.actor := Some {| Combat.hasPlayerOwner := owned |};
     Combat.token :=
       Some {| Combat.data :=
                 Some {| Combat.disposition := attitude;
                         Combat.x := px; Combat.y := py |};
               Combat.name := nm;
               Combat.tokenActor :=
                 Some {| Combat.hasPlayerOwner := owned |} |};
     Combat.tokenId := tid;
     Combat.isOwner := true;
     Combat.initiative := init;
     Combat.initiativeResult := None |}.

Definition settings (mode : Js.value) (manual : option Z) (teams : bool)
  : Combat.Settings :=
  {| Combat.sideBased := teams; Combat.initType := mode;
     Combat.skipDefeated := false; Combat.manualTN := manual |}.

(** The message of a roll of a d12, a d8 and a d4 against target number 3
    on the draws 5, 0 and 2: the dice show 6, 1 and 3. *)
Definition dodge : Foundry.ChatMessage :=
  let rolled :=
    {| Foundry.Roll.formula := "{1d12,1d8,1d4}cs>3";
       Foundry.Roll.terms :=
         [ {| Foundry.PoolTerm.terms := ["1d12"; "1d8"; "1d4"];
              Foundry.PoolTerm.results := [6; 1; 3] |} ];
       Foundry.Roll.dice := [6; 1; 3];
       Foundry.Roll.total := 1 |} in
  {| Foundry.isRollMessage := true;
     Foundry.speaker := getMacroSpeaker None;
     Foundry.flavor := Dice.flavorStringTN info i18n 1 1 false "Dodge";
     Foundry.flags :=
       {| Foundry.rollType := "TN"; Foundry.label := Some "Dodge";
          Foundry.originalRoll := true; Foundry.hasOne := true |};
     Foundry.roll := rolled |}.

(** A bruised actor: it carries the condition hurt. *)
Definition bruised : Conditions.Target :=
  Conditions.OfActor
    {| Conditions.effects :=
         [ {| Conditions.effectId := "effect0";
              Conditions.statusId := Some "hurt";
              Conditions.effectLabel := "urbanjungle.effect.status.hurt";
              Conditions.effectIcon := "icons/svg/acid.svg" |} ];
       Conditions.created := 1 |}.

(** An initiative check of one d6 against the threshold, standing for the
    check the actor module rolls. *)
Definition getInitiativeRollIronclaw (c : Combat.Combatant) (tn : Z)
  : Foundry.Host Dice.DiceReturn :=
  (rolled <- Dice.rollTargetNumber info i18n string getMacroSpeaker
               tn 0 0 0 1 0 "Initiative" None false ;;
   match rolled with
   | Some r => Foundry.ret r
   | None => Foundry.throw
   end)%host.

(** A player character, an allied bystander and two thugs of one name. *)
Definition hero : Combat.Combatant :=
  combatant "c1" "Kq3mXw9TzB4nLc7R" "Rita" true 1 0 0 None.
Definition ally : Combat.Combatant :=
  combatant "c2" "hV8sJd1GyU6aEp2Z" "Bartender" false 1 200 0 None.
Definition thug : Combat.Combatant :=
  combatant "c3" "q7Rk2mXw9TzB4nLc" "Thug" false (-1) 800 600 (Some 2%Q).
Definition otherThug : Combat.Combatant :=
  combatant "c4" "Zp3Vh8sJd1GyU6aE" "Thug" false (-1) 900 600 (Some 2%Q).

(** The tracker of the hero and a thug after the hero's initiative was
    rolled on the draw 2, every combatant rolling for itself. *)
Definition heroRolled : list Combat.Combatant :=
  Eval vm_compute in
    match fst (Combat.rollInitiative measureDistance
                 getInitiativeRollIronclaw
                 (Some (settings (Js.Number 2) None false))
                 ["c1"] [hero; thug] (world [2])) with
    | Foundry.Returned l => l
    | Foundry.Thrown => []
    end.

End Plain.

(* ================================================================== *)
(** * Facts about strings and number literals *)
(* ================================================================== *)

Module JsFacts.
Import Js.

Lemma append_nil_r (s : string) : s ++ EmptyString = s.
Proof. induction s as [|c s IH]; simpl; [reflexivity | now rewrite IH]. Qed.

Lemma append_assoc (s t u : string) : (s ++ t) ++ u = s ++ (t ++ u).
Proof. induction s as [|c s IH]; simpl; [reflexivity | now rewrite IH]. Qed.

Lemma length_append (s t : string) :
  String.length (s ++ t) = (String.length s + String.length t)%nat.
Proof. induction s as [|c s IH]; simpl; [reflexivity | now rewrite IH]. Qed.

Lemma substring_prefix (s t : string) :
  substring 0 (String.length s) (s ++ t) = s.
Proof.
  induction s as [|c s IH]; simpl.
  - now destruct t.
  - now rewrite IH.
Qed.

Lemma slice_drop_last_snoc (s : string) (c : ascii) :
  slice_drop_last (s ++ String c EmptyString) = s.
Proof.
  unfold slice_drop_last. rewrite length_append. simpl.
  replace (String.length s + 1 - 1)%nat with (String.length s) by lia.
  apply substring_prefix.
Qed.

Lemma has_char_append (c : ascii) (s t : string) :
  has_char c (s ++ t) = has_char c s || has_char c t.
Proof.
  induction s as [|a s IH]; simpl; [reflexivity|].
  now rewrite IH, orb_assoc.
Qed.

Lemma cut_at_append (c : ascii) (s rest : string) :
  has_char c s = false ->
  cut_at c (s ++ String c rest) = Some (s, rest).
Proof.
  induction s as [|a s IH]; simpl; intros H.
  - now rewrite Ascii.eqb_refl.
  - apply orb_false_elim in H as [Ha Hs].
    now rewrite Ha, (IH Hs).
Qed.

Lemma split_on_clean (sep : ascii) (s : string) :
  has_char sep s = false -> split_on sep s = [s].
Proof.
  induction s as [|a s IH]; simpl; intros H; [reflexivity|].
  apply orb_false_elim in H as [Ha Hs].
  now rewrite Ha, (IH Hs).
Qed.

Lemma split_on_append (sep : ascii) (s rest : string) :
  has_char sep s = false ->
  split_on sep (s ++ String sep rest) = s :: split_on sep rest.
Proof.
  induction s as [|a s IH]; simpl; intros H.
  - now rewrite Ascii.eqb_refl.
  - apply orb_false_elim in H as [Ha Hs].
    now rewrite Ha, (IH Hs).
Qed.

(** Joining pieces and splitting the result gives the pieces back. *)
Lemma split_on_join (sep : ascii) (pieces : list string) :
  pieces <> [] ->
  Forall (fun p => has_char sep p = false) pieces ->
  split_on sep (join (String sep EmptyString) pieces) = pieces.
Proof.
  intros Hne Hall. induction Hall as [|p rest Hp Hrest IH]; [easy|].
  destruct rest as [|q rest].
  - simpl. now apply split_on_clean.
  - change (join (String sep EmptyString) (p :: q :: rest))
      with (p ++ String sep (join (String sep EmptyString) (q :: rest))).
    rewrite split_on_append by assumption.
    now rewrite IH.
Qed.

Lemma trailed_app (sep : string) (l1 l2 : list string) :
  trailed sep (l1 ++ l2) = trailed sep l1 ++ trailed sep l2.
Proof.
  induction l1 as [|p l1 IH]; simpl; [reflexivity|].
  now rewrite IH, !append_assoc.
Qed.

Lemma trailed_join (sep : ascii) (pieces : list string) :
  pieces <> [] ->
  trailed (String sep EmptyString) pieces
  = join (String sep EmptyString) pieces ++ String sep EmptyString.
Proof.
  intros Hne. induction pieces as [|p rest IH]; [easy|].
  destruct rest as [|q rest].
  - reflexivity.
  - change (trailed (String sep EmptyString) (p :: q :: rest))
      with (p ++ String sep (trailed (String sep EmptyString) (q :: rest))).
    rewrite IH by easy.
    change (join (String sep EmptyString) (p :: q :: rest))
      with (p ++ String sep (join (String sep EmptyString) (q :: rest))).
    now rewrite append_assoc.
Qed.

(** Appending every piece with a trailing separator and cutting the last
    character is the same as joining the pieces. *)
Lemma slice_trailed (sep : ascii) (pieces : list string) :
  pieces <> [] ->
  slice_drop_last (trailed (String sep EmptyString) pieces)
  = join (String sep EmptyString) pieces.
Proof.
  intros Hne. rewrite trailed_join by assumption.
  apply slice_drop_last_snoc.
Qed.

Lemma trailed_length_pos (sep : string) (pieces : list string) :
  pieces <> [] -> sep <> EmptyString ->
  (0 < String.length (trailed sep pieces))%nat.
Proof.
  destruct pieces as [|p rest]; [easy|]. intros _ Hsep. simpl.
  rewrite !length_append. destruct sep; [easy|]. simpl. lia.
Qed.

Lemma join_nonempty (sep : string) (pieces : list string) :
  pieces <> [] ->
  Forall (fun p => p <> EmptyString) pieces ->
  join sep pieces <> EmptyString.
Proof.
  intros Hne Hall. destruct Hall as [|p rest Hp Hrest]; [easy|].
  destruct p as [|c p]; [easy|]. simpl. now destruct rest.
Qed.

(** ** Number literals *)

Lemma string_of_uint_digits (d : uint) :
  all_chars numeric_char (NilEmpty.string_of_uint d) = true.
Proof. induction d; simpl; auto. Qed.

Lemma numToString_numeric (n : Z) :
  all_chars numeric_char (numToString n) = true.
Proof.
  unfold numToString, NilZero.string_of_int, NilZero.string_of_uint.
  destruct (Z.to_int n) as [d|d]; destruct d;
    try reflexivity; simpl; try apply string_of_uint_digits.
Qed.

Lemma all_chars_has_char (P : ascii -> bool) (c : ascii) (s : string) :
  all_chars P s = true -> P c = false -> has_char c s = false.
Proof.
  induction s as [|a s IH]; simpl; intros Hall Hc; [reflexivity|].
  apply andb_prop in Hall as [Ha Hs].
  rewrite (IH Hs Hc), orb_false_r.
  destruct (Ascii.eqb_spec a c); [subst; congruence | reflexivity].
Qed.

Lemma numToString_has_char (c : ascii) (n : Z) :
  numeric_char c = false -> has_char c (numToString n) = false.
Proof.
  intros Hc. eapply all_chars_has_char; eauto using numToString_numeric.
Qed.

Lemma pos_to_uint_nonnil (p : positive) : Pos.to_uint p <> Nil.
Proof.
  intros H. pose proof (DecimalPos.Unsigned.of_to p) as E.
  rewrite H in E. discriminate.
Qed.

(** A number printed and read back is the number. *)
Lemma parseInteger_numToString (n : Z) :
  parseInteger (numToString n) = Some n.
Proof.
  unfold parseInteger, numToString.
  rewrite NilZero.isi.
  - simpl. now rewrite DecimalZ.of_to.
  - destruct n; simpl; try discriminate.
    intros [= H]. now apply pos_to_uint_nonnil in H.
  - destruct n; simpl; try discriminate.
    intros [= H]. now apply pos_to_uint_nonnil in H.
Qed.

End JsFacts.

(* ================================================================== *)
(** * Facts about the dice rollers *)
(* ================================================================== *)

Module DiceFacts.
Import Foundry Dice Pool JsFacts.

Lemma appendTimes_trailed (n : nat) (piece rollstring : string) :
  appendTimes n (piece ++ ",") rollstring
  = rollstring ++ Js.trailed "," (repeat piece n).
Proof.
  revert rollstring. induction n as [|n IH]; intros rollstring; simpl.
  - now rewrite append_nil_r.
  - rewrite IH. now rewrite !append_assoc.
Qed.

(** The string [formRoll] holds before it cuts the last comma. *)
Lemma formRoll_trailed (d12 d10 d8 d6 d4 : Z) :
  appendTimes (Z.to_nat d4) "1d4,"
    (appendTimes (Z.to_nat d6) "1d6,"
       (appendTimes (Z.to_nat d8) "1d8,"
          (appendTimes (Z.to_nat d10) "1d10,"
             (appendTimes (Z.to_nat d12) "1d12," EmptyString))))
  = Js.trailed "," (terms d12 d10 d8 d6 d4).
Proof.
  change "1d12," with (dieTerm 12 ++ ",").
  change "1d10," with (dieTerm 10 ++ ",").
  change "1d8," with (dieTerm 8 ++ ",").
  change "1d6," with (dieTerm 6 ++ ",").
  change "1d4," with (dieTerm 4 ++ ",").
  rewrite !appendTimes_trailed. simpl append at 1.
  unfold terms, sizes. rewrite !map_app, !trailed_app, !map_repeat.
  now rewrite !append_assoc.
Qed.

Lemma sizes_nonempty (d12 d10 d8 d6 d4 : Z) :
  nonEmpty d12 d10 d8 d6 d4 -> sizes d12 d10 d8 d6 d4 <> [].
Proof.
  unfold nonEmpty, sizes. intros H E.
  apply (f_equal (@List.length Z)) in E.
  rewrite !length_app, !repeat_length in E. simpl in E. lia.
Qed.

Lemma sizes_empty (d12 d10 d8 d6 d4 : Z) :
  ~ nonEmpty d12 d10 d8 d6 d4 -> sizes d12 d10 d8 d6 d4 = [].
Proof.
  unfold nonEmpty, sizes. intros H.
  replace (Z.to_nat d12) with O by lia. replace (Z.to_nat d10) with O by lia.
  replace (Z.to_nat d8) with O by lia. replace (Z.to_nat d6) with O by lia.
  replace (Z.to_nat d4) with O by lia. reflexivity.
Qed.

Lemma terms_nonempty (d12 d10 d8 d6 d4 : Z) :
  nonEmpty d12 d10 d8 d6 d4 -> terms d12 d10 d8 d6 d4 <> [].
Proof.
  intros H E. apply (sizes_nonempty _ _ _ _ _ H).
  unfold terms in E. now apply map_eq_nil in E.
Qed.

Lemma formRoll_join (d12 d10 d8 d6 d4 : Z) :
  formRoll d12 d10 d8 d6 d4 = Js.join "," (terms d12 d10 d8 d6 d4).
Proof.
  unfold formRoll. rewrite formRoll_trailed.
  destruct (terms d12 d10 d8 d6 d4) as [|t ts] eqn:E; [reflexivity|].
  assert (Hne : t :: ts <> []) by easy.
  pose proof (trailed_length_pos "," (t :: ts) Hne) as Hlen.
  destruct (Nat.ltb_spec 0 (String.length (Js.trailed "," (t :: ts))))
    as [_|Hle].
  - now apply slice_trailed.
  - exfalso. assert (0 < String.length (Js.trailed "," (t :: ts)))%nat
      by (apply Hlen; easy). lia.
Qed.

(** ** Parsing the formulas the rollers build *)

Lemma numToString_clean (n : Z) : clean (Js.numToString n).
Proof. split; now apply numToString_has_char. Qed.

Lemma dieTerm_clean (f : Z) : clean (dieTerm f).
Proof.
  unfold clean, dieTerm. rewrite !has_char_append.
  split; simpl; now apply numToString_has_char.
Qed.

Lemma parseEntry_number (n : Z) :
  parseEntry (Js.numToString n) = Some (NumberEntry n).
Proof.
  unfold parseEntry. rewrite split_on_clean.
  - now rewrite parseInteger_numToString.
  - now apply numToString_has_char.
Qed.

Lemma parseEntry_die (f : Z) :
  parseEntry (dieTerm f) = Some (DiceEntry 1 f).
Proof.
  unfold parseEntry, dieTerm. simpl.
  rewrite split_on_clean by now apply numToString_has_char.
  now rewrite parseInteger_numToString.
Qed.

Lemma parseEntries_app (l1 l2 : list string) (e1 e2 : list Entry) :
  parseEntries l1 = Some e1 -> parseEntries l2 = Some e2 ->
  parseEntries (l1 ++ l2) = Some (e1 ++ e2)%list.
Proof.
  revert e1. induction l1 as [|p l1 IH]; simpl; intros e1 H1 H2.
  - injection H1 as <-. assumption.
  - destruct (parseEntry p); [|discriminate].
    destruct (parseEntries l1) as [es|]; [|discriminate].
    injection H1 as <-. now rewrite (IH es eq_refl H2).
Qed.

Lemma parseEntries_numbers (ns : list Z) :
  parseEntries (map Js.numToString ns) = Some (map NumberEntry ns).
Proof.
  induction ns as [|n ns IH]; simpl; [reflexivity|].
  now rewrite parseEntry_number, IH.
Qed.

Lemma parseEntries_dice (fs : list Z) :
  parseEntries (map dieTerm fs) = Some (map (DiceEntry 1) fs).
Proof.
  induction fs as [|f fs IH]; simpl; [reflexivity|].
  now rewrite parseEntry_die, IH.
Qed.

Lemma parseModifier_cs (tni : Z) :
  parseModifier ("cs>" ++ Js.numToString tni) = Some (CountSuccesses tni).
Proof. simpl. now rewrite parseInteger_numToString. Qed.

Lemma join_no_brace (pieces : list string) :
  Forall clean pieces -> Js.has_char "}" (Js.join "," pieces) = false.
Proof.
  induction 1 as [|p rest [_ Hp] Hrest IH]; [reflexivity|].
  destruct rest as [|q rest]; [exact Hp|].
  change (Js.join "," (p :: q :: rest))
    with (p ++ String "," (Js.join "," (q :: rest))).
  rewrite has_char_append, Hp. simpl. exact IH.
Qed.

(** The host reads a pool formula back into the pieces it was joined
    from. *)
Lemma parseFormula_pool (pieces : list string) (es : list Entry)
    (modifier : string) (m : Modifier) :
  pieces <> [] -> Forall clean pieces ->
  parseEntries pieces = Some es -> parseModifier modifier = Some m ->
  parseFormula ("{" ++ Js.join "," pieces ++ String "}" modifier)
  = Some (pieces, es, m).
Proof.
  intros Hne Hclean Hes Hm. simpl.
  rewrite cut_at_append by now apply join_no_brace.
  rewrite split_on_join; [now rewrite Hes, Hm | assumption |].
  eapply Forall_impl; [|exact Hclean]. now intros p [Hp _].
Qed.

Lemma evaluate_pool (pieces : list string) (es : list Entry)
    (modifier : string) (m : Modifier) (w : World) :
  pieces <> [] -> Forall clean pieces ->
  parseEntries pieces = Some es -> parseModifier modifier = Some m ->
  evaluate ("{" ++ Js.join "," pieces ++ String "}" modifier) w
  = (Returned
       {| Roll.formula := "{" ++ Js.join "," pieces ++ String "}" modifier;
          Roll.terms :=
            [ {| PoolTerm.terms := pieces;
                 PoolTerm.results :=
                   fst (fst (evaluateEntries es (entropy w))) |} ];
          Roll.dice := snd (fst (evaluateEntries es (entropy w)));
          Roll.total :=
            applyModifier m (fst (fst (evaluateEntries es (entropy w)))) |},
     {| entropy := snd (evaluateEntries es (entropy w));
        chatLog := chatLog w |}).
Proof.
  intros Hne Hclean Hes Hm. unfold evaluate.
  rewrite (parseFormula_pool pieces es modifier m) by assumption.
  now destruct (evaluateEntries es (entropy w)) as [[results dice] rest].
Qed.

Lemma evaluateEntries_dice (fs : list Z) (e : list Z) :
  evaluateEntries (map (DiceEntry 1) fs) e
  = (faces fs e, faces fs e, drawsLeft fs e).
Proof.
  revert e. induction fs as [|f fs IH]; intros e; [reflexivity|].
  simpl. destruct (rollDie f e) as [face e1]. simpl.
  rewrite IH. now rewrite Z.add_0_r.
Qed.

Lemma Forall_clean_terms (d12 d10 d8 d6 d4 : Z) :
  Forall clean (terms d12 d10 d8 d6 d4).
Proof.
  unfold terms. apply Forall_forall. intros t Ht.
  apply in_map_iff in Ht as [f [<- _]]. apply dieTerm_clean.
Qed.

Lemma parseEntry_nonempty (piece : string) (e : Entry) :
  parseEntry piece = Some e -> piece <> EmptyString.
Proof. intros H E. subst piece. discriminate. Qed.

Lemma parseEntries_nonempty (pieces : list string) (es : list Entry) :
  parseEntries pieces = Some es ->
  Forall (fun p => p <> EmptyString) pieces.
Proof.
  revert es. induction pieces as [|p rest IH]; intros es H; [constructor|].
  simpl in H. destruct (parseEntry p) eqn:Ep; [|discriminate].
  destruct (parseEntries rest) eqn:Er; [|discriminate].
  constructor; [eapply parseEntry_nonempty; eauto | eapply IH; eauto].
Qed.

Lemma join_length_nonzero (pieces : list string) (es : list Entry) :
  pieces <> [] -> parseEntries pieces = Some es ->
  (String.length (Js.join "," pieces) =? 0)%nat = false.
Proof.
  intros Hne Hes. apply Nat.eqb_neq. intros E.
  apply (join_nonempty "," pieces Hne).
  - eapply parseEntries_nonempty; eauto.
  - now destruct (Js.join "," pieces).
Qed.

(** ** The loop over the results *)

Lemma scanResults_from (tni : Z) (rs : list Z) (h t : Z) (o : bool) :
  fold_left (scanStep tni) rs (h, t, o)
  = (fold_left Z.max rs h, t + equal tni rs,
     o || existsb (fun x => x =? 1) rs).
Proof.
  revert h t o. induction rs as [|x rs IH]; intros h t o.
  - simpl. unfold equal. simpl. now rewrite Z.add_0_r, orb_false_r.
  - simpl fold_left. rewrite IH. f_equal; [f_equal|].
    + f_equal. destruct (Z.ltb_spec h x); lia.
    + unfold equal. simpl. destruct (x =? tni); simpl List.length; lia.
    + simpl. now destruct (x =? 1), o.
Qed.

Lemma scanResults_spec (tni : Z) (rs : list Z) :
  scanResults tni rs
  = (highestOf rs, equal tni rs, existsb (fun x => x =? 1) rs).
Proof. unfold scanResults. now rewrite scanResults_from. Qed.

(** ** What the rollers come back with *)

Section Runs.

Variable info : CommonSystemInfo.
Variable i18n : I18n.
Variable Actor : Type.
Variable getMacroSpeaker : option Actor -> Speaker.

Lemma rollTargetNumber_run (tni d12 d10 d8 d6 d4 : Z) (label : string)
    (rollingactor : option Actor) (sendinchat : bool) (w : World) :
  nonEmpty d12 d10 d8 d6 d4 ->
  let rs := faces (sizes d12 d10 d8 d6 d4) (entropy w) in
  let r :=
    poolRoll ("{" ++ formRoll d12 d10 d8 d6 d4 ++ "}cs>"
              ++ Js.numToString tni)
      (terms d12 d10 d8 d6 d4) rs rs (above tni rs) in
  let msg :=
    rollMessage (getMacroSpeaker rollingactor)
      (flavorStringTN info i18n (above tni rs) (equal tni rs)
         (highestOf rs =? 1) label)
      "TN" label true rs r in
  rollTargetNumber info i18n Actor getMacroSpeaker tni d12 d10 d8 d6 d4
    label rollingactor sendinchat w
  = (Returned
       (Some {| roll := r; highest := highestOf rs;
                tnData := Some {| successes := above tni rs;
                                  ties := equal tni rs |};
                message := msg; isSent := sendinchat |}),
     after w (drawsLeft (sizes d12 d10 d8 d6 d4) (entropy w)) msg
       sendinchat).
Proof.
  intros Hne rs r msg. unfold rollTargetNumber.
  pose proof (terms_nonempty _ _ _ _ _ Hne) as Hterms.
  assert (Hlen : (String.length (formRoll d12 d10 d8 d6 d4) =? 0)%nat
                 = false).
  { rewrite formRoll_join. apply Nat.eqb_neq. intros E.
    apply (join_nonempty "," (terms d12 d10 d8 d6 d4) Hterms).
    - apply Forall_forall. intros t Ht. unfold terms in Ht.
      apply in_map_iff in Ht as [f [<- _]]. discriminate.
    - now destruct (Js.join "," (terms d12 d10 d8 d6 d4)). }
  rewrite Hlen. unfold bind.
  subst r msg rs. rewrite !formRoll_join.
  change ("{" ++ Js.join "," (terms d12 d10 d8 d6 d4) ++ "}cs>"
          ++ Js.numToString tni)
    with ("{" ++ Js.join "," (terms d12 d10 d8 d6 d4)
          ++ String "}" ("cs>" ++ Js.numToString tni)).
  rewrite (evaluate_pool _ (map (DiceEntry 1) (sizes d12 d10 d8 d6 d4))
             _ (CountSuccesses tni));
    [ | assumption | apply Forall_clean_terms | apply parseEntries_dice
      | apply parseModifier_cs ].
  rewrite evaluateEntries_dice. simpl fst. simpl snd.
  unfold firstTerm. simpl Roll.terms. cbv iota. simpl PoolTerm.results.
  rewrite scanResults_spec.
  unfold toMessage, ret, after, rollMessage, poolRoll. simpl.
  now destruct sendinchat.
Qed.

Lemma rollHighest_run (d12 d10 d8 d6 d4 : Z) (label : string)
    (rollingactor : option Actor) (sendinchat : bool) (w : World) :
  nonEmpty d12 d10 d8 d6 d4 ->
  let rs := faces (sizes d12 d10 d8 d6 d4) (entropy w) in
  let r :=
    poolRoll ("{" ++ formRoll d12 d10 d8 d6 d4 ++ "}kh1")
      (terms d12 d10 d8 d6 d4) rs rs (keepHighest rs) in
  let msg :=
    rollMessage (getMacroSpeaker rollingactor)
      (flavorStringHighest info i18n (keepHighest rs) label)
      "HIGH" label true rs r in
  rollHighest info i18n Actor getMacroSpeaker d12 d10 d8 d6 d4
    label rollingactor sendinchat w
  = (Returned
       (Some {| roll := r; highest := keepHighest rs; tnData := None;
                message := msg; isSent := sendinchat |}),
     after w (drawsLeft (sizes d12 d10 d8 d6 d4) (entropy w)) msg
       sendinchat).
Proof.
  intros Hne rs r msg. unfold rollHighest.
  pose proof (terms_nonempty _ _ _ _ _ Hne) as Hterms.
  rewrite formRoll_join.
  rewrite (join_length_nonzero _ (map (DiceEntry 1) (sizes d12 d10 d8 d6 d4))
             Hterms (parseEntries_dice _)).
  unfold bind. subst r msg rs. rewrite !formRoll_join.
  change ("{" ++ Js.join "," (terms d12 d10 d8 d6 d4) ++ "}kh1")
    with ("{" ++ Js.join "," (terms d12 d10 d8 d6 d4) ++ String "}" "kh1").
  rewrite (evaluate_pool _ (map (DiceEntry 1) (sizes d12 d10 d8 d6 d4))
             _ KeepHighest);
    [ | assumption | apply Forall_clean_terms | apply parseEntries_dice
      | reflexivity ].
  rewrite evaluateEntries_dice. cbn [fst snd].
  unfold firstTerm. cbn [Roll.terms PoolTerm.results].
  unfold toMessage, ret, after, rollMessage, poolRoll, someOne.
  cbn [applyModifier entropy chatLog]. now destruct sendinchat.
Qed.

Lemma flavorStringTN_cases (successes ties : Z) (botched : bool)
    (label : string) :
  flavorStringTN info i18n successes ties botched label
  = if 0 <? successes then successString info i18n label successes
    else if botched then botchString info i18n label
    else if 0 <? ties then tieString info i18n label ties
    else failureString info i18n label.
Proof. reflexivity. Qed.

End Runs.

(** ** Faces of dice *)

Lemma rollDie_range (f : Z) (e : list Z) :
  0 < f -> 1 <= fst (rollDie f e) <= f.
Proof.
  intros Hf. destruct e as [|r e]; unfold rollDie; cbn [fst]; [lia|].
  pose proof (Z.mod_pos_bound r f Hf). lia.
Qed.

Lemma sizes_positive (d12 d10 d8 d6 d4 : Z) :
  Forall (fun f => 0 < f) (sizes d12 d10 d8 d6 d4).
Proof.
  unfold sizes. rewrite !Forall_app.
  repeat split; apply Forall_forall; intros f Hf;
    apply repeat_spec in Hf; lia.
Qed.

Lemma faces_length (fs : list Z) (e : list Z) :
  List.length (faces fs e) = List.length fs.
Proof.
  revert e. induction fs as [|f fs IH]; intros e; simpl; [reflexivity|].
  now rewrite IH.
Qed.

Lemma faces_at_least_one (fs : list Z) (e : list Z) :
  Forall (fun f => 0 < f) fs -> Forall (fun x => 1 <= x) (faces fs e).
Proof.
  intros H. revert e. induction H as [|f fs Hf Hfs IH]; intros e; simpl.
  - constructor.
  - constructor; [apply (rollDie_range f e Hf) | apply IH].
Qed.

Lemma fold_max_ge (rs : list Z) (h : Z) : h <= fold_left Z.max rs h.
Proof.
  revert h. induction rs as [|x rs IH]; intros h; simpl; [lia|].
  specialize (IH (Z.max h x)). lia.
Qed.

Lemma fold_max_le (rs : list Z) (h b : Z) :
  h <= b -> Forall (fun x => x <= b) rs -> fold_left Z.max rs h <= b.
Proof.
  intros Hh H. revert h Hh. induction H as [|x rs Hx Hrs IH]; intros h Hh.
  - exact Hh.
  - simpl. apply IH. lia.
Qed.

Lemma fold_max_bound (rs : list Z) (h : Z) :
  Forall (fun x => x <= fold_left Z.max rs h) rs.
Proof.
  revert h. induction rs as [|x rs IH]; intros h; simpl; constructor.
  - pose proof (fold_max_ge rs (Z.max h x)). lia.
  - apply IH.
Qed.

(** With every face at least one, the highest face is one exactly when
    every die shows a one. *)
Lemma highest_one_iff (rs : list Z) :
  rs <> [] -> Forall (fun x => 1 <= x) rs ->
  (highestOf rs =? 1) = true <-> Forall (fun x => x = 1) rs.
Proof.
  intros Hne Hge. unfold highestOf. rewrite Z.eqb_eq. split.
  - intros E. pose proof (fold_max_bound rs 0) as Hb. rewrite E in Hb.
    rewrite Forall_forall in *. intros x Hx.
    specialize (Hb x Hx). specialize (Hge x Hx). simpl in *. lia.
  - intros Hall. apply Z.le_antisymm.
    + apply fold_max_le; [lia|].
      eapply Forall_impl; [|exact Hall]. simpl. intros; lia.
    + destruct rs as [|x rs]; [easy|].
      change (fold_left Z.max (x :: rs) 0)
        with (fold_left Z.max rs (Z.max 0 x)).
      pose proof (Forall_inv Hall) as Hx. simpl in Hx.
      pose proof (fold_max_ge rs (Z.max 0 x)). lia.
Qed.

Lemma above_equal_atLeast (tni : Z) (rs : list Z) :
  above tni rs + equal tni rs = atLeast tni rs.
Proof.
  unfold above, equal, atLeast. induction rs as [|x rs IH]; [reflexivity|].
  simpl. destruct (Z.ltb_spec tni x), (Z.eqb_spec x tni),
    (Z.leb_spec tni x); simpl List.length; lia.
Qed.

(** ** The copied formulas *)

Lemma cut_trailed (pieces : list string) :
  (if (0 <? String.length (Js.trailed "," pieces))%nat
   then Js.slice_drop_last (Js.trailed "," pieces)
   else Js.trailed "," pieces)
  = Js.join "," pieces.
Proof.
  destruct pieces as [|p rest]; [reflexivity|].
  assert (Hne : p :: rest <> []) by easy.
  assert (Hlen : (0 < String.length (Js.trailed "," (p :: rest)))%nat)
    by (apply trailed_length_pos; easy).
  apply Nat.ltb_lt in Hlen. rewrite Hlen. now apply slice_trailed.
Qed.

Lemma copy_fold (rs : list Z) (formula : string) :
  fold_left copyStep rs formula
  = formula ++ Js.trailed "," (map Js.numToString rs).
Proof.
  revert formula. induction rs as [|x rs IH]; intros formula; simpl.
  - now rewrite append_nil_r.
  - rewrite IH. unfold copyStep. now rewrite !append_assoc.
Qed.

Lemma copyDicePoolResult_formula (r : Roll.t) (p : PoolTerm.t)
    (more : list PoolTerm.t) (w : World) :
  Roll.terms r = p :: more ->
  copyDicePoolResult r w
  = (Returned (Js.join "," (map Js.numToString (PoolTerm.results p))), w).
Proof.
  intros E. unfold copyDicePoolResult, firstTerm, bind, ret.
  rewrite E. simpl. rewrite copy_fold. simpl append.
  now rewrite cut_trailed.
Qed.

Lemma reroll_fold (terms : list string) (rs : list Z) (i : nat)
    (onefound : bool) (formula : string) :
  snd (fold_left (rerollStep terms) rs (i, onefound, formula))
  = formula ++ Js.trailed "," (rerollPieces terms i onefound rs).
Proof.
  revert i onefound formula.
  induction rs as [|x rs IH]; intros i onefound formula; simpl.
  - now rewrite append_nil_r.
  - destruct (negb onefound && (x =? 1)); rewrite IH;
      now rewrite !append_assoc.
Qed.

Lemma copyRerollHighestOne_formula (r : Roll.t) (p : PoolTerm.t)
    (more : list PoolTerm.t) (w : World) :
  Roll.terms r = p :: more ->
  copyRerollHighestOne r w
  = (Returned
       (Js.join ","
          (rerollPieces (PoolTerm.terms p) 0 false (PoolTerm.results p))),
     w).
Proof.
  intros E. unfold copyRerollHighestOne, firstTerm, bind, ret.
  rewrite E. simpl.
  pose proof (reroll_fold (PoolTerm.terms p) (PoolTerm.results p) 0 false
                EmptyString) as H.
  destruct (fold_left (rerollStep (PoolTerm.terms p)) (PoolTerm.results p)
              (0%nat, false, EmptyString)) as [[i found] formula].
  simpl in H. subst formula. now rewrite cut_trailed.
Qed.

Lemma rerollPieces_found (terms : list string) (i : nat) (rs : list Z) :
  rerollPieces terms i true rs = map Js.numToString rs.
Proof.
  revert i. induction rs as [|x rs IH]; intros i; simpl; [reflexivity|].
  now rewrite IH.
Qed.

(** The pieces are the printed results, but for the first result that
    shows a one, which gives way to the term at its position. *)
Lemma rerollPieces_first (terms : list string) (i : nat) (rs : list Z) :
  rerollPieces terms i false rs
  = match firstOne rs with
    | None => map Js.numToString rs
    | Some k =>
        replaceAt k (nth (i + k) terms "undefined") (map Js.numToString rs)
    end.
Proof.
  revert i. induction rs as [|x rs IH]; intros i; simpl; [reflexivity|].
  destruct (x =? 1); simpl.
  - rewrite rerollPieces_found. unfold replaceAt. simpl.
    now rewrite Nat.add_0_r.
  - rewrite IH. destruct (firstOne rs) as [k|]; simpl; [|reflexivity].
    unfold replaceAt. simpl. now rewrite Nat.add_succ_r.
Qed.

Lemma firstOne_none (rs : list Z) :
  firstOne rs = None <-> Forall (fun x => x <> 1) rs.
Proof.
  induction rs as [|x rs IH]; simpl.
  - split; [constructor | reflexivity].
  - destruct (Z.eqb_spec x 1) as [E|E].
    + split; [discriminate|]. intros H. now inversion H.
    + destruct (firstOne rs); simpl.
      * split; [discriminate|]. intros H. inversion H; subst.
        now apply IH in H3.
      * split; [|reflexivity]. intros _. constructor; [exact E|].
        now apply IH.
Qed.

(** The first one sits at position [k]: no result before it is a one. *)
Lemma firstOne_some (rs : list Z) (k : nat) :
  firstOne rs = Some k ->
  (k < List.length rs)%nat /\ nth k rs 0 = 1
  /\ Forall (fun x => x <> 1) (firstn k rs).
Proof.
  revert k. induction rs as [|x rs IH]; intros k; simpl; [discriminate|].
  destruct (Z.eqb_spec x 1) as [E|E].
  - intros [= <-]. simpl. repeat split; [lia | exact E | constructor].
  - destruct (firstOne rs) as [j|]; simpl; [|discriminate].
    intros [= <-]. destruct (IH j eq_refl) as [Hlt [Hn Hall]].
    simpl. repeat split; [lia | exact Hn | now constructor].
Qed.

(** ** Evaluating a copied formula *)

Lemma evaluateEntries_app (es1 es2 : list Entry) (e : list Z) :
  evaluateEntries (es1 ++ es2) e
  = let '(r1, d1, e1) := evaluateEntries es1 e in
    let '(r2, d2, e2) := evaluateEntries es2 e1 in
    ((r1 ++ r2)%list, (d1 ++ d2)%list, e2).
Proof.
  revert e. induction es1 as [|entry es1 IH]; intros e.
  - simpl. now destruct (evaluateEntries es2 e) as [[r2 d2] e2].
  - destruct entry as [count fs|n]; simpl.
    + destruct (rollDice (Z.to_nat count) fs e) as [value e1].
      rewrite IH. destruct (evaluateEntries es1 e1) as [[r1 d1] e1'].
      now destruct (evaluateEntries es2 e1') as [[r2 d2] e2].
    + rewrite IH. destruct (evaluateEntries es1 e) as [[r1 d1] e1].
      now destruct (evaluateEntries es2 e1) as [[r2 d2] e2].
Qed.

Lemma evaluateEntries_numbers (ns : list Z) (e : list Z) :
  evaluateEntries (map NumberEntry ns) e = (ns, [], e).
Proof.
  induction ns as [|n ns IH]; simpl; [reflexivity|]. now rewrite IH.
Qed.

(** A copy with one die put back: the numbers stay, the die is rolled on
    the next draw. *)
Lemma evaluateEntries_replaced (k : nat) (f : Z) (rs : list Z) (e : list Z) :
  evaluateEntries (replaceAt k (DiceEntry 1 f) (map NumberEntry rs)) e
  = (replaceAt k (fst (rollDie f e)) rs, [fst (rollDie f e)],
     snd (rollDie f e)).
Proof.
  unfold replaceAt. rewrite firstn_map, skipn_map, evaluateEntries_app.
  rewrite evaluateEntries_numbers. simpl.
  destruct (rollDie f e) as [face e1]. simpl.
  now rewrite evaluateEntries_numbers, Z.add_0_r.
Qed.

Lemma parseEntries_replaced (k : nat) (f : Z) (rs : list Z) :
  parseEntries (replaceAt k (dieTerm f) (map Js.numToString rs))
  = Some (replaceAt k (DiceEntry 1 f) (map NumberEntry rs)).
Proof.
  unfold replaceAt. rewrite !firstn_map, !skipn_map.
  apply parseEntries_app; [apply parseEntries_numbers|].
  simpl. now rewrite parseEntry_die, parseEntries_numbers.
Qed.

Lemma Forall_clean_numbers (rs : list Z) :
  Forall clean (map Js.numToString rs).
Proof.
  apply Forall_forall. intros t Ht.
  apply in_map_iff in Ht as [x [<- _]]. apply numToString_clean.
Qed.

Lemma Forall_pieces {A : Type} (P : A -> Prop) (n : nat) (l : list A) :
  Forall P l -> Forall P (firstn n l) /\ Forall P (skipn n l).
Proof.
  intros H. rewrite <- (firstn_skipn n l) in H.
  now apply Forall_app in H.
Qed.

Lemma Forall_clean_replaced (k : nat) (f : Z) (rs : list Z) :
  Forall clean (replaceAt k (dieTerm f) (map Js.numToString rs)).
Proof.
  unfold replaceAt. apply Forall_app. split.
  - apply Forall_pieces, Forall_clean_numbers.
  - constructor; [apply dieTerm_clean|].
    apply Forall_pieces, Forall_clean_numbers.
Qed.

Section Copies.

Variable info : CommonSystemInfo.
Variable i18n : I18n.

Lemma copyToRollTN_results (tni : Z) (prior : ChatMessage)
    (p : PoolTerm.t) (more : list PoolTerm.t) (label : string)
    (sendinchat rerollone : bool) (w : World) (es : list Entry) :
  isRollMessage prior = true ->
  Foundry.label (flags prior) = Some label ->
  Roll.terms (Foundry.roll prior) = p :: more ->
  copiedPieces rerollone p <> [] ->
  Forall clean (copiedPieces rerollone p) ->
  parseEntries (copiedPieces rerollone p) = Some es ->
  exists r w',
    copyToRollTN info i18n tni (Some prior) sendinchat rerollone w
    = (Returned (Some r), w')
    /\ results (roll r) = fst (fst (evaluateEntries es (entropy w)))
    /\ entropy w' = snd (evaluateEntries es (entropy w)).
Proof.
  intros Hroll Hlabel Hterms Hne Hclean Hes.
  unfold copyToRollTN. rewrite Hroll. cbn [negb].
  unfold bind at 1. unfold copiedPieces in Hne, Hclean, Hes.
  destruct rerollone;
    [ rewrite (copyRerollHighestOne_formula _ p more w Hterms)
    | rewrite (copyDicePoolResult_formula _ p more w Hterms) ];
    rewrite (join_length_nonzero _ es Hne Hes), Hlabel;
    unfold bind;
    match goal with
    | |- context [evaluate ("{" ++ Js.join "," ?pieces ++ "}cs>" ++ ?n)] =>
        change ("{" ++ Js.join "," pieces ++ "}cs>" ++ n)
          with ("{" ++ Js.join "," pieces ++ String "}" ("cs>" ++ n))
    end;
    (rewrite (evaluate_pool _ es _ (CountSuccesses tni));
     [ | assumption | assumption | assumption | apply parseModifier_cs ]);
    unfold firstTerm; cbn [Roll.terms PoolTerm.results];
    destruct (scanResults tni (fst (fst (evaluateEntries es (entropy w)))))
      as [[highest ties] hasOne];
    unfold toMessage, ret; eexists; eexists; (split; [reflexivity|]);
    (split; [reflexivity|]); now destruct sendinchat.
Qed.

Lemma copyToRollHighest_results (prior : ChatMessage)
    (p : PoolTerm.t) (more : list PoolTerm.t) (label : string)
    (sendinchat rerollone : bool) (w : World) (es : list Entry) :
  isRollMessage prior = true ->
  Foundry.label (flags prior) = Some label ->
  Roll.terms (Foundry.roll prior) = p :: more ->
  copiedPieces rerollone p <> [] ->
  Forall clean (copiedPieces rerollone p) ->
  parseEntries (copiedPieces rerollone p) = Some es ->
  exists r w',
    copyToRollHighest info i18n (Some prior) sendinchat rerollone w
    = (Returned (Some r), w')
    /\ results (roll r) = fst (fst (evaluateEntries es (entropy w)))
    /\ entropy w' = snd (evaluateEntries es (entropy w)).
Proof.
  intros Hroll Hlabel Hterms Hne Hclean Hes.
  unfold copyToRollHighest. rewrite Hroll. cbn [negb].
  unfold bind at 1. unfold copiedPieces in Hne, Hclean, Hes.
  destruct rerollone;
    [ rewrite (copyRerollHighestOne_formula _ p more w Hterms)
    | rewrite (copyDicePoolResult_formula _ p more w Hterms) ];
    rewrite (join_length_nonzero _ es Hne Hes), Hlabel;
    unfold bind;
    match goal with
    | |- context [evaluate ("{" ++ Js.join "," ?pieces ++ "}kh1")] =>
        change ("{" ++ Js.join "," pieces ++ "}kh1")
          with ("{" ++ Js.join "," pieces ++ String "}" "kh1")
    end;
    (rewrite (evaluate_pool _ es _ KeepHighest);
     [ | assumption | assumption | assumption | reflexivity ]);
    unfold firstTerm; cbn [Roll.terms PoolTerm.results];
    unfold toMessage, ret; eexists; eexists; (split; [reflexivity|]);
    (split; [reflexivity|]); now destruct sendinchat.
Qed.

End Copies.

End DiceFacts.

(* ================================================================== *)
(** * Properties of the dice rollers *)
(* ================================================================== *)

Module DiceProperties.
Import Foundry Dice Pool JsFacts DiceFacts.

(** C1, as amended.  For every pool that holds a die and every target
    number, [rollTargetNumber] comes back with a roll of one result per
    die, and its [successes] and [ties] are the numbers of results that are
    strictly greater than the target number and equal to it: a die is a
    success when its face is above the target, a tie when it is equal, and
    the two kinds together are the faces that are at least the target. *)
Theorem rollTargetNumber_counts (info : CommonSystemInfo) (i18n : I18n)
    (Actor : Type) (getMacroSpeaker : option Actor -> Speaker)
    (tni d12 d10 d8 d6 d4 : Z) (label : string)
    (rollingactor : option Actor) (sendinchat : bool) (w : World) :
  nonEmpty d12 d10 d8 d6 d4 ->
  exists r w',
    rollTargetNumber info i18n Actor getMacroSpeaker tni d12 d10 d8 d6 d4
      label rollingactor sendinchat w = (Returned (Some r), w')
    /\ List.length (results (roll r))
       = List.length (sizes d12 d10 d8 d6 d4)
    /\ tnData r
       = Some {| successes := above tni (results (roll r));
                 ties := equal tni (results (roll r)) |}
    /\ above tni (results (roll r)) + equal tni (results (roll r))
       = atLeast tni (results (roll r)).
Proof.
  intros Hne. eexists. eexists. split.
  - apply rollTargetNumber_run. exact Hne.
  - cbn [roll results poolRoll Roll.terms PoolTerm.results tnData].
    split; [apply faces_length|]. split; [reflexivity|].
    apply above_equal_atLeast.
Qed.

Lemma rollTargetNumber_counts_witness :
  nonEmpty 1 0 2 0 1
  /\ exists r w',
       rollTargetNumber Plain.info Plain.i18n string Plain.getMacroSpeaker
         3 1 0 2 0 1 "Dodge" None true (Plain.world [6; 1; 2; 3])
       = (Returned (Some r), w')
       /\ List.length (results (roll r)) = List.length (sizes 1 0 2 0 1)
       /\ tnData r
          = Some {| successes := above 3 (results (roll r));
                    ties := equal 3 (results (roll r)) |}
       /\ above 3 (results (roll r)) + equal 3 (results (roll r))
          = atLeast 3 (results (roll r)).
Proof.
  assert (H : nonEmpty 1 0 2 0 1) by (unfold nonEmpty; lia).
  split; [exact H|].
  exact (rollTargetNumber_counts Plain.info Plain.i18n string
           Plain.getMacroSpeaker 3 1 0 2 0 1 "Dodge" None true
           (Plain.world [6; 1; 2; 3]) H).
Defined.

(** C1 as stated fails: a d6 that shows 3 against target number 3 is a
    face that is at least the target, yet it is counted as a tie and not
    as a success. *)
Lemma rollTargetNumber_tie_not_success :
  let run :=
    rollTargetNumber Plain.info Plain.i18n string Plain.getMacroSpeaker
      3 0 0 0 1 0 EmptyString None false (Plain.world [2]) in
  option_map (fun r => results (roll r)) (returned run) = Some [3]
  /\ option_map tnData (returned run)
     = Some (Some {| successes := 0; ties := 1 |})
  /\ atLeast 3 [3] = 1.
Proof. vm_compute. repeat split. Qed.

(** C2, as amended.  The result paragraph of a target number roll is
    chosen in this order: a positive success count gives the success
    paragraph; otherwise a highest die of 1, which is when every die of the
    pool shows a one, gives the botch paragraph; otherwise a positive tie
    count gives the tie paragraph; otherwise the failure paragraph.  The
    [hasOne] flag, raised as soon as any die shows a one, takes no part in
    the choice. *)
Theorem rollTargetNumber_classification (info : CommonSystemInfo)
    (i18n : I18n) (Actor : Type) (getMacroSpeaker : option Actor -> Speaker)
    (tni d12 d10 d8 d6 d4 : Z) (label : string)
    (rollingactor : option Actor) (sendinchat : bool) (w : World) :
  nonEmpty d12 d10 d8 d6 d4 ->
  exists r w',
    rollTargetNumber info i18n Actor getMacroSpeaker tni d12 d10 d8 d6 d4
      label rollingactor sendinchat w = (Returned (Some r), w')
    /\ flavor (message r)
       = (if 0 <? above tni (results (roll r))
          then successString info i18n label (above tni (results (roll r)))
          else if highestOf (results (roll r)) =? 1
          then botchString info i18n label
          else if 0 <? equal tni (results (roll r))
          then tieString info i18n label (equal tni (results (roll r)))
          else failureString info i18n label)
    /\ ((highestOf (results (roll r)) =? 1) = true
        <-> Forall (fun x => x = 1) (results (roll r)))
    /\ hasOne (flags (message r))
       = existsb (fun x => x =? 1) (results (roll r)).
Proof.
  intros Hne. eexists. eexists. split.
  - apply rollTargetNumber_run. exact Hne.
  - cbn [roll results poolRoll Roll.terms PoolTerm.results message
         rollMessage flavor flags hasOne].
    split; [apply flavorStringTN_cases|]. split; [|reflexivity].
    apply highest_one_iff.
    + intros E. apply (f_equal (@List.length Z)) in E.
      rewrite faces_length in E.
      apply (sizes_nonempty _ _ _ _ _ Hne).
      now apply length_zero_iff_nil.
    + apply faces_at_least_one, sizes_positive.
Qed.

Lemma rollTargetNumber_classification_witness :
  nonEmpty 0 0 0 2 0
  /\ exists r w',
       rollTargetNumber Plain.info Plain.i18n string Plain.getMacroSpeaker
         3 0 0 0 2 0 "Climb" None true (Plain.world [0; 0])
       = (Returned (Some r), w')
       /\ flavor (message r)
          = (if 0 <? above 3 (results (roll r))
             then successString Plain.info Plain.i18n "Climb"
                    (above 3 (results (roll r)))
             else if highestOf (results (roll r)) =? 1
             then botchString Plain.info Plain.i18n "Climb"
             else if 0 <? equal 3 (results (roll r))
             then tieString Plain.info Plain.i18n "Climb"
                    (equal 3 (results (roll r)))
             else failureString Plain.info Plain.i18n "Climb")
       /\ ((highestOf (results (roll r)) =? 1) = true
           <-> Forall (fun x => x = 1) (results (roll r)))
       /\ hasOne (flags (message r))
          = existsb (fun x => x =? 1) (results (roll r)).
Proof.
  assert (H : nonEmpty 0 0 0 2 0) by (unfold nonEmpty; lia).
  split; [exact H|].
  exact (rollTargetNumber_classification Plain.info Plain.i18n string
           Plain.getMacroSpeaker 3 0 0 0 2 0 "Climb" None true
           (Plain.world [0; 0]) H).
Defined.

(** C2 as stated fails: two d6 showing 1 and 2 against target number 3
    score no success and one of them shows a one, yet the roll is
    classified as a failure, not as a botch. *)
Lemma rollTargetNumber_one_without_botch :
  let run :=
    rollTargetNumber Plain.info Plain.i18n string Plain.getMacroSpeaker
      3 0 0 0 2 0 EmptyString None false (Plain.world [0; 1]) in
  option_map (fun r => results (roll r)) (returned run) = Some [1; 2]
  /\ option_map tnData (returned run)
     = Some (Some {| successes := 0; ties := 0 |})
  /\ option_map (fun r => hasOne (flags (message r))) (returned run)
     = Some true
  /\ option_map (fun r => flavor (message r)) (returned run)
     = Some (failureString Plain.info Plain.i18n EmptyString)
  /\ failureString Plain.info Plain.i18n EmptyString
     <> botchString Plain.info Plain.i18n EmptyString.
Proof. vm_compute. repeat split. discriminate. Qed.

(** One d6 against target number 3: a 4 is one success, a 3 is one tie,
    and a 1, the only die of the pool, is a botch. *)
Example single_d6_against_three :
  let run := fun draw =>
    returned
      (rollTargetNumber Plain.info Plain.i18n string Plain.getMacroSpeaker
         3 0 0 0 1 0 EmptyString None false (Plain.world [draw])) in
  option_map tnData (run 3) = Some (Some {| successes := 1; ties := 0 |})
  /\ option_map tnData (run 2) = Some (Some {| successes := 0; ties := 1 |})
  /\ option_map (fun r => (results (roll r), flavor (message r))) (run 0)
     = Some ([1], botchString Plain.info Plain.i18n EmptyString).
Proof. vm_compute. repeat split. Qed.

(** C9.  With all five die counts at zero, [rollTargetNumber] and
    [rollHighest] come back with null: no formula is evaluated, no draw is
    taken from the randomness source and no message is written. *)
Theorem empty_pool_no_roll (info : CommonSystemInfo) (i18n : I18n)
    (Actor : Type) (getMacroSpeaker : option Actor -> Speaker)
    (tni : Z) (label : string) (rollingactor : option Actor)
    (sendinchat : bool) (w : World) :
  formRoll 0 0 0 0 0 = EmptyString
  /\ rollTargetNumber info i18n Actor getMacroSpeaker tni 0 0 0 0 0 label
       rollingactor sendinchat w = (Returned None, w)
  /\ rollHighest info i18n Actor getMacroSpeaker 0 0 0 0 0 label
       rollingactor sendinchat w = (Returned None, w).
Proof. repeat split. Qed.

Lemma sorted_repeat_app (a : Z) (n : nat) (l : list Z) :
  StronglySorted Z.ge l -> Forall (Z.ge a) l ->
  StronglySorted Z.ge (repeat a n ++ l)
  /\ forall b, b >= a -> Forall (Z.ge b) (repeat a n ++ l).
Proof.
  intros Hs Hall. induction n as [|n [IHs IHall]]; simpl.
  - split; [exact Hs|]. intros b Hb.
    eapply Forall_impl; [|exact Hall]. simpl. intros; lia.
  - split.
    + constructor; [exact IHs | apply IHall; lia].
    + intros b Hb. constructor; [lia | now apply IHall].
Qed.

Lemma sizes_sorted (d12 d10 d8 d6 d4 : Z) :
  StronglySorted Z.ge (sizes d12 d10 d8 d6 d4).
Proof.
  unfold sizes.
  assert (H4 : StronglySorted Z.ge (repeat 4 (Z.to_nat d4) ++ [])
               /\ forall b, b >= 4 ->
                    Forall (Z.ge b) (repeat 4 (Z.to_nat d4) ++ []))
    by (apply sorted_repeat_app; constructor).
  rewrite app_nil_r in H4. destruct H4 as [S4 A4].
  destruct (sorted_repeat_app 6 (Z.to_nat d6) _ S4 (A4 6 ltac:(lia)))
    as [S6 A6].
  destruct (sorted_repeat_app 8 (Z.to_nat d8) _ S6 (A6 8 ltac:(lia)))
    as [S8 A8].
  destruct (sorted_repeat_app 10 (Z.to_nat d10) _ S8 (A8 10 ltac:(lia)))
    as [S10 A10].
  now destruct (sorted_repeat_app 12 (Z.to_nat d12) _ S10
                  (A10 12 ltac:(lia))).
Qed.

Lemma faces_in_range (fs : list Z) (e : list Z) :
  Forall (fun f => 0 < f) fs ->
  Forall2 (fun f x => 1 <= x <= f) fs (faces fs e).
Proof.
  intros H. revert e. induction H as [|f fs Hf Hfs IH]; intros e; simpl.
  - constructor.
  - constructor; [apply (rollDie_range f e Hf) | apply IH].
Qed.

Lemma nonEmpty_dec (d12 d10 d8 d6 d4 : Z) :
  {nonEmpty d12 d10 d8 d6 d4} + {~ nonEmpty d12 d10 d8 d6 d4}.
Proof.
  unfold nonEmpty.
  destruct (Z_lt_dec 0 d12), (Z_lt_dec 0 d10), (Z_lt_dec 0 d8),
    (Z_lt_dec 0 d6), (Z_lt_dec 0 d4); (left; lia) || (right; lia).
Qed.

(** C10.  For every combination of die counts, [formRoll] writes the dice
    in one order: the d12s, then the d10s, the d8s, the d6s and the d4s;
    the sizes never increase along the formula.  A roll made from it
    carries its terms and its results in that order, each result a face of
    the die at its position, so which die is the first to show a one
    depends on the sizes and the draws alone. *)
Theorem formRoll_descending_sizes (d12 d10 d8 d6 d4 : Z) :
  formRoll d12 d10 d8 d6 d4
  = Js.join ","
      (repeat "1d12" (Z.to_nat d12) ++ repeat "1d10" (Z.to_nat d10)
       ++ repeat "1d8" (Z.to_nat d8) ++ repeat "1d6" (Z.to_nat d6)
       ++ repeat "1d4" (Z.to_nat d4))%list
  /\ StronglySorted Z.ge (sizes d12 d10 d8 d6 d4)
  /\ forall (info : CommonSystemInfo) (i18n : I18n) (Actor : Type)
        (getMacroSpeaker : option Actor -> Speaker) (tni : Z)
        (label : string) (rollingactor : option Actor) (sendinchat : bool)
        (w : World) (r : DiceReturn) (w' : World),
      rollTargetNumber info i18n Actor getMacroSpeaker tni d12 d10 d8 d6 d4
        label rollingactor sendinchat w = (Returned (Some r), w')
      \/ rollHighest info i18n Actor getMacroSpeaker d12 d10 d8 d6 d4
           label rollingactor sendinchat w = (Returned (Some r), w') ->
      Roll.terms (roll r)
      = [ {| PoolTerm.terms := map dieTerm (sizes d12 d10 d8 d6 d4);
             PoolTerm.results := results (roll r) |} ]
      /\ Forall2 (fun f x => 1 <= x <= f)
            (sizes d12 d10 d8 d6 d4) (results (roll r)).
Proof.
  split; [|split].
  - rewrite formRoll_join. unfold terms, sizes.
    now rewrite !map_app, !map_repeat.
  - apply sizes_sorted.
  - intros info i18n Actor gms tni label actor send w r w' Hrun.
    destruct (nonEmpty_dec d12 d10 d8 d6 d4) as [Hne|Hempty].
    + destruct Hrun as [Hrun|Hrun].
      * rewrite (rollTargetNumber_run info i18n Actor gms tni d12 d10 d8 d6
                   d4 label actor send w Hne) in Hrun.
        injection Hrun as <- _.
        cbn [roll results poolRoll Roll.terms PoolTerm.results].
        split; [reflexivity|]. apply faces_in_range, sizes_positive.
      * rewrite (rollHighest_run info i18n Actor gms d12 d10 d8 d6
                   d4 label actor send w Hne) in Hrun.
        injection Hrun as <- _.
        cbn [roll results poolRoll Roll.terms PoolTerm.results].
        split; [reflexivity|]. apply faces_in_range, sizes_positive.
    + exfalso.
      assert (E : formRoll d12 d10 d8 d6 d4 = EmptyString).
      { rewrite formRoll_join. unfold terms.
        now rewrite (sizes_empty _ _ _ _ _ Hempty). }
      unfold rollTargetNumber, rollHighest in Hrun. rewrite E in Hrun.
      simpl in Hrun. unfold ret in Hrun.
      destruct Hrun as [Hrun|Hrun]; discriminate.
Qed.

Lemma formRoll_descending_sizes_witness :
  exists r w',
    rollHighest Plain.info Plain.i18n string Plain.getMacroSpeaker
      1 0 1 0 2 "Search" None true (Plain.world [4; 0; 7; 2])
    = (Returned (Some r), w')
    /\ Roll.terms (roll r)
       = [ {| PoolTerm.terms := ["1d12"; "1d8"; "1d4"; "1d4"];
              PoolTerm.results := [5; 1; 4; 3] |} ]
    /\ Forall2 (fun f x => 1 <= x <= f) (sizes 1 0 1 0 2) (results (roll r)).
Proof.
  eexists. eexists. split; [vm_compute; reflexivity|].
  split; [reflexivity|].
  refine (proj2 (proj2 (proj2 (formRoll_descending_sizes 1 0 1 0 2))
                   Plain.info Plain.i18n string Plain.getMacroSpeaker 0
                   "Search" None true (Plain.world [4; 0; 7; 2]) _ _ _)).
  right. vm_compute. reflexivity.
Defined.

(** C4, as amended.  For a prior roll of a pool of dice, the roll the
    reroll entry of
    the chat menu is offered on, the formula of [copyRerollHighestOne]
    holds the expression of the first die, from the left, whose result is
    a one, and the printed result of every other die.  Copied through
    [copyToRollTN] or [copyToRollHighest] with [rerollone] set, the new die
    sequence is the prior one with that die alone replaced by a face of a
    die of the same size, rolled on the next draw.  When no die shows a
    one the formula is the one [copyDicePoolResult] writes, and the die
    sequence is the prior one, as in a plain copy. *)
Theorem reroll_replaces_first_one (info : CommonSystemInfo) (i18n : I18n)
    (tni : Z) (prior : ChatMessage) (fs rs : list Z)
    (more : list PoolTerm.t) (label : string) (sendinchat : bool)
    (w : World) :
  isRollMessage prior = true ->
  Foundry.label (flags prior) = Some label ->
  Roll.terms (Foundry.roll prior)
  = {| PoolTerm.terms := map dieTerm fs; PoolTerm.results := rs |} :: more ->
  List.length rs = List.length fs ->
  rs <> [] ->
  let rerolled :=
    match firstOne rs with
    | Some k => replaceAt k (fst (rollDie (nth k fs 0) (entropy w))) rs
    | None => rs
    end in
  copyRerollHighestOne (Foundry.roll prior) w
  = (Returned
       (Js.join ","
          match firstOne rs with
          | Some k =>
              replaceAt k (dieTerm (nth k fs 0)) (map Js.numToString rs)
          | None => map Js.numToString rs
          end), w)
  /\ (exists r w',
        copyToRollTN info i18n tni (Some prior) sendinchat true w
        = (Returned (Some r), w')
        /\ results (roll r) = rerolled)
  /\ (exists r w',
        copyToRollHighest info i18n (Some prior) sendinchat true w
        = (Returned (Some r), w')
        /\ results (roll r) = rerolled)
  /\ (firstOne rs = None ->
      copyRerollHighestOne (Foundry.roll prior) w
      = copyDicePoolResult (Foundry.roll prior) w)
  /\ (exists r w',
        copyToRollTN info i18n tni (Some prior) sendinchat false w
        = (Returned (Some r), w')
        /\ results (roll r) = rs).
Proof.
  intros Hroll Hlabel Hterms Hlen Hne rerolled.
  set (p := {| PoolTerm.terms := map dieTerm fs; PoolTerm.results := rs |})
    in *.
  assert (Hpieces :
    copiedPieces true p
    = match firstOne rs with
      | Some k => replaceAt k (dieTerm (nth k fs 0)) (map Js.numToString rs)
      | None => map Js.numToString rs
      end).
  { unfold copiedPieces, p. cbn [PoolTerm.terms PoolTerm.results].
    rewrite rerollPieces_first.
    destruct (firstOne rs) as [k|] eqn:Ek; [|reflexivity].
    apply firstOne_some in Ek as [Hk _]. simpl Nat.add.
    rewrite (nth_indep _ "undefined" (dieTerm 0))
      by (rewrite length_map; lia).
    now rewrite map_nth. }
  assert (Hplain_ne : map Js.numToString rs <> [])
    by (destruct rs; [easy | discriminate]).
  assert (Hformula :
    copyRerollHighestOne (Foundry.roll prior) w
    = (Returned (Js.join "," (copiedPieces true p)), w))
    by (now apply copyRerollHighestOne_formula with (more := more)).
  assert (Hre : exists es,
    copiedPieces true p <> [] /\ Forall clean (copiedPieces true p)
    /\ parseEntries (copiedPieces true p) = Some es
    /\ fst (fst (evaluateEntries es (entropy w))) = rerolled).
  { rewrite Hpieces. subst rerolled.
    destruct (firstOne rs) as [k|].
    - exists (replaceAt k (DiceEntry 1 (nth k fs 0)) (map NumberEntry rs)).
      split; [unfold replaceAt; now destruct (firstn k _)|].
      split; [apply Forall_clean_replaced|].
      split; [apply parseEntries_replaced|].
      now rewrite evaluateEntries_replaced.
    - exists (map NumberEntry rs).
      split; [assumption|]. split; [apply Forall_clean_numbers|].
      split; [apply parseEntries_numbers|].
      now rewrite evaluateEntries_numbers. }
  destruct Hre as [es [Hne' [Hclean [Hes Heval]]]].
  split; [now rewrite Hformula, Hpieces|].
  split.
  { destruct (copyToRollTN_results info i18n tni prior p more label
                sendinchat true w es Hroll Hlabel Hterms Hne' Hclean Hes)
      as [r [w' [Hrun [Hres _]]]].
    exists r, w'. split; [exact Hrun | now rewrite Hres]. }
  split.
  { destruct (copyToRollHighest_results info i18n prior p more label
                sendinchat true w es Hroll Hlabel Hterms Hne' Hclean Hes)
      as [r [w' [Hrun [Hres _]]]].
    exists r, w'. split; [exact Hrun | now rewrite Hres]. }
  split.
  { intros Hnone. rewrite Hformula, Hpieces, Hnone.
    symmetry.
    exact (copyDicePoolResult_formula (Foundry.roll prior) p more w Hterms). }
  destruct (copyToRollTN_results info i18n tni prior p more label
              sendinchat false w (map NumberEntry rs) Hroll Hlabel Hterms
              Hplain_ne (Forall_clean_numbers rs) (parseEntries_numbers rs))
    as [r [w' [Hrun [Hres _]]]].
  exists r, w'. split; [exact Hrun|].
  now rewrite Hres, evaluateEntries_numbers.
Qed.

(** The sample message is the one [rollTargetNumber] sends. *)
Example dodge_rolled :
  option_map message
    (returned
       (rollTargetNumber Plain.info Plain.i18n string Plain.getMacroSpeaker
          3 1 0 1 0 1 "Dodge" None true (Plain.world [5; 0; 2])))
  = Some Plain.dodge.
Proof. vm_compute. reflexivity. Qed.

Lemma reroll_replaces_first_one_witness :
  rerollOneAllowed Plain.dodge = true
  /\ copyRerollHighestOne (Foundry.roll Plain.dodge) (Plain.world [4])
     = (Returned "6,1d8,3", Plain.world [4])
  /\ exists r w',
       copyToRollTN Plain.info Plain.i18n 3 (Some Plain.dodge) true true
         (Plain.world [4]) = (Returned (Some r), w')
       /\ results (roll r) = [6; 5; 3].
Proof.
  split; [reflexivity|].
  destruct (reroll_replaces_first_one Plain.info Plain.i18n 3 Plain.dodge
              [12; 8; 4] [6; 1; 3] [] "Dodge" true (Plain.world [4])
              eq_refl eq_refl eq_refl eq_refl ltac:(discriminate))
    as [Hformula [Htn _]].
  split; [exact Hformula | exact Htn].
Defined.

(** C4 as stated fails: not every prior roll has a die behind each
    result.  The pool of a copy is made of the printed results, so for the
    copy of the sample roll, which shows 6, 1 and 3, the entry at the first
    one is the literal 1: [copyRerollHighestOne] writes the formula of the
    plain copy, and the copying rollers with [rerollone] set come back with
    the one still in its place and the next draw not taken. *)
Lemma reroll_of_copy_rolls_nothing :
  match copyToRollTN Plain.info Plain.i18n 3 (Some Plain.dodge) true false
          (Plain.world [10]) with
  | (Returned (Some copy), w1) =>
      Roll.terms (Foundry.roll (message copy))
      = [ {| PoolTerm.terms := ["6"; "1"; "3"];
             PoolTerm.results := [6; 1; 3] |} ]
      /\ firstOne (results (Foundry.roll (message copy))) = Some 1%nat
      /\ entropy w1 = [10]
      /\ copyRerollHighestOne (Foundry.roll (message copy)) w1
         = (Returned "6,1,3", w1)
      /\ copyRerollHighestOne (Foundry.roll (message copy)) w1
         = copyDicePoolResult (Foundry.roll (message copy)) w1
      /\ match copyToRollTN Plain.info Plain.i18n 3 (Some (message copy))
                 true true w1 with
         | (Returned (Some r), w2) =>
             Roll.formula (roll r) = "{6,1,3}cs>3"
             /\ results (roll r) = [6; 1; 3]
             /\ entropy w2 = [10]
         | _ => False
         end
      /\ match copyToRollHighest Plain.info Plain.i18n (Some (message copy))
                 true true w1 with
         | (Returned (Some r), w2) =>
             results (roll r) = [6; 1; 3] /\ entropy w2 = [10]
         | _ => False
         end
  | _ => False
  end.
Proof. vm_compute. repeat split. Qed.

End DiceProperties.

(* ================================================================== *)
(** * Properties of the combat extension *)
(* ================================================================== *)

Module CombatProperties.
Import Foundry Combat.

(** ** Initiative groups *)

(** What the group of a classified combatant can be: 1 or 2 in the modes
    0 to 3 and in mode 5, and 1, 2 or 3 in mode 4. *)
Lemma getInitiativeGroup_range (c : Combatant) (s : Settings) (a : Actor)
    (t : Token) (mode : Z) :
  actor c = Some a -> token c = Some t ->
  Js.truthy (initType s) = true -> Js.parseInt (initType s) = Some mode ->
  0 <= mode <= 5 ->
  let g := getInitiativeGroup (Some c) (Some s) in
  (mode <> 4 -> g = 1 \/ g = 2) /\ (mode = 4 -> g = 1 \/ g = 2 \/ g = 3).
Proof.
  intros Ha Ht Htruthy Hmode Hrange g. subst g. unfold getInitiativeGroup.
  rewrite Ha, Ht, Htruthy, Hmode.
  assert (Hcases : mode = 0 \/ mode = 1 \/ mode = 2 \/ mode = 3
                   \/ mode = 4 \/ mode = 5) by lia.
  destruct Hcases as [-> | [-> | [-> | [-> | [-> | ->]]]]];
    simpl; destruct (hasPlayerOwner a), (isFriendly t); simpl;
    split; intros; auto; lia.
Qed.

(** The group of a classified combatant, mode by mode, as the code
    computes it. *)
Lemma getInitiativeGroup_table (c : Combatant) (s : Settings) (a : Actor)
    (t : Token) (mode : Z) :
  actor c = Some a -> token c = Some t ->
  Js.truthy (initType s) = true -> Js.parseInt (initType s) = Some mode ->
  getInitiativeGroup (Some c) (Some s)
  = if mode =? 0 then (if hasPlayerOwner a then 2 else 1)
    else if mode =? 1 then (if hasPlayerOwner a then 1 else 2)
    else if mode =? 2
    then (if hasPlayerOwner a || isFriendly t then 2 else 1)
    else if mode =? 3
    then (if hasPlayerOwner a || isFriendly t then 1 else 2)
    else if mode =? 4
    then (if hasPlayerOwner a then 3 else if isFriendly t then 2 else 1)
    else if mode =? 5 then (if hasPlayerOwner a then 2 else 1)
    else -1.
Proof.
  intros Ha Ht Htruthy Hmode. unfold getInitiativeGroup.
  rewrite Ha, Ht, Htruthy, Hmode.
  destruct (Z.eqb_spec mode 0) as [->|H0]; [now destruct (hasPlayerOwner a)|].
  destruct (Z.eqb_spec mode 1) as [->|H1]; [now destruct (hasPlayerOwner a)|].
  destruct (Z.eqb_spec mode 2) as [->|H2];
    [now destruct (hasPlayerOwner a), (isFriendly t)|].
  destruct (Z.eqb_spec mode 3) as [->|H3];
    [now destruct (hasPlayerOwner a), (isFriendly t)|].
  destruct (Z.eqb_spec mode 4) as [->|H4];
    [now destruct (hasPlayerOwner a), (isFriendly t)|].
  destruct (Z.eqb_spec mode 5) as [->|H5];
    [now destruct (hasPlayerOwner a), (isFriendly t)|].
  reflexivity.
Qed.

(** Without an actor or a token the group is the sentinel. *)
Lemma getInitiativeGroup_sentinel (c : Combatant) (s : option Settings) :
  actor c = None \/ token c = None ->
  getInitiativeGroup (Some c) s = -1.
Proof.
  intros H. unfold getInitiativeGroup. destruct s as [s|]; [|reflexivity].
  destruct H as [-> | ->]; [reflexivity|]. now destruct (actor c).
Qed.

(** C3: the code at the failing input.  In the mode that ranks enemies
    before player characters before allies (5), an enemy is put in group 1,
    where the allies are, and not in group 3: the comparison
    [side == side == 0] is never true, whether the mode is stored as a
    number or as text.  In the sibling mode 4 the three sides get 3, 2
    and 1. *)
Theorem getInitiativeGroup_enemies_first :
  getInitiativeGroup (Some Plain.thug)
    (Some (Plain.settings (Js.Number 5) None true)) = 1
  /\ getInitiativeGroup (Some Plain.thug)
       (Some (Plain.settings (Js.Text "5") None true)) = 1
  /\ getInitiativeGroup (Some Plain.hero)
       (Some (Plain.settings (Js.Number 5) None true)) = 2
  /\ getInitiativeGroup (Some Plain.ally)
       (Some (Plain.settings (Js.Number 5) None true)) = 1
  /\ map (fun c => getInitiativeGroup (Some c)
                     (Some (Plain.settings (Js.Number 4) None true)))
       [Plain.hero; Plain.ally; Plain.thug] = [3; 2; 1].
Proof. repeat split. Qed.

(** In mode 5 no combatant at all is put in group 3. *)
Lemma getInitiativeGroup_mode5_below_three (c : option Combatant)
    (s : Settings) :
  Js.parseInt (initType s) = Some 5 ->
  getInitiativeGroup c (Some s) <> 3.
Proof.
  intros Hmode. unfold getInitiativeGroup. destruct c as [c|]; [|easy].
  destruct (actor c) as [a|]; [|easy]. destruct (token c) as [t|]; [|easy].
  destruct (Js.truthy (initType s)); [|easy]. rewrite Hmode. simpl.
  destruct (hasPlayerOwner a), (isFriendly t); simpl; lia.
Qed.

(** ** The initiative threshold *)

Lemma closest_without_tokens (measureDistance :
                                option TokenData -> option TokenData -> Q)
    (own : Token) (others : list Combatant) (distance : Q) :
  Forall (fun x => token x = None) others ->
  fold_left (closestStep measureDistance own) others distance = distance.
Proof.
  intros H. revert distance.
  induction H as [|x others Hx Hothers IH]; intros distance; simpl.
  - reflexivity.
  - unfold closestStep at 2. rewrite Hx. apply IH.
Qed.

(** C6, as amended.  A manual threshold above zero is the threshold.
    Without one, the threshold is the default 2 when the participant has
    no actor or no token, or when the settings, the participant list or a
    truthy ordering mode are missing; when the participant has both an
    actor and a token and no participant of the other side has a token, in
    particular when there is no opposing participant, the distance stays at
    its start value of 10000 and the threshold is 6. *)
Theorem getInitiativeTN_defaults
    (measureDistance : option TokenData -> option TokenData -> Q)
    (c : Combatant) (all : option (list Combatant)) (s : option Settings) :
  (forall tn, manualSet s = Some tn ->
              getInitiativeTN measureDistance (Some c) all s = tn)
  /\ (manualSet s = None ->
      (actor c = None \/ token c = None \/ s = None \/ all = None
       \/ (exists st, s = Some st /\ Js.truthy (initType st) = false) ->
       getInitiativeTN measureDistance (Some c) all s = 2)
      /\ (forall a t st l,
            actor c = Some a -> token c = Some t -> s = Some st ->
            all = Some l -> Js.truthy (initType st) = true ->
            Forall (fun x => token x = None) (otherSideOf a t st l) ->
            getInitiativeTN measureDistance (Some c) all s = 6)).
Proof.
  split.
  - intros tn H. unfold getInitiativeTN. now rewrite H.
  - intros Hmanual. unfold getInitiativeTN. rewrite Hmanual. split.
    + intros [H | [H | [H | [H | [st [H1 H2]]]]]].
      * destruct s, all; try reflexivity. now rewrite H.
      * destruct s, all; try reflexivity. rewrite H. now destruct (actor c).
      * now rewrite H.
      * rewrite H. now destruct s.
      * rewrite H1. destruct all; [|reflexivity].
        destruct (actor c); [|reflexivity].
        destruct (token c); [|reflexivity]. now rewrite H2.
    + intros a t st l Ha Ht -> -> Htruthy Hothers.
      rewrite Ha, Ht, Htruthy. unfold getDistanceToClosestOther.
      rewrite Ht. now rewrite closest_without_tokens.
Qed.

Lemma getInitiativeTN_defaults_witness :
  getInitiativeTN Plain.measureDistance (Some Plain.hero)
    (Some [Plain.hero; Plain.ally]) (Some (Plain.settings (Js.Number 4) (Some 4) true))
  = 4
  /\ getInitiativeTN Plain.measureDistance (Some Plain.hero)
       (Some [Plain.hero; Plain.ally])
       (Some (Plain.settings (Js.Number 2) None true))
     = 6.
Proof.
  split.
  - apply (proj1 (getInitiativeTN_defaults Plain.measureDistance Plain.hero
                    (Some [Plain.hero; Plain.ally])
                    (Some (Plain.settings (Js.Number 4) (Some 4) true)))).
    reflexivity.
  - refine (proj2 (proj2 (getInitiativeTN_defaults Plain.measureDistance
                            Plain.hero (Some [Plain.hero; Plain.ally])
                            (Some (Plain.settings (Js.Number 2) None true)))
                     eq_refl)
              _ _ _ _ eq_refl eq_refl eq_refl eq_refl eq_refl _).
    vm_compute. constructor.
Defined.

(** C6 as stated fails: with no manual threshold and nobody on the other
    side, a participant that has an actor and a token gets the threshold 6,
    not 2; so does one whose only opponent has no token. *)
Lemma getInitiativeTN_no_opponent :
  Combat.otherSideOf {| hasPlayerOwner := true |}
    {| data := Some {| disposition := 1; x := 0; y := 0 |};
       name := "Rita";
       tokenActor := Some {| hasPlayerOwner := true |} |}
    (Plain.settings (Js.Number 2) None true) [Plain.hero; Plain.ally] = []
  /\ getInitiativeTN Plain.measureDistance (Some Plain.hero)
       (Some [Plain.hero; Plain.ally])
       (Some (Plain.settings (Js.Number 2) None true)) = 6
  /\ getInitiativeTN Plain.measureDistance (Some Plain.hero)
       (Some [Plain.hero]) (Some (Plain.settings (Js.Text "0") None false))
     = 6.
Proof. vm_compute. repeat split. Qed.

(** ** The initiative result *)

Lemma applyUpdate_result (cs : list Combatant) (u : Update) (x : Combatant) :
  In x (applyUpdate cs u) -> id x = _id u ->
  initiativeResult x = Some (newInitiativeResult u).
Proof.
  unfold applyUpdate. intros Hin Hid.
  apply in_map_iff in Hin as [y [Hy _]].
  destruct (String.eqb_spec (id y) (_id u)) as [E|E]; subst x.
  - reflexivity.
  - contradiction.
Qed.

Lemma applyUpdate_present (cs : list Combatant) (u : Update) (c : Combatant) :
  In c cs -> id c = _id u ->
  exists x, In x (applyUpdate cs u) /\ id x = _id u.
Proof.
  intros Hin Hid. unfold applyUpdate.
  exists (if String.eqb (id c) (_id u)
          then {| id := id c; actor := actor c; token := token c;
                  tokenId := tokenId c; isOwner := isOwner c;
                  initiative := Some (newInitiative u);
                  initiativeResult := Some (newInitiativeResult u) |}
          else c).
  split.
  - apply in_map_iff. now exists c.
  - now destruct (String.eqb (id c) (_id u)).
Qed.

(** C7, as amended.  When [rollInitiative] rolls for a participant the
    caller owns (one that has a token, whose name the announcement reads)
    and the roll is a threshold roll, the display code it stores on the
    participant is chosen in this order: the number of
    successes when it is positive; otherwise T when there is a tie;
    otherwise B when the highest die is 1; otherwise F. *)
Theorem rollInitiative_result_code
    (measureDistance : option TokenData -> option TokenData -> Q)
    (getInitiativeRollIronclaw : Combatant -> Z -> Host Dice.DiceReturn)
    (settings : option Settings) (c : Combatant) (t : Token)
    (all : list Combatant) (r : Dice.DiceReturn) (tn : Dice.TNData)
    (w w' : World) :
  find (fun x => String.eqb (id x) (id c)) all = Some c ->
  isOwner c = true ->
  token c = Some t ->
  getInitiativeRollIronclaw c
    (getInitiativeTN measureDistance (Some c) (Some all) settings) w
  = (Returned r, w') ->
  Dice.tnData r = Some tn ->
  exists all',
    rollInitiative measureDistance getInitiativeRollIronclaw settings
      [id c] all w = (Returned all', w')
    /\ (exists x, In x all' /\ id x = id c)
    /\ forall x, In x all' -> id x = id c ->
         initiativeResult x
         = Some (if 0 <? Dice.successes tn
                 then Js.numToString (Dice.successes tn)
                 else if negb (Dice.ties tn =? 0) then "T"
                 else if Dice.highest r =? 1 then "B"
                 else "F").
Proof.
  intros Hfind Howner Htoken Hroll Htn.
  unfold rollInitiative, rollEach, rollOne, bind.
  rewrite Hfind, Howner. cbn [negb]. rewrite Hroll, Htoken. unfold ret.
  cbn [List.length app Nat.eqb updateEmbeddedDocuments fold_left].
  eexists. split; [reflexivity|]. split.
  - apply find_some in Hfind as [Hin _].
    apply applyUpdate_present with (c := c); [exact Hin | reflexivity].
  - intros x Hin Hid. rewrite (applyUpdate_result all _ x Hin Hid).
    cbn [newInitiativeResult]. unfold initiativeResultOf.
    now rewrite Htn.
Qed.

Lemma rollInitiative_result_code_witness :
  exists all',
    rollInitiative Plain.measureDistance Plain.getInitiativeRollIronclaw
      (Some (Plain.settings (Js.Number 2) None false))
      [id Plain.hero] [Plain.hero; Plain.thug] (Plain.world [2])
    = (Returned all', Plain.world [])
    /\ (exists x, In x all' /\ id x = id Plain.hero)
    /\ forall x, In x all' -> id x = id Plain.hero ->
         initiativeResult x = Some "T".
Proof.
  refine (rollInitiative_result_code Plain.measureDistance
            Plain.getInitiativeRollIronclaw
            (Some (Plain.settings (Js.Number 2) None false))
            Plain.hero _ [Plain.hero; Plain.thug]
            _ {| Dice.successes := 0; Dice.ties := 1 |}
            (Plain.world [2]) (Plain.world []) _ _ _ _ _);
    [ reflexivity | reflexivity | reflexivity | vm_compute; reflexivity
    | reflexivity ].
Defined.

(** C7 as stated fails: against a manual threshold of 1, a d6 that shows
    a one is a tie and the highest die is 1.  The chat paragraph of the roll
    is the botch one, botch ranking before tie there, while the code stored
    on the participant is T, tie ranking before botch here. *)
Lemma rollInitiative_tie_before_botch :
  let settings := Some (Plain.settings (Js.Number 2) (Some 1) false) in
  let tn :=
    getInitiativeTN Plain.measureDistance (Some Plain.thug)
      (Some [Plain.hero; Plain.thug]) settings in
  let rolled :=
    fst (Plain.getInitiativeRollIronclaw Plain.thug tn (Plain.world [0])) in
  let stored :=
    fst (rollInitiative Plain.measureDistance
           Plain.getInitiativeRollIronclaw settings [id Plain.thug]
           [Plain.hero; Plain.thug] (Plain.world [0])) in
  tn = 1
  /\ match rolled with
     | Returned r =>
         Pool.results (Dice.roll r) = [1]
         /\ Dice.tnData r = Some {| Dice.successes := 0; Dice.ties := 1 |}
         /\ Dice.highest r = 1
         /\ flavor (Dice.message r)
            = Pool.botchString Plain.info Plain.i18n "Initiative"
     | Thrown => False
     end
  /\ match stored with
     | Returned all' =>
         map initiativeResult all' = [None; Some "T"]
     | Thrown => False
     end.
Proof. vm_compute. repeat split. Qed.

(** ** Turn order *)

(** The comparator goes through its keys in order: a difference in
    initiative decides; then the owner advantage; then the names; what is
    left to the last step is the difference of the token ids. *)
Lemma sortCombatants_levels (localeCompare : string -> string -> Z)
    (a b : Combatant) :
  (Qeq_bool (numericInitiative b - numericInitiative a) 0 = false ->
   _sortCombatants localeCompare a b
   = Some (numericInitiative b - numericInitiative a)%Q)
  /\ (Qeq_bool (numericInitiative b - numericInitiative a) 0 = true ->
      ownerAdvantage a = true -> ownerAdvantage b = false ->
      _sortCombatants localeCompare a b = Some (inject_Z (-1)))
  /\ (Qeq_bool (numericInitiative b - numericInitiative a) 0 = true ->
      ownerAdvantage a = ownerAdvantage b ->
      localeCompare (displayName a) (displayName b) <> 0 ->
      _sortCombatants localeCompare a b
      = Some (inject_Z (localeCompare (displayName a) (displayName b)))).
Proof.
  unfold _sortCombatants. repeat split.
  - intros ->. reflexivity.
  - intros -> -> ->. reflexivity.
  - intros -> -> Hn. apply Z.eqb_neq in Hn. rewrite Hn.
    now destruct (ownerAdvantage b).
Qed.

(** Two combatants that tie on initiative, owner advantage and name are
    left unordered as soon as one token id is not a numeral. *)
Lemma sortCombatants_tie_unordered (localeCompare : string -> string -> Z)
    (a b : Combatant) :
  Qeq_bool (numericInitiative b - numericInitiative a) 0 = true ->
  Qeq_bool (numericInitiative a - numericInitiative b) 0 = true ->
  ownerAdvantage a = ownerAdvantage b ->
  localeCompare (displayName a) (displayName b) = 0 ->
  localeCompare (displayName b) (displayName a) = 0 ->
  stringToNumber (tokenId a) = None \/ stringToNumber (tokenId b) = None ->
  _sortCombatants localeCompare a b = None
  /\ _sortCombatants localeCompare b a = None.
Proof.
  intros Hab Hba Howner Hn Hn' Hid. unfold _sortCombatants.
  rewrite Hab, Hba, Howner, Hn, Hn'. simpl.
  assert (E : (if ownerAdvantage b then 1 else 0)
              - (if ownerAdvantage b then 1 else 0) = 0) by lia.
  rewrite E. simpl.
  destruct Hid as [-> | ->]; split; try reflexivity;
    now destruct (stringToNumber _).
Qed.

(** C5: the code at the failing input.  Two thugs of one name, both run
    by the game master and both at initiative 2, differ in their token ids
    alone.  The last step of the comparator subtracts the ids, which are
    not numerals: the answer is NaN in both directions, neither thug is
    put before the other, and the sorted order is the order they came
    in. *)
Theorem sortCombatants_namesakes :
  _sortCombatants Plain.localeCompare Plain.thug Plain.otherThug = None
  /\ _sortCombatants Plain.localeCompare Plain.otherThug Plain.thug = None
  /\ sort Combatant (_sortCombatants Plain.localeCompare)
       [Plain.thug; Plain.hero; Plain.otherThug]
     = [Plain.thug; Plain.otherThug; Plain.hero]
  /\ sort Combatant (_sortCombatants Plain.localeCompare)
       [Plain.otherThug; Plain.hero; Plain.thug]
     = [Plain.otherThug; Plain.thug; Plain.hero].
Proof. vm_compute. repeat split. Qed.

End CombatProperties.

(* ================================================================== *)
(** * Properties of the condition bookkeeping *)
(* ================================================================== *)

Module ConditionProperties.
Import Conditions.

Lemma conditionSet_actor (target : Target) (a : Actor) :
  getTargetActor target = Some a -> conditionSet target = statusIds a.
Proof. intros H. unfold conditionSet. now rewrite H. Qed.

Lemma includes_In (cs : list string) (s : string) :
  includes cs s = true <-> In s cs.
Proof.
  unfold includes. rewrite existsb_exists. split.
  - intros [x [Hx E]]. apply String.eqb_eq in E. now subst.
  - intros H. exists s. split; [exact H | apply String.eqb_refl].
Qed.

Lemma carries_In (es : list ActiveEffect) (x : string) :
  existsb (fun y => match statusId y with
                    | Some s => String.eqb s x
                    | None => false
                    end) es = true
  <-> In x (flat_map (fun e => match statusId e with
                               | Some s => [s]
                               | None => []
                               end) es).
Proof.
  rewrite existsb_exists, in_flat_map. split.
  - intros [e [He E]]. exists e. split; [exact He|].
    destruct (statusId e) as [s|]; [|discriminate].
    apply String.eqb_eq in E. subst. now left.
  - intros [e [He Hin]]. exists e. split; [exact He|].
    destruct (statusId e) as [s|]; [|contradiction].
    destruct Hin as [<- | []]. apply String.eqb_refl.
Qed.

Lemma carriesAny_In (es : list ActiveEffect) (cs : list string) :
  existsb (fun x => match statusId x with
                    | Some s => includes cs s
                    | None => false
                    end) es = true
  <-> exists s, In s cs
                /\ In s (flat_map (fun e => match statusId e with
                                            | Some s => [s]
                                            | None => []
                                            end) es).
Proof.
  rewrite existsb_exists. split.
  - intros [e [He E]]. destruct (statusId e) as [s|] eqn:Es; [|discriminate].
    exists s. split; [now apply includes_In|].
    apply in_flat_map. exists e. split; [exact He|]. rewrite Es. now left.
  - intros [s [Hs Hin]]. apply in_flat_map in Hin as [e [He Hin]].
    exists e. split; [exact He|].
    destruct (statusId e) as [s'|]; [|contradiction].
    destruct Hin as [<- | []]. now apply includes_In.
Qed.

Lemma getMatchedConditions_In (cs : list string) (cond : Condition) :
  In cond (getMatchedConditions cs)
  <-> In cond conditionList /\ In (id cond) cs.
Proof.
  unfold getMatchedConditions. rewrite filter_In. now rewrite includes_In.
Qed.

Lemma catalog_ids_nonempty (cond : Condition) :
  In cond conditionList -> id cond <> EmptyString.
Proof.
  assert (H : forallb (fun c => negb (String.eqb (id c) EmptyString))
                conditionList = true) by (vm_compute; reflexivity).
  rewrite forallb_forall in H. intros Hin E. specialize (H cond Hin).
  rewrite E in H. discriminate.
Qed.

Lemma created_statusIds (datas : list EffectData) (a : Actor) :
  statusIds (createEmbeddedDocuments a datas)
  = (statusIds a ++ map dataStatusId datas)%list.
Proof.
  revert a. induction datas as [|d datas IH]; intros a; simpl.
  - now rewrite app_nil_r.
  - rewrite IH. unfold statusIds at 1. simpl effects.
    rewrite flat_map_app. simpl. now rewrite <- app_assoc.
Qed.

Section Local.

Variable cubHasCondition : list string -> Target -> bool.
Variable localize : string -> string.

Lemma addConditionsIronclaw_local (conditions : ConditionArg)
    (target : Target) (a : Actor) :
  getTargetActor target = Some a ->
  addConditionsIronclaw false cubHasCondition localize conditions target
  = if (0 <? List.length
              (prepareEffects localize
                 (getMatchedConditions (used cubHasCondition conditions target a))))%nat
    then [CreateEffects
            (prepareEffects localize
               (getMatchedConditions (used cubHasCondition conditions target a)))]
    else [].
Proof.
  intros Ha. unfold addConditionsIronclaw, used, getConditionsIronclaw.
  now rewrite Ha.
Qed.

(** A catalog condition that is asked for and goes on after the check is
    one the actor does not carry. *)
Lemma used_fresh (conditions : ConditionArg) (target : Target) (a : Actor)
    (cond : Condition) :
  getTargetActor target = Some a ->
  In cond conditionList -> In (id cond) (used cubHasCondition conditions target a) ->
  In (id cond) (asArray conditions) /\ ~ In (id cond) (statusIds a).
Proof.
  intros Ha Hcat Hused. unfold used in Hused.
  destruct (hasConditionsIronclaw false cubHasCondition conditions target)
    eqn:Hhas.
  - apply filter_In in Hused as [Hin Hno]. split; [exact Hin|].
    intros Hcarried. apply carries_In in Hcarried.
    rewrite Hcarried in Hno. discriminate.
  - split; [exact Hused|]. intros Hcarried.
    unfold hasConditionsIronclaw in Hhas. rewrite Ha in Hhas.
    destruct (falsy conditions) eqn:Hfalsy.
    + destruct conditions as [c|cs]; [|discriminate].
      simpl in Hfalsy, Hused. apply String.eqb_eq in Hfalsy. subst c.
      destruct Hused as [E | []].
      now apply (catalog_ids_nonempty cond Hcat).
    + assert (Hex : existsb (fun x => match statusId x with
                                      | Some s =>
                                          includes (asArray conditions) s
                                      | None => false
                                      end) (effects a) = true).
      { apply carriesAny_In. now exists (id cond). }
      rewrite Hex in Hhas. discriminate.
Qed.

(** A catalog condition that is asked for and that the actor does not
    carry goes on after the check. *)
Lemma fresh_used (conditions : ConditionArg) (target : Target) (a : Actor)
    (x : string) :
  In x (asArray conditions) -> ~ In x (statusIds a) ->
  In x (used cubHasCondition conditions target a).
Proof.
  intros Hin Hfresh. unfold used.
  destruct (hasConditionsIronclaw false cubHasCondition conditions target);
    [|exact Hin].
  apply filter_In. split; [exact Hin|].
  destruct (existsb _ (effects a)) eqn:E; [|reflexivity].
  apply carries_In in E. contradiction.
Qed.

Lemma prepared_statusIds (conds : list Condition) :
  map dataStatusId (prepareEffects localize conds) = map id conds.
Proof. unfold prepareEffects. rewrite map_map. reflexivity. Qed.

Lemma withActor_actor (target : Target) (a b : Actor) :
  getTargetActor target = Some a ->
  getTargetActor (withActor target b) = Some b.
Proof. destruct target as [a'|[a'|]|]; simpl; congruence. Qed.

(** After an add, a second add of the same conditions finds nothing left
    to create. *)
Lemma add_twice_nothing (conditions : ConditionArg) (target : Target) :
  addConditionsIronclaw false cubHasCondition localize conditions
    (commitAll target
       (addConditionsIronclaw false cubHasCondition localize conditions
          target))
  = [].
Proof.
  destruct (getTargetActor target) as [a|] eqn:Ha.
  2:{ unfold addConditionsIronclaw at 2. rewrite Ha.
      unfold commitAll. cbn [fold_left].
      unfold addConditionsIronclaw. now rewrite Ha. }
  rewrite (addConditionsIronclaw_local conditions target a Ha).
  set (datas := prepareEffects localize
                  (getMatchedConditions (used cubHasCondition conditions target a))).
  destruct (0 <? List.length datas)%nat eqn:Hlen.
  2:{ unfold commitAll. cbn [fold_left].
      rewrite (addConditionsIronclaw_local conditions target a Ha).
      fold datas. now rewrite Hlen. }
  unfold commitAll. cbn [fold_left]. unfold commit. rewrite Ha.
  set (a1 := createEmbeddedDocuments a datas).
  assert (Ha1 : getTargetActor (withActor target a1) = Some a1)
    by (now apply withActor_actor with (a := a)).
  rewrite (addConditionsIronclaw_local conditions _ a1 Ha1).
  assert (Hnone :
    getMatchedConditions (used cubHasCondition conditions (withActor target a1) a1) = []).
  { destruct (getMatchedConditions (used cubHasCondition conditions (withActor target a1) a1))
      as [|cond rest] eqn:Em; [reflexivity|]. exfalso.
    assert (Hcond : In cond (getMatchedConditions
                               (used cubHasCondition conditions (withActor target a1) a1)))
      by (rewrite Em; now left).
    apply getMatchedConditions_In in Hcond as [Hcat Hused].
    destruct (used_fresh conditions _ a1 cond Ha1 Hcat Hused)
      as [Hasked Hfresh].
    apply Hfresh. unfold a1. rewrite created_statusIds. apply in_or_app.
    destruct (in_dec string_dec (id cond) (statusIds a)) as [Hold|Hnew];
      [now left | right].
    unfold datas. rewrite prepared_statusIds. apply in_map.
    apply getMatchedConditions_In. split; [exact Hcat|].
    now apply fresh_used. }
  rewrite Hnone. reflexivity.
Qed.

End Local.

Lemma In_single_write (b : bool) (datas planned : list EffectData) :
  In (CreateEffects datas) (if b then [CreateEffects planned] else []) ->
  datas = planned.
Proof.
  destruct b; simpl; [|contradiction]. intros [E | []]. now injection E.
Qed.

Lemma In_prepareEffects (localize : string -> string) (d : EffectData)
    (conds : list Condition) :
  In d (prepareEffects localize conds) ->
  exists cond, In cond conds /\ dataStatusId d = id cond.
Proof.
  unfold prepareEffects. intros H. apply in_map_iff in H as [cond [<- H]].
  now exists cond.
Qed.

Lemma add_creates_fresh (cubHasCondition : list string -> Target -> bool)
    (localize : string -> string) (conditions : ConditionArg)
    (target : Target) (useCUBConditions : bool) (datas : list EffectData) :
  In (CreateEffects datas)
    (addConditionsIronclaw useCUBConditions cubHasCondition localize
       conditions target) ->
  Forall (fun d => In (dataStatusId d) (asArray conditions)
                   /\ ~ In (dataStatusId d) (conditionSet target)) datas.
Proof.
  intros Hin. destruct useCUBConditions.
  - unfold addConditionsIronclaw in Hin. cbv beta iota in Hin.
    destruct Hin as [E | []]. discriminate.
  - destruct (getTargetActor target) as [a|] eqn:Ha.
    2:{ unfold addConditionsIronclaw in Hin. now rewrite Ha in Hin. }
    rewrite (addConditionsIronclaw_local cubHasCondition localize
               conditions target a Ha) in Hin.
    apply In_single_write in Hin. subst datas.
    apply Forall_forall. intros d Hd.
    apply In_prepareEffects in Hd as [cond [Hcond E]]. rewrite E.
    apply getMatchedConditions_In in Hcond as [Hcat Hused].
    rewrite (conditionSet_actor target a Ha).
    apply (used_fresh cubHasCondition conditions target a cond); assumption.
Qed.

Lemma remove_absent_local (cubHasCondition : list string -> Target -> bool)
    (conditions : ConditionArg) (target : Target) (checkfirst : bool) :
  (forall c, In c (asArray conditions) -> ~ In c (conditionSet target)) ->
  removeConditionsIronclaw false cubHasCondition conditions target checkfirst
  = [].
Proof.
  intros Hnone. unfold removeConditionsIronclaw.
  destruct (getTargetActor target) as [a|] eqn:Ha; [|reflexivity].
  rewrite (conditionSet_actor target a Ha) in Hnone.
  assert (E : filter (fun value => match statusId value with
                                   | Some s =>
                                       includes (asArray conditions) s
                                   | None => false
                                   end) (effects a) = []).
  { destruct (filter _ (effects a)) as [|e rest] eqn:Ef; [reflexivity|].
    exfalso. assert (He : In e (filter
               (fun value => match statusId value with
                             | Some s => includes (asArray conditions) s
                             | None => false
                             end) (effects a)))
      by (rewrite Ef; now left).
    apply filter_In in He as [He Hs].
    destruct (statusId e) as [s|] eqn:Es; [|discriminate].
    apply includes_In in Hs. apply (Hnone s Hs).
    unfold statusIds. apply in_flat_map. exists e.
    split; [exact He|]. rewrite Es. now left. }
  now rewrite E.
Qed.

Lemma remove_absent_provider
    (cubHasCondition : list string -> Target -> bool)
    (conditions : ConditionArg) (target : Target) :
  hasConditionsIronclaw true cubHasCondition conditions target = false ->
  removeConditionsIronclaw true cubHasCondition conditions target true = [].
Proof.
  intros Hhas. unfold removeConditionsIronclaw. now rewrite Hhas.
Qed.

(** C8.  Adding creates effects only for conditions that are asked for
    and that the target does not carry yet, whichever backend is in use
    (with the external provider the request is handed on and nothing is
    created here).  With the built-in backend a second add of the same
    conditions issues no write, so the target, and with it its condition
    set, is the same after two adds as after one.  Removing with
    [checkfirst] set issues no write when the target carries none of the
    given conditions: none of them among its status ids for the built-in
    backend, none reported by the provider for the external one. *)
Theorem conditions_idempotent (cubHasCondition : list string -> Target -> bool)
    (localize : string -> string) (conditions : ConditionArg)
    (target : Target) :
  (forall useCUBConditions datas,
      In (CreateEffects datas)
        (addConditionsIronclaw useCUBConditions cubHasCondition localize
           conditions target) ->
      Forall (fun d => In (dataStatusId d) (asArray conditions)
                       /\ ~ In (dataStatusId d) (conditionSet target)) datas)
  /\ (let once :=
        commitAll target
          (addConditionsIronclaw false cubHasCondition localize conditions
             target) in
      addConditionsIronclaw false cubHasCondition localize conditions once
      = []
      /\ commitAll once
           (addConditionsIronclaw false cubHasCondition localize conditions
              once) = once
      /\ conditionSet
           (commitAll once
              (addConditionsIronclaw false cubHasCondition localize
                 conditions once))
         = conditionSet once)
  /\ ((forall c, In c (asArray conditions) -> ~ In c (conditionSet target)) ->
      removeConditionsIronclaw false cubHasCondition conditions target true
      = [])
  /\ (hasConditionsIronclaw true cubHasCondition conditions target = false ->
      removeConditionsIronclaw true cubHasCondition conditions target true
      = []).
Proof.
  split; [|split; [|split]].
  - intros useCUB datas. apply add_creates_fresh.
  - intros once.
    pose proof (add_twice_nothing cubHasCondition localize conditions target)
      as H.
    fold once in H. rewrite H. now repeat split.
  - apply remove_absent_local.
  - apply remove_absent_provider.
Qed.

Lemma conditions_idempotent_witness :
  addConditionsIronclaw false (fun _ _ => false) (fun key => key)
    (Many ["hurt"; "afraid"]) Plain.bruised
  = [CreateEffects
       [ {| dataStatusId := "afraid";
            dataLabel := "urbanjungle.effect.status.afraid";
            dataIcon := "systems/urbanjungle/icons/status/afraid.svg" |} ]]
  /\ Forall (fun d => In (dataStatusId d) ["hurt"; "afraid"]
                      /\ ~ In (dataStatusId d) (conditionSet Plain.bruised))
       [ {| dataStatusId := "afraid";
            dataLabel := "urbanjungle.effect.status.afraid";
            dataIcon := "systems/urbanjungle/icons/status/afraid.svg" |} ]
  /\ removeConditionsIronclaw false (fun _ _ => false) (Many ["dying"])
       Plain.bruised true = []
  /\ removeConditionsIronclaw true (fun _ _ => false) (One "dying")
       Plain.bruised true = [].
Proof.
  split; [vm_compute; reflexivity|].
  split.
  - apply (proj1 (conditions_idempotent (fun _ _ => false) (fun key => key)
                    (Many ["hurt"; "afraid"]) Plain.bruised) false).
    vm_compute. left. reflexivity.
  - split.
    + apply (proj1 (proj2 (proj2 (conditions_idempotent (fun _ _ => false)
                                    (fun key => key) (Many ["dying"])
                                    Plain.bruised)))).
      intros c [<- | []] [E | []]. discriminate.
    + apply (proj2 (proj2 (proj2 (conditions_idempotent (fun _ _ => false)
                                    (fun key => key) (One "dying")
                                    Plain.bruised)))).
      reflexivity.
Defined.

End ConditionProperties.

(* ================================================================== *)
(** * Further facts about rolls *)
(* ================================================================== *)

Module RollFacts.
Import Foundry Dice Pool JsFacts DiceFacts.

Lemma rollDie_draws (f : Z) (e : list Z) : snd (rollDie f e) = skipn 1 e.
Proof. now destruct e. Qed.

Lemma skipn_skipn_one (n : nat) (e : list Z) :
  skipn n (skipn 1 e) = skipn (S n) e.
Proof. now destruct e; [destruct n|]. Qed.

(** Every die takes one draw. *)
Lemma drawsLeft_skipn (fs : list Z) (e : list Z) :
  drawsLeft fs e = skipn (List.length fs) e.
Proof.
  revert e. induction fs as [|f fs IH]; intros e; [reflexivity|].
  cbn [drawsLeft List.length]. rewrite IH, rollDie_draws.
  apply skipn_skipn_one.
Qed.

Lemma above_equal_bounds (tni : Z) (rs : list Z) :
  0 <= above tni rs /\ 0 <= equal tni rs
  /\ above tni rs + equal tni rs <= Z.of_nat (List.length rs).
Proof.
  unfold above, equal. induction rs as [|x rs IH]; simpl; [lia|].
  destruct (Z.ltb_spec tni x), (Z.eqb_spec x tni); simpl List.length; lia.
Qed.

Lemma above_positive (tni : Z) (rs : list Z) :
  0 < above tni rs <-> exists x, In x rs /\ tni < x.
Proof.
  unfold above. induction rs as [|x rs IH]; simpl.
  - split; [lia | now intros [x [[] _]]].
  - destruct (Z.ltb_spec tni x) as [Hlt|Hge]; simpl List.length.
    + split; [|lia]. intros _. exists x. split; [now left | exact Hlt].
    + rewrite IH. split.
      * intros [y [Hy Hty]]. exists y. split; [now right | exact Hty].
      * intros [y [[<- | Hy] Hty]]; [lia|]. now exists y.
Qed.

Lemma fold_max_attained (rs : list Z) (h : Z) :
  fold_left Z.max rs h = h \/ In (fold_left Z.max rs h) rs.
Proof.
  revert h. induction rs as [|x rs IH]; intros h; simpl; [now left|].
  destruct (IH (Z.max h x)) as [E | Hin]; [|now right; right].
  rewrite E. destruct (Z.max_spec h x) as [[_ ->] | [_ ->]];
    [right; now left | now left].
Qed.

(** The highest of a sequence of faces, all at least one, is its maximum:
    a face of the sequence that no face exceeds. *)
Lemma highestOf_maximum (rs : list Z) :
  rs <> [] -> Forall (fun x => 1 <= x) rs ->
  In (highestOf rs) rs /\ Forall (fun x => x <= highestOf rs) rs.
Proof.
  intros Hne Hge. split; [|apply fold_max_bound].
  unfold highestOf. destruct (fold_max_attained rs 0) as [E | Hin];
    [|exact Hin].
  exfalso. destruct rs as [|x rs]; [easy|].
  pose proof (Forall_inv Hge) as Hx. simpl in Hx.
  pose proof (fold_max_bound (x :: rs) 0) as Hb.
  apply Forall_inv in Hb. rewrite E in Hb. lia.
Qed.

Lemma keepHighest_highestOf (rs : list Z) :
  Forall (fun x => 1 <= x) rs -> keepHighest rs = highestOf rs.
Proof.
  intros Hge. destruct rs as [|x rs]; [reflexivity|].
  unfold keepHighest, highestOf. simpl fold_left.
  apply Forall_inv in Hge. f_equal. lia.
Qed.

Lemma above_positive_highest (tni : Z) (rs : list Z) :
  rs <> [] -> Forall (fun x => 1 <= x) rs ->
  (0 < above tni rs <-> tni < highestOf rs).
Proof.
  intros Hne Hge. destruct (highestOf_maximum rs Hne Hge) as [Hin Hmax].
  rewrite above_positive. split.
  - intros [x [Hx Hlt]]. rewrite Forall_forall in Hmax.
    specialize (Hmax x Hx). simpl in Hmax. lia.
  - intros Hlt. now exists (highestOf rs).
Qed.

Lemma sizes_at_most_twelve (d12 d10 d8 d6 d4 : Z) :
  Forall (fun f => f <= 12) (sizes d12 d10 d8 d6 d4).
Proof.
  unfold sizes. rewrite !Forall_app.
  repeat split; apply Forall_forall; intros f Hf;
    apply repeat_spec in Hf; lia.
Qed.

Lemma faces_at_most (fs : list Z) (e : list Z) (b : Z) :
  Forall (fun f => 0 < f) fs -> Forall (fun f => f <= b) fs ->
  Forall (fun x => 1 <= x <= b) (faces fs e).
Proof.
  intros Hpos Hb. revert e.
  induction fs as [|f fs IH]; intros e; simpl; constructor.
  - pose proof (rollDie_range f e (Forall_inv Hpos)).
    pose proof (Forall_inv Hb). simpl in *. lia.
  - apply IH; [exact (Forall_inv_tail Hpos) | exact (Forall_inv_tail Hb)].
Qed.

Lemma faces_nonempty (fs : list Z) (e : list Z) :
  fs <> [] -> faces fs e <> [].
Proof. now destruct fs. Qed.

(** The faces of a pool: at least one of them, each between 1 and 12. *)
Lemma pool_faces (d12 d10 d8 d6 d4 : Z) (e : list Z) :
  nonEmpty d12 d10 d8 d6 d4 ->
  faces (sizes d12 d10 d8 d6 d4) e <> []
  /\ Forall (fun x => 1 <= x <= 12) (faces (sizes d12 d10 d8 d6 d4) e).
Proof.
  intros Hne. split.
  - now apply faces_nonempty, sizes_nonempty.
  - apply faces_at_most; [apply sizes_positive | apply sizes_at_most_twelve].
Qed.

Lemma Forall_weaken_one (rs : list Z) (b : Z) :
  Forall (fun x => 1 <= x <= b) rs -> Forall (fun x => 1 <= x) rs.
Proof. apply Forall_impl. intros; lia. Qed.

Section CopyRuns.

Variable info : CommonSystemInfo.
Variable i18n : I18n.

(** What [copyToRollTN] comes back with on a message whose roll has
    results to copy. *)
Lemma copyToRollTN_run (tni : Z) (prior : ChatMessage)
    (p : PoolTerm.t) (more : list PoolTerm.t) (label : string)
    (sendinchat rerollone : bool) (w : World) (es : list Entry) :
  isRollMessage prior = true ->
  Foundry.label (flags prior) = Some label ->
  Roll.terms (Foundry.roll prior) = p :: more ->
  copiedPieces rerollone p <> [] ->
  Forall clean (copiedPieces rerollone p) ->
  parseEntries (copiedPieces rerollone p) = Some es ->
  let rs := fst (fst (evaluateEntries es (entropy w))) in
  let r :=
    poolRoll ("{" ++ Js.join "," (copiedPieces rerollone p) ++ "}cs>"
              ++ Js.numToString tni)
      (copiedPieces rerollone p) rs
      (snd (fst (evaluateEntries es (entropy w)))) (above tni rs) in
  let msg :=
    rollMessage (speaker prior)
      (flavorStringTN info i18n (above tni rs) (equal tni rs)
         (highestOf rs =? 1)
         (copyPrefix i18n rerollone "urbanjungle.chatInfo.tn" ++ label))
      "TN" label false rs r in
  copyToRollTN info i18n tni (Some prior) sendinchat rerollone w
  = (Returned
       (Some {| roll := r; highest := highestOf rs;
                tnData := Some {| successes := above tni rs;
                                  ties := equal tni rs |};
                message := msg; isSent := sendinchat |}),
     after w (snd (evaluateEntries es (entropy w))) msg sendinchat).
Proof.
  intros Hroll Hlabel Hterms Hne Hclean Hes rs r msg. subst rs r msg.
  unfold copyToRollTN. rewrite Hroll. cbn [negb].
  unfold bind at 1. unfold copiedPieces in *.
  destruct rerollone;
    [ rewrite (copyRerollHighestOne_formula _ p more w Hterms)
    | rewrite (copyDicePoolResult_formula _ p more w Hterms) ];
    rewrite (join_length_nonzero _ es Hne Hes), Hlabel;
    unfold bind;
    match goal with
    | |- context [evaluate ("{" ++ Js.join "," ?pieces ++ "}cs>" ++ ?n)] =>
        change ("{" ++ Js.join "," pieces ++ "}cs>" ++ n)
          with ("{" ++ Js.join "," pieces ++ String "}" ("cs>" ++ n))
    end;
    (rewrite (evaluate_pool _ es _ (CountSuccesses tni));
     [ | assumption | assumption | assumption | apply parseModifier_cs ]);
    unfold firstTerm; cbn [Roll.terms PoolTerm.results];
    rewrite scanResults_spec;
    unfold toMessage, ret, after, rollMessage, poolRoll;
    cbn [applyModifier entropy chatLog]; now destruct sendinchat.
Qed.

Lemma copyToRollHighest_run (prior : ChatMessage)
    (p : PoolTerm.t) (more : list PoolTerm.t) (label : string)
    (sendinchat rerollone : bool) (w : World) (es : list Entry) :
  isRollMessage prior = true ->
  Foundry.label (flags prior) = Some label ->
  Roll.terms (Foundry.roll prior) = p :: more ->
  copiedPieces rerollone p <> [] ->
  Forall clean (copiedPieces rerollone p) ->
  parseEntries (copiedPieces rerollone p) = Some es ->
  let rs := fst (fst (evaluateEntries es (entropy w))) in
  let r :=
    poolRoll ("{" ++ Js.join "," (copiedPieces rerollone p) ++ "}kh1")
      (copiedPieces rerollone p) rs
      (snd (fst (evaluateEntries es (entropy w)))) (keepHighest rs) in
  let msg :=
    rollMessage (speaker prior)
      (flavorStringHighest info i18n (keepHighest rs)
         (copyPrefix i18n rerollone "urbanjungle.chatInfo.high" ++ label))
      "HIGH" label false rs r in
  copyToRollHighest info i18n (Some prior) sendinchat rerollone w
  = (Returned
       (Some {| roll := r; highest := keepHighest rs; tnData := None;
                message := msg; isSent := sendinchat |}),
     after w (snd (evaluateEntries es (entropy w))) msg sendinchat).
Proof.
  intros Hroll Hlabel Hterms Hne Hclean Hes rs r msg. subst rs r msg.
  unfold copyToRollHighest. rewrite Hroll. cbn [negb].
  unfold bind at 1. unfold copiedPieces in *.
  destruct rerollone;
    [ rewrite (copyRerollHighestOne_formula _ p more w Hterms)
    | rewrite (copyDicePoolResult_formula _ p more w Hterms) ];
    rewrite (join_length_nonzero _ es Hne Hes), Hlabel;
    unfold bind;
    match goal with
    | |- context [evaluate ("{" ++ Js.join "," ?pieces ++ "}kh1")] =>
        change ("{" ++ Js.join "," pieces ++ "}kh1")
          with ("{" ++ Js.join "," pieces ++ String "}" "kh1")
    end;
    (rewrite (evaluate_pool _ es _ KeepHighest);
     [ | assumption | assumption | assumption | reflexivity ]);
    unfold firstTerm; cbn [Roll.terms PoolTerm.results];
    unfold toMessage, ret, after, rollMessage, poolRoll, someOne;
    cbn [applyModifier entropy chatLog]; now destruct sendinchat.
Qed.

(** The formula of a copy is written without a look at the world. *)
Lemma copy_formula_pure (rerollone : bool) (r : Roll.t) (w : World) :
  (if rerollone then copyRerollHighestOne r else copyDicePoolResult r) w
  = (Returned
       (match Roll.terms r with
        | p :: _ => Js.join "," (copiedPieces rerollone p)
        | [] => EmptyString
        end), w).
Proof.
  destruct (Roll.terms r) as [|p more] eqn:E.
  - destruct rerollone; unfold copyRerollHighestOne, copyDicePoolResult;
      now rewrite E.
  - unfold copiedPieces. destruct rerollone.
    + exact (copyRerollHighestOne_formula r p more w E).
    + exact (copyDicePoolResult_formula r p more w E).
Qed.

End CopyRuns.

(** ** Rerolls and the chat menu *)

Lemma replaceAt_pointwise (rs : list Z) (k : nat) (v : Z) :
  (k < List.length rs)%nat -> nth k rs 0 <= v ->
  Forall2 Z.le rs (replaceAt k v rs).
Proof.
  assert (Hrefl : forall l : list Z, Forall2 Z.le l l)
    by (induction l; constructor; [lia | assumption]).
  revert k. induction rs as [|x rs IH]; intros k Hk Hv;
    [simpl in Hk; lia|].
  destruct k as [|k].
  - unfold replaceAt. simpl in *. constructor; [exact Hv | apply Hrefl].
  - unfold replaceAt in *. simpl in *. constructor; [lia|].
    apply IH; [lia | exact Hv].
Qed.

Lemma above_monotone (tni : Z) (l l' : list Z) :
  Forall2 Z.le l l' -> above tni l <= above tni l'.
Proof.
  unfold above. induction 1 as [|x y l l' Hxy _ IH]; [reflexivity|].
  cbn [filter].
  destruct (Z.ltb_spec tni x), (Z.ltb_spec tni y);
    cbn [List.length]; lia.
Qed.

Lemma fold_max_monotone (l l' : list Z) :
  Forall2 Z.le l l' ->
  forall h h', h <= h' -> fold_left Z.max l h <= fold_left Z.max l' h'.
Proof.
  induction 1 as [|x y l l' Hxy _ IH]; intros h h' Hh; [exact Hh|].
  cbn [fold_left]. apply IH. lia.
Qed.

Lemma replaceAt_length {A : Type} (k : nat) (v : A) (l : list A) :
  (k < List.length l)%nat ->
  List.length (replaceAt k v l) = List.length l.
Proof.
  intros Hk. unfold replaceAt.
  rewrite length_app, firstn_length_le by lia.
  cbn [List.length]. rewrite length_skipn. lia.
Qed.

(** The pieces a reroll writes for a pool of dice. *)
Lemma copiedPieces_reroll (fs rs : list Z) :
  List.length rs = List.length fs ->
  copiedPieces true
    {| PoolTerm.terms := map dieTerm fs; PoolTerm.results := rs |}
  = match firstOne rs with
    | Some k => replaceAt k (dieTerm (nth k fs 0)) (map Js.numToString rs)
    | None => map Js.numToString rs
    end.
Proof.
  intros Hlen. unfold copiedPieces. cbn [PoolTerm.terms PoolTerm.results].
  rewrite rerollPieces_first.
  destruct (firstOne rs) as [k|] eqn:Ek; [|reflexivity].
  apply firstOne_some in Ek as [Hk _]. simpl Nat.add.
  rewrite (nth_indep _ "undefined" (dieTerm 0))
    by (rewrite length_map; lia).
  now rewrite map_nth.
Qed.

Lemma string_of_uint_all_digits (d : uint) :
  Js.all_digits (NilEmpty.string_of_uint d) = true.
Proof. unfold Js.all_digits. induction d; simpl; auto. Qed.

Lemma digit_prefix_all (s : string) :
  Js.all_digits s = true -> Js.digit_prefix s = s.
Proof.
  unfold Js.all_digits. induction s as [|c s IH]; simpl; [reflexivity|].
  intros H. apply andb_prop in H as [Hc Hs]. now rewrite Hc, IH.
Qed.

Lemma numToString_positive (q : positive) :
  Js.numToString (Z.pos q) = NilEmpty.string_of_uint (Pos.to_uint q).
Proof.
  unfold Js.numToString, NilZero.string_of_int, NilZero.string_of_uint.
  cbn [Z.to_int]. pose proof (pos_to_uint_nonnil q) as Hq.
  now destruct (Pos.to_uint q).
Qed.

(** [Js.parseInt] reads a printed integer back. *)
Lemma parseInt_numToString (n : Z) :
  Js.parseInt (Js.Text (Js.numToString n)) = Some n.
Proof.
  destruct n as [|q|q].
  - reflexivity.
  - pose proof (parseInteger_numToString (Z.pos q)) as Hparse.
    rewrite numToString_positive in *.
    pose proof (string_of_uint_all_digits (Pos.to_uint q)) as Hall.
    unfold Js.parseInt.
    destruct (NilEmpty.string_of_uint (Pos.to_uint q)) as [|c s] eqn:E.
    + now rewrite digit_prefix_all.
    + destruct (Ascii.eqb_spec c "-") as [->|Hc].
      * unfold Js.all_digits in Hall. simpl in Hall. discriminate.
      * rewrite digit_prefix_all by exact Hall.
        destruct c as [[] [] [] [] [] [] [] []]; try exact Hparse.
        now contradiction Hc.
  - pose proof (parseInteger_numToString (Z.pos q)) as Hparse.
    rewrite numToString_positive in Hparse.
    pose proof (string_of_uint_all_digits (Pos.to_uint q)) as Hall.
    pose proof (pos_to_uint_nonnil q) as Hq.
    unfold Js.numToString, NilZero.string_of_int, NilZero.string_of_uint.
    cbn [Z.to_int]. unfold Js.parseInt.
    replace (match Pos.to_uint q with
             | Nil => "0"
             | _ => NilEmpty.string_of_uint (Pos.to_uint q)
             end) with (NilEmpty.string_of_uint (Pos.to_uint q))
      by now destruct (Pos.to_uint q).
    cbn [append]. rewrite digit_prefix_all by exact Hall.
    now rewrite Hparse.
Qed.

Lemma index_first (c : ascii) (a t : string) :
  Js.has_char c a = false ->
  index 0 (String c EmptyString) (a ++ String c t)
  = Some (String.length a).
Proof.
  assert (Hprefix : forall b s,
    prefix (String c EmptyString) (String b s) = Ascii.eqb b c).
  { intros b s. destruct (Ascii.eqb_spec b c) as [->|Hb].
    - apply prefix_correct. simpl. now destruct s.
    - destruct (prefix (String c EmptyString) (String b s)) eqn:E;
        [|reflexivity].
      apply prefix_correct in E. simpl in E. destruct s; congruence. }
  induction a as [|b a IH]; intros Ha.
  - cbn [append index]. rewrite Hprefix, Ascii.eqb_refl. reflexivity.
  - simpl in Ha. apply orb_false_elim in Ha as [Hb Hrest].
    cbn [append index]. rewrite Hprefix, Hb, (IH Hrest). reflexivity.
Qed.

Lemma substring_suffix (a t : string) :
  substring (String.length a) (String.length t) (a ++ t) = t.
Proof.
  induction a as [|b a IH]; [|exact IH].
  cbn [String.length append].
  induction t as [|c t IHt]; [reflexivity|]. simpl. now rewrite IHt.
Qed.

Lemma join_has_char (c : ascii) (pieces : list string) :
  c <> ","%char -> Forall (fun piece => Js.has_char c piece = false) pieces ->
  Js.has_char c (Js.join "," pieces) = false.
Proof.
  intros Hc. induction 1 as [|piece rest Hp _ IH]; [reflexivity|].
  unfold Js.join in *. cbn [concat].
  destruct rest as [|next rest]; [exact Hp|].
  assert (Hcomma : Ascii.eqb "," c = false)
    by (destruct (Ascii.eqb_spec "," c); congruence).
  rewrite !has_char_append, Hp, IH. cbn [Js.has_char].
  rewrite Hcomma. reflexivity.
Qed.

(** What the reroll entry reads behind the [>] of a target number
    formula. *)
Lemma formula_target (pieces : list string) (tni : Z) :
  Forall (fun piece => Js.has_char ">" piece = false) pieces ->
  let formula :=
    "{" ++ Js.join "," pieces ++ "}cs>" ++ Js.numToString tni in
  let from := Z.to_nat (indexOf ">" formula + 1) in
  Js.parseInt
    (Js.Text (substring from (String.length formula - from) formula))
  = Some tni.
Proof.
  intros Hpieces formula from.
  set (a := "{" ++ Js.join "," pieces ++ "}cs").
  assert (Ha : Js.has_char ">" a = false).
  { unfold a. cbn [append Js.has_char]. rewrite has_char_append.
    rewrite join_has_char by (try discriminate; assumption).
    reflexivity. }
  assert (E : formula = a ++ String ">" (Js.numToString tni)).
  { unfold formula, a. rewrite !append_assoc. reflexivity. }
  assert (Hfrom : from = S (String.length a)).
  { unfold from, indexOf. rewrite E, index_first by exact Ha. lia. }
  assert (E' : formula = (a ++ ">") ++ Js.numToString tni).
  { rewrite E, !append_assoc. reflexivity. }
  assert (Hlen : String.length (a ++ ">") = S (String.length a)).
  { rewrite length_append. cbn [String.length]. lia. }
  assert (Hrest : (String.length formula - from)%nat
                  = String.length (Js.numToString tni)).
  { rewrite Hfrom, <- Hlen, E', (length_append (a ++ ">")). lia. }
  rewrite Hrest, Hfrom, <- Hlen, E', substring_suffix.
  apply parseInt_numToString.
Qed.

Lemma terms_no_angle (d12 d10 d8 d6 d4 : Z) :
  Forall (fun piece => Js.has_char ">" piece = false) (terms d12 d10 d8 d6 d4).
Proof.
  unfold terms. apply Forall_forall. intros t Ht.
  apply in_map_iff in Ht as [f [<- _]]. unfold dieTerm.
  rewrite has_char_append. simpl.
  now apply numToString_has_char.
Qed.

End RollFacts.

(* ================================================================== *)
(** * Further properties of the dice rollers *)
(* ================================================================== *)

Module DiceExtras.
Import Foundry Dice Pool JsFacts DiceFacts RollFacts.

(** X1.  [rollTargetNumber] and [rollHighest] come back with null, the
    world untouched, exactly when no die count is positive: a negative
    count adds no die, as a count of zero does.  With a positive count
    both come back with a roll. *)
Theorem rollers_decline_without_dice (info : CommonSystemInfo) (i18n : I18n)
    (Actor : Type) (getMacroSpeaker : option Actor -> Speaker)
    (tni d12 d10 d8 d6 d4 : Z) (label : string)
    (rollingactor : option Actor) (sendinchat : bool) (w : World) :
  (~ nonEmpty d12 d10 d8 d6 d4 ->
   rollTargetNumber info i18n Actor getMacroSpeaker tni d12 d10 d8 d6 d4
     label rollingactor sendinchat w = (Returned None, w)
   /\ rollHighest info i18n Actor getMacroSpeaker d12 d10 d8 d6 d4
        label rollingactor sendinchat w = (Returned None, w))
  /\ (nonEmpty d12 d10 d8 d6 d4 ->
      (exists r w',
          rollTargetNumber info i18n Actor getMacroSpeaker tni d12 d10 d8 d6
            d4 label rollingactor sendinchat w = (Returned (Some r), w'))
      /\ (exists r w',
             rollHighest info i18n Actor getMacroSpeaker d12 d10 d8 d6 d4
               label rollingactor sendinchat w = (Returned (Some r), w'))).
Proof.
  split.
  - intros Hempty.
    assert (E : formRoll d12 d10 d8 d6 d4 = EmptyString).
    { rewrite formRoll_join. unfold terms.
      now rewrite (sizes_empty _ _ _ _ _ Hempty). }
    unfold rollTargetNumber, rollHighest. rewrite E. now split.
  - intros Hne. split; eexists; eexists.
    + apply rollTargetNumber_run. exact Hne.
    + apply rollHighest_run. exact Hne.
Qed.

Lemma rollers_decline_without_dice_witness :
  (rollTargetNumber Plain.info Plain.i18n string Plain.getMacroSpeaker
     3 (-2) 0 0 0 (-1) "Dodge" None true (Plain.world [4])
   = (Returned None, Plain.world [4])
   /\ rollHighest Plain.info Plain.i18n string Plain.getMacroSpeaker
        (-2) 0 0 0 (-1) "Dodge" None true (Plain.world [4])
      = (Returned None, Plain.world [4]))
  /\ exists r w',
       rollHighest Plain.info Plain.i18n string Plain.getMacroSpeaker
         (-2) 0 0 1 0 "Dodge" None true (Plain.world [4])
       = (Returned (Some r), w').
Proof.
  split.
  - apply (proj1 (rollers_decline_without_dice Plain.info Plain.i18n string
                    Plain.getMacroSpeaker 3 (-2) 0 0 0 (-1) "Dodge" None
                    true (Plain.world [4]))).
    unfold nonEmpty. lia.
  - apply (proj2 (rollers_decline_without_dice Plain.info Plain.i18n string
                    Plain.getMacroSpeaker 3 (-2) 0 0 1 0 "Dodge" None
                    true (Plain.world [4]))).
    unfold nonEmpty. lia.
Defined.

(** X2.  A target number roll of a pool that holds a die never counts
    more successes and ties together than the pool has dice, and neither
    count is negative.  Its [highest] is the largest face rolled, a face
    between 1 and 12, and the roll has a success exactly when that highest
    face is above the target number. *)
Theorem rollTargetNumber_bounds (info : CommonSystemInfo) (i18n : I18n)
    (Actor : Type) (getMacroSpeaker : option Actor -> Speaker)
    (tni d12 d10 d8 d6 d4 : Z) (label : string)
    (rollingactor : option Actor) (sendinchat : bool) (w : World) :
  nonEmpty d12 d10 d8 d6 d4 ->
  exists r w' tn,
    rollTargetNumber info i18n Actor getMacroSpeaker tni d12 d10 d8 d6 d4
      label rollingactor sendinchat w = (Returned (Some r), w')
    /\ tnData r = Some tn
    /\ 0 <= successes tn /\ 0 <= ties tn
    /\ successes tn + ties tn <= Z.of_nat (List.length (results (roll r)))
    /\ In (highest r) (results (roll r))
    /\ Forall (fun x => x <= highest r) (results (roll r))
    /\ 1 <= highest r <= 12
    /\ (0 < successes tn <-> tni < highest r).
Proof.
  intros Hne. eexists. eexists. eexists. split.
  - apply rollTargetNumber_run. exact Hne.
  - cbn [roll results poolRoll Roll.terms PoolTerm.results tnData highest
         successes ties].
    destruct (pool_faces d12 d10 d8 d6 d4 (entropy w) Hne) as [Hnil Hrange].
    pose proof (Forall_weaken_one _ _ Hrange) as Hone.
    destruct (highestOf_maximum _ Hnil Hone) as [Hin Hmax].
    destruct (above_equal_bounds tni
                (faces (sizes d12 d10 d8 d6 d4) (entropy w)))
      as [Ha [He Hsum]].
    split; [reflexivity|]. repeat split; try assumption.
    + rewrite Forall_forall in Hrange. apply (Hrange _ Hin).
    + rewrite Forall_forall in Hrange. apply (Hrange _ Hin).
    + now apply above_positive_highest.
    + now apply above_positive_highest.
Qed.

Lemma rollTargetNumber_bounds_witness :
  exists r w' tn,
    rollTargetNumber Plain.info Plain.i18n string Plain.getMacroSpeaker
      3 1 0 2 0 1 "Dodge" None true (Plain.world [6; 1; 2; 3])
    = (Returned (Some r), w')
    /\ tnData r = Some tn
    /\ 0 <= successes tn /\ 0 <= ties tn
    /\ successes tn + ties tn <= Z.of_nat (List.length (results (roll r)))
    /\ In (highest r) (results (roll r))
    /\ Forall (fun x => x <= highest r) (results (roll r))
    /\ 1 <= highest r <= 12
    /\ (0 < successes tn <-> 3 < highest r).
Proof.
  apply (rollTargetNumber_bounds Plain.info Plain.i18n string
           Plain.getMacroSpeaker 3 1 0 2 0 1 "Dodge" None true
           (Plain.world [6; 1; 2; 3])).
  unfold nonEmpty. lia.
Defined.

(** X3.  A roll of a pool takes exactly one draw from the randomness
    source for every die, whichever roller makes it.  With [sendinchat]
    set the chat log gains the message of the roll, as its last entry, and
    nothing else; without it the chat log stays as it was.  The message
    is marked as an original roll and carries the label it was given. *)
Theorem roll_draws_and_message (info : CommonSystemInfo) (i18n : I18n)
    (Actor : Type) (getMacroSpeaker : option Actor -> Speaker)
    (tni d12 d10 d8 d6 d4 : Z) (label : string)
    (rollingactor : option Actor) (sendinchat : bool) (w : World) :
  nonEmpty d12 d10 d8 d6 d4 ->
  let effect := fun (r : DiceReturn) (w' : World) =>
    entropy w' = skipn (List.length (results (roll r))) (entropy w)
    /\ List.length (results (roll r))
       = (Z.to_nat d12 + Z.to_nat d10 + Z.to_nat d8 + Z.to_nat d6
          + Z.to_nat d4)%nat
    /\ chatLog w'
       = (if sendinchat then chatLog w ++ [message r] else chatLog w)%list
    /\ isSent r = sendinchat
    /\ originalRoll (flags (message r)) = true
    /\ Foundry.label (flags (message r)) = Some label
    /\ Foundry.roll (message r) = roll r in
  (exists r w',
      rollTargetNumber info i18n Actor getMacroSpeaker tni d12 d10 d8 d6 d4
        label rollingactor sendinchat w = (Returned (Some r), w')
      /\ effect r w')
  /\ (exists r w',
         rollHighest info i18n Actor getMacroSpeaker d12 d10 d8 d6 d4
           label rollingactor sendinchat w = (Returned (Some r), w')
         /\ effect r w').
Proof.
  intros Hne effect.
  assert (Hcount : List.length (sizes d12 d10 d8 d6 d4)
                   = (Z.to_nat d12 + Z.to_nat d10 + Z.to_nat d8
                      + Z.to_nat d6 + Z.to_nat d4)%nat).
  { unfold sizes. rewrite !length_app, !repeat_length. lia. }
  split; eexists; eexists.
  - split; [apply rollTargetNumber_run; exact Hne|].
    unfold effect.
    cbn [roll results poolRoll Roll.terms PoolTerm.results message
         rollMessage flags originalRoll Foundry.label Foundry.roll isSent
         after entropy chatLog].
    rewrite faces_length, drawsLeft_skipn. now repeat split.
  - split; [apply rollHighest_run; exact Hne|].
    unfold effect.
    cbn [roll results poolRoll Roll.terms PoolTerm.results message
         rollMessage flags originalRoll Foundry.label Foundry.roll isSent
         after entropy chatLog].
    rewrite faces_length, drawsLeft_skipn. now repeat split.
Qed.

Lemma roll_draws_and_message_witness :
  exists r w',
    rollHighest Plain.info Plain.i18n string Plain.getMacroSpeaker
      1 0 1 0 0 "Search" None true (Plain.world [4; 0; 7; 2])
    = (Returned (Some r), w')
    /\ entropy w' = [7; 2]
    /\ chatLog w' = [message r].
Proof.
  assert (Hne : nonEmpty 1 0 1 0 0) by (unfold nonEmpty; lia).
  destruct (proj2 (roll_draws_and_message Plain.info Plain.i18n string
                     Plain.getMacroSpeaker 0 1 0 1 0 0 "Search" None true
                     (Plain.world [4; 0; 7; 2]) Hne))
    as [r [w' [Hrun [Hdraws [Hlen [Hchat _]]]]]].
  exists r, w'. split; [exact Hrun|]. split.
  - rewrite Hdraws, Hlen. reflexivity.
  - exact Hchat.
Defined.

(** X4.  [rollHighest] of a pool that holds a die comes back without
    target number data and with the largest face rolled as [highest]: a
    face of the roll, between 1 and 12, that no face exceeds, and the total
    of the roll.  It is 1 exactly when every die shows a one, and the
    [hasOne] flag of the message is raised exactly when some die does. *)
Theorem rollHighest_maximum (info : CommonSystemInfo) (i18n : I18n)
    (Actor : Type) (getMacroSpeaker : option Actor -> Speaker)
    (d12 d10 d8 d6 d4 : Z) (label : string)
    (rollingactor : option Actor) (sendinchat : bool) (w : World) :
  nonEmpty d12 d10 d8 d6 d4 ->
  exists r w',
    rollHighest info i18n Actor getMacroSpeaker d12 d10 d8 d6 d4
      label rollingactor sendinchat w = (Returned (Some r), w')
    /\ tnData r = None
    /\ highest r = Roll.total (roll r)
    /\ In (highest r) (results (roll r))
    /\ Forall (fun x => x <= highest r) (results (roll r))
    /\ 1 <= highest r <= 12
    /\ (highest r = 1 <-> Forall (fun x => x = 1) (results (roll r)))
    /\ (hasOne (flags (message r)) = true
        <-> exists x, In x (results (roll r)) /\ x = 1).
Proof.
  intros Hne. eexists. eexists. split.
  - apply rollHighest_run. exact Hne.
  - cbn [roll results poolRoll Roll.terms PoolTerm.results tnData highest
         Roll.total message rollMessage flags hasOne].
    destruct (pool_faces d12 d10 d8 d6 d4 (entropy w) Hne) as [Hnil Hrange].
    pose proof (Forall_weaken_one _ _ Hrange) as Hone.
    rewrite (keepHighest_highestOf _ Hone).
    destruct (highestOf_maximum _ Hnil Hone) as [Hin Hmax].
    split; [reflexivity|]. split; [reflexivity|].
    split; [exact Hin|]. split; [exact Hmax|].
    split; [rewrite Forall_forall in Hrange; apply (Hrange _ Hin)|].
    split.
    + rewrite <- (highest_one_iff _ Hnil Hone). symmetry. apply Z.eqb_eq.
    + rewrite existsb_exists. split.
      * intros [x [Hx E]]. exists x. now apply Z.eqb_eq in E.
      * intros [x [Hx E]]. exists x. split; [exact Hx | now apply Z.eqb_eq].
Qed.

Lemma rollHighest_maximum_witness :
  exists r w',
    rollHighest Plain.info Plain.i18n string Plain.getMacroSpeaker
      1 0 1 0 2 "Search" None true (Plain.world [4; 0; 7; 2])
    = (Returned (Some r), w')
    /\ tnData r = None
    /\ highest r = Roll.total (roll r)
    /\ In (highest r) (results (roll r))
    /\ Forall (fun x => x <= highest r) (results (roll r))
    /\ 1 <= highest r <= 12
    /\ (highest r = 1 <-> Forall (fun x => x = 1) (results (roll r)))
    /\ (hasOne (flags (message r)) = true
        <-> exists x, In x (results (roll r)) /\ x = 1).
Proof.
  apply (rollHighest_maximum Plain.info Plain.i18n string
           Plain.getMacroSpeaker 1 0 1 0 2 "Search" None true
           (Plain.world [4; 0; 7; 2])).
  unfold nonEmpty. lia.
Defined.

(** X5.  A plain copy of a roll message never rolls again: whatever the
    prior roll was made of, [copyToRollTN] and [copyToRollHighest] without
    [rerollone] come back with the prior die results, in their order, take
    no draw from the randomness source and keep the speaker of the prior
    message.  Only the summary is counted anew: the successes and ties
    against the target number given, or the highest result. *)
Theorem copy_keeps_results (info : CommonSystemInfo) (i18n : I18n)
    (tni : Z) (prior : ChatMessage) (ts : list string) (rs : list Z)
    (more : list PoolTerm.t) (label : string) (sendinchat : bool)
    (w : World) :
  isRollMessage prior = true ->
  Foundry.label (flags prior) = Some label ->
  Roll.terms (Foundry.roll prior)
  = {| PoolTerm.terms := ts; PoolTerm.results := rs |} :: more ->
  rs <> [] ->
  (exists r w',
      copyToRollTN info i18n tni (Some prior) sendinchat false w
      = (Returned (Some r), w')
      /\ results (roll r) = rs
      /\ tnData r = Some {| successes := above tni rs;
                            ties := equal tni rs |}
      /\ highest r = highestOf rs
      /\ entropy w' = entropy w
      /\ speaker (message r) = speaker prior
      /\ chatLog w'
         = (if sendinchat then chatLog w ++ [message r] else chatLog w)%list)
  /\ (exists r w',
         copyToRollHighest info i18n (Some prior) sendinchat false w
         = (Returned (Some r), w')
         /\ results (roll r) = rs
         /\ tnData r = None
         /\ highest r = keepHighest rs
         /\ entropy w' = entropy w
         /\ speaker (message r) = speaker prior
         /\ chatLog w'
            = (if sendinchat then chatLog w ++ [message r]
               else chatLog w)%list).
Proof.
  intros Hroll Hlabel Hterms Hne.
  set (p := {| PoolTerm.terms := ts; PoolTerm.results := rs |}) in *.
  assert (Hpieces : copiedPieces false p <> [])
    by (unfold copiedPieces, p; cbn [PoolTerm.results];
        destruct rs; [easy | discriminate]).
  assert (Hclean : Forall clean (copiedPieces false p))
    by apply Forall_clean_numbers.
  assert (Hes : parseEntries (copiedPieces false p)
                = Some (map NumberEntry rs))
    by apply parseEntries_numbers.
  split; eexists; eexists.
  - split.
    + exact (copyToRollTN_run info i18n tni prior p more label sendinchat
               false w _ Hroll Hlabel Hterms Hpieces Hclean Hes).
    + rewrite evaluateEntries_numbers.
      cbn [roll results poolRoll Roll.terms PoolTerm.results tnData highest
           message rollMessage speaker after entropy chatLog fst snd].
      now repeat split.
  - split.
    + exact (copyToRollHighest_run info i18n prior p more label sendinchat
               false w _ Hroll Hlabel Hterms Hpieces Hclean Hes).
    + rewrite evaluateEntries_numbers.
      cbn [roll results poolRoll Roll.terms PoolTerm.results tnData highest
           message rollMessage speaker after entropy chatLog fst snd].
      now repeat split.
Qed.

Lemma copy_keeps_results_witness :
  exists r w',
    copyToRollTN Plain.info Plain.i18n 5 (Some Plain.dodge) true false
      (Plain.world [9]) = (Returned (Some r), w')
    /\ results (roll r) = [6; 1; 3]
    /\ tnData r = Some {| successes := 1; ties := 0 |}
    /\ entropy w' = [9].
Proof.
  destruct (proj1 (copy_keeps_results Plain.info Plain.i18n 5 Plain.dodge
                     ["1d12"; "1d8"; "1d4"] [6; 1; 3] [] "Dodge" true
                     (Plain.world [9]) eq_refl eq_refl eq_refl
                     ltac:(discriminate)))
    as [r [w' [Hrun [Hrs [Htn [_ [Hdraws _]]]]]]].
  exists r, w'. repeat split; assumption.
Defined.

(** X6.  Copying a target number roll back under its own target number
    reproduces its successes, its ties and its highest die, and copying it
    as a highest roll gives the same highest die: the summaries of a roll
    and of its copies agree. *)
Theorem copy_of_roll_agrees (info : CommonSystemInfo) (i18n : I18n)
    (Actor : Type) (getMacroSpeaker : option Actor -> Speaker)
    (tni d12 d10 d8 d6 d4 : Z) (label : string)
    (rollingactor : option Actor) (sendinchat resend : bool)
    (w later : World) :
  nonEmpty d12 d10 d8 d6 d4 ->
  exists r w',
    rollTargetNumber info i18n Actor getMacroSpeaker tni d12 d10 d8 d6 d4
      label rollingactor sendinchat w = (Returned (Some r), w')
    /\ (exists c w'',
           copyToRollTN info i18n tni (Some (message r)) resend false later
           = (Returned (Some c), w'')
           /\ results (roll c) = results (roll r)
           /\ tnData c = tnData r
           /\ highest c = highest r)
    /\ (exists c w'',
           copyToRollHighest info i18n (Some (message r)) resend false later
           = (Returned (Some c), w'')
           /\ results (roll c) = results (roll r)
           /\ highest c = highest r).
Proof.
  intros Hne. eexists. eexists. split.
  - apply rollTargetNumber_run. exact Hne.
  - destruct (pool_faces d12 d10 d8 d6 d4 (entropy w) Hne) as [Hnil Hrange].
    pose proof (Forall_weaken_one _ _ Hrange) as Hone.
    set (rs := faces (sizes d12 d10 d8 d6 d4) (entropy w)) in *.
    set (p := {| PoolTerm.terms := terms d12 d10 d8 d6 d4;
                 PoolTerm.results := rs |}).
    assert (Hpieces : copiedPieces false p <> [])
      by (unfold copiedPieces, p; cbn [PoolTerm.results];
          destruct rs; [easy | discriminate]).
    assert (Hclean : Forall clean (copiedPieces false p))
      by apply Forall_clean_numbers.
    assert (Hes : parseEntries (copiedPieces false p)
                  = Some (map NumberEntry rs))
      by apply parseEntries_numbers.
    match goal with
    | |- context [copyToRollTN _ _ _ (Some ?m)] => set (prior := m)
    end.
    split; eexists; eexists.
    + split.
      * exact (copyToRollTN_run info i18n tni prior p [] label resend
                 false later _ eq_refl eq_refl eq_refl Hpieces Hclean Hes).
      * rewrite evaluateEntries_numbers.
        cbn [roll results poolRoll Roll.terms PoolTerm.results tnData
             highest fst snd].
        now repeat split.
    + split.
      * exact (copyToRollHighest_run info i18n prior p [] label resend
                 false later _ eq_refl eq_refl eq_refl Hpieces Hclean Hes).
      * rewrite evaluateEntries_numbers.
        cbn [roll results poolRoll Roll.terms PoolTerm.results tnData
             highest fst snd].
        split; [reflexivity|]. now apply keepHighest_highestOf.
Qed.

Lemma copy_of_roll_agrees_witness :
  exists r w',
    rollTargetNumber Plain.info Plain.i18n string Plain.getMacroSpeaker
      3 1 0 1 0 1 "Dodge" None true (Plain.world [5; 0; 2])
    = (Returned (Some r), w')
    /\ exists c w'',
         copyToRollHighest Plain.info Plain.i18n (Some (message r)) true
           false w' = (Returned (Some c), w'')
         /\ results (roll c) = results (roll r)
         /\ highest c = highest r.
Proof.
  assert (Hne : nonEmpty 1 0 1 0 1) by (unfold nonEmpty; lia).
  destruct (copy_of_roll_agrees Plain.info Plain.i18n string
              Plain.getMacroSpeaker 3 1 0 1 0 1 "Dodge" None true true
              (Plain.world [5; 0; 2])
              (Pool.after (Plain.world [5; 0; 2]) [] Plain.dodge true) Hne)
    as [r [w' [Hrun [_ Hhigh]]]].
  exists r, w'. split; [exact Hrun|].
  assert (E : w' = Pool.after (Plain.world [5; 0; 2]) [] Plain.dodge true).
  { assert (Hc : rollTargetNumber Plain.info Plain.i18n string
                   Plain.getMacroSpeaker 3 1 0 1 0 1 "Dodge" None true
                   (Plain.world [5; 0; 2])
                 = (Returned (Some (Build_DiceReturn
                                      (Foundry.roll Plain.dodge) 6
                                      (Some {| successes := 1; ties := 1 |})
                                      Plain.dodge true)),
                    Pool.after (Plain.world [5; 0; 2]) [] Plain.dodge true))
      by (vm_compute; reflexivity).
    rewrite Hc in Hrun. now injection Hrun. }
  rewrite E. exact Hhigh.
Defined.

(** X7.  The copying rollers give up, answering undefined and leaving the
    randomness source and the chat log as they were, when there is no
    message, when the message is not a roll message, when its roll has no
    die result to copy, or when it carries no label; with [rerollone] set
    as without. *)
Theorem copy_gives_up (info : CommonSystemInfo) (i18n : I18n) (tni : Z)
    (sendinchat rerollone : bool) (w : World) :
  copyToRollTN info i18n tni None sendinchat rerollone w = (Returned None, w)
  /\ copyToRollHighest info i18n None sendinchat rerollone w
     = (Returned None, w)
  /\ forall prior,
       isRollMessage prior = false
       \/ results (Foundry.roll prior) = []
       \/ Foundry.label (flags prior) = None ->
       copyToRollTN info i18n tni (Some prior) sendinchat rerollone w
       = (Returned None, w)
       /\ copyToRollHighest info i18n (Some prior) sendinchat rerollone w
          = (Returned None, w).
Proof.
  split; [reflexivity|]. split; [reflexivity|].
  intros prior H. unfold copyToRollTN, copyToRollHighest.
  destruct (isRollMessage prior) eqn:Hroll; [|now split].
  cbn [negb]. unfold bind.
  pose proof (copy_formula_pure rerollone (Foundry.roll prior) w) as Hcopy.
  destruct rerollone; rewrite Hcopy; clear Hcopy.
  all: destruct H as [H | [H | H]]; try discriminate.
  all: unfold results in *.
  all: destruct (Roll.terms (Foundry.roll prior)) as [|p more];
    [now split|].
  all: try (unfold copiedPieces; rewrite H; now split).
  all: rewrite H;
    destruct (String.length (Js.join "," (copiedPieces _ p)) =? 0)%nat;
    now split.
Qed.

Lemma copy_gives_up_witness :
  copyToRollTN Plain.info Plain.i18n 3
    (Some {| isRollMessage := false; speaker := speaker Plain.dodge;
             flavor := flavor Plain.dodge; flags := flags Plain.dodge;
             Foundry.roll := Foundry.roll Plain.dodge |})
    true true (Plain.world [4])
  = (Returned None, Plain.world [4]).
Proof.
  apply (proj2 (proj2 (copy_gives_up Plain.info Plain.i18n 3 true true
                         (Plain.world [4])))).
  left. reflexivity.
Defined.

(** X8.  The reroll entry of the chat menu is offered on the message of a
    fresh roll exactly when one of its dice shows a one, and never on a
    message that [copyToRollTN] or [copyToRollHighest] produced: a copy or
    a reroll cannot be rerolled again, whatever it shows. *)
Theorem reroll_offered_once (info : CommonSystemInfo) (i18n : I18n)
    (Actor : Type) (getMacroSpeaker : option Actor -> Speaker)
    (tni d12 d10 d8 d6 d4 : Z) (label : string)
    (rollingactor : option Actor) (sendinchat : bool) (w : World) :
  nonEmpty d12 d10 d8 d6 d4 ->
  (exists r w',
      rollTargetNumber info i18n Actor getMacroSpeaker tni d12 d10 d8 d6 d4
        label rollingactor sendinchat w = (Returned (Some r), w')
      /\ (rerollOneAllowed (message r) = true
          <-> In 1 (results (roll r))))
  /\ (exists r w',
         rollHighest info i18n Actor getMacroSpeaker d12 d10 d8 d6 d4
           label rollingactor sendinchat w = (Returned (Some r), w')
         /\ (rerollOneAllowed (message r) = true
             <-> In 1 (results (roll r))))
  /\ (forall tn prior send rerollone w0 c w1,
         copyToRollTN info i18n tn prior send rerollone w0
         = (Returned (Some c), w1) ->
         rerollOneAllowed (message c) = false)
  /\ (forall prior send rerollone w0 c w1,
         copyToRollHighest info i18n prior send rerollone w0
         = (Returned (Some c), w1) ->
         rerollOneAllowed (message c) = false).
Proof.
  intros Hne.
  assert (Hsome : forall rs : list Z,
    existsb (fun x => x =? 1) rs = true <-> In 1 rs).
  { intros rs. rewrite existsb_exists. split.
    - intros [x [Hin Hx]]. apply Z.eqb_eq in Hx. now subst.
    - intros Hin. exists 1. now split. }
  split; [|split; [|split]].
  - eexists. eexists. split; [now apply rollTargetNumber_run|].
    unfold rerollOneAllowed.
    cbn [message rollMessage isRollMessage flags originalRoll Foundry.hasOne
         roll results poolRoll Roll.terms PoolTerm.results andb].
    apply Hsome.
  - eexists. eexists. split; [now apply rollHighest_run|].
    unfold rerollOneAllowed.
    cbn [message rollMessage isRollMessage flags originalRoll Foundry.hasOne
         roll results poolRoll Roll.terms PoolTerm.results andb].
    apply Hsome.
  - intros tn prior send rerollone w0 c w1 H.
    unfold copyToRollTN in H. destruct prior as [prior|]; [|discriminate].
    destruct (isRollMessage prior); cbn [negb] in H; [|discriminate].
    unfold bind in H.
    pose proof (copy_formula_pure rerollone (Foundry.roll prior) w0)
      as Hcopy.
    destruct rerollone; rewrite Hcopy in H; clear Hcopy.
    all: destruct (String.length _ =? 0)%nat; [discriminate|].
    all: destruct (Foundry.label (flags prior)); [|discriminate].
    all: destruct (evaluate _ w0) as [[rolled|] w2]; [|discriminate].
    all: destruct (firstTerm rolled w2) as [[p|] w3]; [|discriminate].
    all: destruct (scanResults tn (PoolTerm.results p)) as [[h t] o].
    all: unfold toMessage, ret in H; injection H as <- _.
    all: unfold rerollOneAllowed; cbn [message flags originalRoll].
    all: now rewrite andb_false_r.
  - intros prior send rerollone w0 c w1 H.
    unfold copyToRollHighest in H.
    destruct prior as [prior|]; [|discriminate].
    destruct (isRollMessage prior); cbn [negb] in H; [|discriminate].
    unfold bind in H.
    pose proof (copy_formula_pure rerollone (Foundry.roll prior) w0)
      as Hcopy.
    destruct rerollone; rewrite Hcopy in H; clear Hcopy.
    all: destruct (String.length _ =? 0)%nat; [discriminate|].
    all: destruct (Foundry.label (flags prior)); [|discriminate].
    all: destruct (evaluate _ w0) as [[rolled|] w2]; [|discriminate].
    all: destruct (firstTerm rolled w2) as [[p|] w3]; [|discriminate].
    all: unfold toMessage, ret in H; injection H as <- _.
    all: unfold rerollOneAllowed; cbn [message flags originalRoll].
    all: now rewrite andb_false_r.
Qed.

Lemma reroll_offered_once_witness :
  exists r w',
    rollTargetNumber Plain.info Plain.i18n string Plain.getMacroSpeaker
      3 1 0 1 0 1 "Dodge" None true (Plain.world [5; 0; 2])
    = (Returned (Some r), w')
    /\ (rerollOneAllowed (message r) = true <-> In 1 (results (roll r))).
Proof.
  apply (reroll_offered_once Plain.info Plain.i18n string
           Plain.getMacroSpeaker 3 1 0 1 0 1 "Dodge" None true
           (Plain.world [5; 0; 2])).
  unfold nonEmpty. lia.
Defined.

(** X9.  The reroll entry of the chat menu, chosen on the message of a
    target number roll, rerolls against the target number of that roll,
    which it reads back from the formula of the roll; chosen on the message
    of a highest roll it rerolls as a highest roll.  Either way the new
    message is sent to the chat. *)
Theorem rerollOneCallback_same_target (info : CommonSystemInfo)
    (i18n : I18n) (Actor : Type) (getMacroSpeaker : option Actor -> Speaker)
    (tni d12 d10 d8 d6 d4 : Z) (label : string)
    (rollingactor : option Actor) (sendinchat : bool) (w : World) :
  nonEmpty d12 d10 d8 d6 d4 ->
  (exists r w',
      rollTargetNumber info i18n Actor getMacroSpeaker tni d12 d10 d8 d6 d4
        label rollingactor sendinchat w = (Returned (Some r), w')
      /\ forall later,
           rerollOneCallback info i18n (message r) later
           = copyToRollTN info i18n tni (Some (message r)) true true later)
  /\ (exists r w',
         rollHighest info i18n Actor getMacroSpeaker d12 d10 d8 d6 d4
           label rollingactor sendinchat w = (Returned (Some r), w')
         /\ forall later,
              rerollOneCallback info i18n (message r) later
              = copyToRollHighest info i18n (Some (message r)) true true
                  later).
Proof.
  intros Hne. split.
  - eexists. eexists. split; [now apply rollTargetNumber_run|].
    intros later. unfold rerollOneCallback.
    cbn [message rollMessage flags rollType Foundry.roll poolRoll
         Roll.formula].
    change (String.eqb "TN" "TN") with true. cbv iota.
    rewrite formRoll_join by exact Hne.
    rewrite (formula_target (terms d12 d10 d8 d6 d4) tni
               (terms_no_angle d12 d10 d8 d6 d4)).
    reflexivity.
  - eexists. eexists. split; [now apply rollHighest_run|].
    intros later. reflexivity.
Qed.

Lemma rerollOneCallback_same_target_witness :
  exists r w',
    rollTargetNumber Plain.info Plain.i18n string Plain.getMacroSpeaker
      3 1 0 1 0 1 "Dodge" None true (Plain.world [5; 0; 2])
    = (Returned (Some r), w')
    /\ forall later,
         rerollOneCallback Plain.info Plain.i18n (message r) later
         = copyToRollTN Plain.info Plain.i18n 3 (Some (message r)) true true
             later.
Proof.
  apply (rerollOneCallback_same_target Plain.info Plain.i18n string
           Plain.getMacroSpeaker 3 1 0 1 0 1 "Dodge" None true
           (Plain.world [5; 0; 2])).
  unfold nonEmpty. lia.
Defined.

(** X10.  Rerolling the first one of a pool of dice takes exactly one draw
    from the randomness source, puts a face of the die of that position in
    the place of the one and never makes the roll worse: the number of
    dice stays, the successes against the target number do not drop and
    neither does the highest die. *)
Theorem reroll_never_worse (info : CommonSystemInfo) (i18n : I18n)
    (tni : Z) (prior : ChatMessage) (fs rs : list Z)
    (more : list PoolTerm.t) (label : string) (sendinchat : bool)
    (w : World) (k : nat) :
  isRollMessage prior = true ->
  Foundry.label (flags prior) = Some label ->
  Roll.terms (Foundry.roll prior)
  = {| PoolTerm.terms := map dieTerm fs; PoolTerm.results := rs |} :: more ->
  List.length rs = List.length fs ->
  Forall (fun f => 0 < f) fs ->
  firstOne rs = Some k ->
  exists r w' face,
    copyToRollTN info i18n tni (Some prior) sendinchat true w
    = (Returned (Some r), w')
    /\ 1 <= face <= nth k fs 0
    /\ results (roll r) = replaceAt k face rs
    /\ List.length (results (roll r)) = List.length rs
    /\ tnData r = Some {| successes := above tni (results (roll r));
                          ties := equal tni (results (roll r)) |}
    /\ above tni rs <= above tni (results (roll r))
    /\ highestOf rs <= highest r
    /\ entropy w' = skipn 1 (entropy w).
Proof.
  intros Hroll Hlabel Hterms Hlen Hpos Hk.
  set (p := {| PoolTerm.terms := map dieTerm fs; PoolTerm.results := rs |})
    in *.
  set (f := nth k fs 0).
  destruct (firstOne_some rs k Hk) as [Hlt [Hone _]].
  assert (Hf : 0 < f).
  { unfold f. rewrite Forall_forall in Hpos. apply Hpos, nth_In. lia. }
  assert (Hpieces : copiedPieces true p
                    = replaceAt k (dieTerm f) (map Js.numToString rs)).
  { unfold p. rewrite copiedPieces_reroll by exact Hlen. now rewrite Hk. }
  assert (Hne : copiedPieces true p <> [])
    by (rewrite Hpieces; unfold replaceAt; now destruct (firstn k _)).
  assert (Hclean : Forall clean (copiedPieces true p))
    by (rewrite Hpieces; apply Forall_clean_replaced).
  assert (Hes : parseEntries (copiedPieces true p)
                = Some (replaceAt k (DiceEntry 1 f) (map NumberEntry rs)))
    by (rewrite Hpieces; apply parseEntries_replaced).
  pose proof (rollDie_range f (entropy w) Hf) as Hface.
  assert (Hle : Forall2 Z.le rs
                  (replaceAt k (fst (rollDie f (entropy w))) rs))
    by (apply replaceAt_pointwise; [exact Hlt | lia]).
  eexists. eexists. exists (fst (rollDie f (entropy w))). split.
  - exact (copyToRollTN_run info i18n tni prior p more label sendinchat
             true w _ Hroll Hlabel Hterms Hne Hclean Hes).
  - rewrite evaluateEntries_replaced.
    cbn [roll results poolRoll Roll.terms PoolTerm.results tnData highest
         after entropy fst snd].
    split; [exact Hface|]. split; [reflexivity|].
    split; [now apply replaceAt_length|]. split; [reflexivity|].
    split; [now apply above_monotone|].
    split; [|apply rollDie_draws].
    unfold highestOf. apply fold_max_monotone; [exact Hle | lia].
Qed.

Lemma reroll_never_worse_witness :
  exists r w' face,
    copyToRollTN Plain.info Plain.i18n 3 (Some Plain.dodge) true true
      (Plain.world [10]) = (Returned (Some r), w')
    /\ 1 <= face <= 8
    /\ results (roll r) = [6; face; 3]
    /\ above 3 [6; 1; 3] <= above 3 (results (roll r))
    /\ entropy w' = [].
Proof.
  destruct (reroll_never_worse Plain.info Plain.i18n 3 Plain.dodge
              [12; 8; 4] [6; 1; 3] [] "Dodge" true (Plain.world [10]) 1%nat
              eq_refl eq_refl eq_refl eq_refl
              ltac:(repeat constructor) eq_refl)
    as [r [w' [face [Hrun [Hface [Hrs [_ [_ [Hup [_ Hdraws]]]]]]]]]].
  exists r, w', face. repeat split; try assumption; apply Hface.
Defined.

End DiceExtras.

(* ================================================================== *)
(** * Further facts about the combat tracker *)
(* ================================================================== *)

Module TrackerFacts.
Import Foundry Combat Encounter Tracker.

(** ** Distances *)

Lemma Qltb_lt (a b : Q) : Qltb a b = true <-> (a < b)%Q.
Proof.
  unfold Qltb. rewrite negb_true_iff. split.
  - intros H. apply Qnot_le_lt. intros Hle.
    apply Qle_bool_iff in Hle. congruence.
  - intros H. destruct (Qle_bool b a) eqn:E; [|reflexivity].
    apply Qle_bool_iff in E. now apply Qlt_not_le in H.
Qed.

Lemma Qltb_ge (a b : Q) : Qltb a b = false <-> (b <= a)%Q.
Proof.
  unfold Qltb. rewrite negb_false_iff. apply Qle_bool_iff.
Qed.

Lemma Qle_bool_below (k d d' : Q) :
  (d <= d')%Q -> Qle_bool d' k = true -> Qle_bool d k = true.
Proof.
  intros Hle H. apply Qle_bool_iff. apply Qle_bool_iff in H.
  now apply Qle_trans with d'.
Qed.

Lemma getDistanceTN_range (d : Q) : 2 <= getDistanceTN d <= 6.
Proof.
  unfold getDistanceTN.
  destruct (Qle_bool d 4), (Qle_bool d 12), (Qle_bool d 36),
    (Qle_bool d 100); lia.
Qed.

Lemma getDistanceTN_le (d d' : Q) :
  (d <= d')%Q -> getDistanceTN d <= getDistanceTN d'.
Proof.
  intros Hle. unfold getDistanceTN.
  destruct (Qle_bool d' 4) eqn:A4;
    [rewrite (Qle_bool_below 4 d d' Hle A4); lia|].
  destruct (Qle_bool d' 12) eqn:A12;
    [rewrite (Qle_bool_below 12 d d' Hle A12);
     destruct (Qle_bool d 4); lia|].
  destruct (Qle_bool d' 36) eqn:A36;
    [rewrite (Qle_bool_below 36 d d' Hle A36);
     destruct (Qle_bool d 4), (Qle_bool d 12); lia|].
  destruct (Qle_bool d' 100) eqn:A100;
    [rewrite (Qle_bool_below 100 d d' Hle A100);
     destruct (Qle_bool d 4), (Qle_bool d 12), (Qle_bool d 36); lia|].
  destruct (Qle_bool d 4), (Qle_bool d 12), (Qle_bool d 36),
    (Qle_bool d 100); lia.
Qed.

Section Closest.

Variable measureDistance : option TokenData -> option TokenData -> Q.
Variable own : Token.

Let step := closestStep measureDistance own.

Lemma closestStep_le (d : Q) (x : Combatant) : (step d x <= d)%Q.
Proof.
  unfold step, closestStep. destruct (token x) as [o|]; [|apply Qle_refl].
  destruct (Qltb _ d) eqn:E; [|apply Qle_refl].
  apply Qlt_le_weak. now apply Qltb_lt.
Qed.

Lemma closestStep_measured (d : Q) (x : Combatant) (o : Token) :
  token x = Some o ->
  (step d x <= measureDistance (data own) (data o))%Q.
Proof.
  intros Ho. unfold step, closestStep. rewrite Ho.
  destruct (Qltb _ d) eqn:E; [apply Qle_refl | now apply Qltb_ge].
Qed.

Lemma closest_le (l : list Combatant) (d : Q) :
  (fold_left step l d <= d)%Q.
Proof.
  revert d. induction l as [|x l IH]; intros d; [apply Qle_refl|].
  cbn [fold_left]. eapply Qle_trans; [apply IH | apply closestStep_le].
Qed.

Lemma closest_measured (l : list Combatant) (d : Q) (x : Combatant)
    (o : Token) :
  In x l -> token x = Some o ->
  (fold_left step l d <= measureDistance (data own) (data o))%Q.
Proof.
  revert d. induction l as [|y l IH]; intros d Hin Ho; [easy|].
  cbn [fold_left]. destruct Hin as [-> | Hin].
  - eapply Qle_trans; [apply closest_le | now apply closestStep_measured].
  - now apply IH.
Qed.

Lemma closest_attained (l : list Combatant) (d : Q) :
  fold_left step l d = d
  \/ exists x o, In x l /\ token x = Some o
                 /\ fold_left step l d
                    = measureDistance (data own) (data o).
Proof.
  revert d. induction l as [|y l IH]; intros d; [now left|].
  cbn [fold_left]. destruct (IH (step d y)) as [E | [x [o [Hin [Ho E]]]]].
  - rewrite E. unfold step, closestStep.
    destruct (token y) as [o|] eqn:Ho; [|now left].
    destruct (Qltb _ d); [|now left].
    right. exists y, o. repeat split; [now left | exact Ho].
  - right. exists x, o. repeat split; [now right | exact Ho | exact E].
Qed.

End Closest.

(** ** Updates *)

Lemma applyUpdate_frame (cs : list Combatant) (u : Update) :
  map frame (applyUpdate cs u) = map frame cs.
Proof.
  unfold applyUpdate. rewrite map_map. apply map_ext. intros c.
  now destruct (String.eqb (id c) (_id u)).
Qed.

Lemma updateEmbeddedDocuments_frame (updates : list Update)
    (cs : list Combatant) :
  map frame (updateEmbeddedDocuments cs updates) = map frame cs.
Proof.
  unfold updateEmbeddedDocuments. revert cs.
  induction updates as [|u updates IH]; intros cs; [reflexivity|].
  cbn [fold_left]. now rewrite IH, applyUpdate_frame.
Qed.

Lemma applyUpdate_other (cs : list Combatant) (u : Update) (n : nat)
    (c : Combatant) :
  nth_error cs n = Some c -> id c <> _id u ->
  nth_error (applyUpdate cs u) n = Some c.
Proof.
  intros Hn Hid. unfold applyUpdate. rewrite nth_error_map, Hn.
  cbn [option_map]. now destruct (String.eqb_spec (id c) (_id u)).
Qed.

Lemma updateEmbeddedDocuments_other (updates : list Update)
    (cs : list Combatant) (n : nat) (c : Combatant) :
  nth_error cs n = Some c ->
  Forall (fun u => id c <> _id u) updates ->
  nth_error (updateEmbeddedDocuments cs updates) n = Some c.
Proof.
  unfold updateEmbeddedDocuments. intros Hn Hall. revert cs Hn.
  induction Hall as [|u updates Hu _ IH]; intros cs Hn; [exact Hn|].
  cbn [fold_left]. apply IH. now apply applyUpdate_other.
Qed.

Section Rolls.

Variable measureDistance : option TokenData -> option TokenData -> Q.
Variable getInitiativeRollIronclaw : Combatant -> Z -> Host Dice.DiceReturn.

Let rollOne := rollOne measureDistance getInitiativeRollIronclaw.
Let rollEach := rollEach measureDistance getInitiativeRollIronclaw.

Lemma rollOne_updates (all : list Combatant) (settings : option Settings)
    (updates updates' : list Update) (cid : string) (w w' : World) :
  rollOne all settings updates cid w = (Returned updates', w') ->
  updates' = updates
  \/ exists u, updates' = (updates ++ [u])%list /\ _id u = cid.
Proof.
  unfold rollOne, Combat.rollOne.
  destruct (find _ all) as [c|]; [|intros [= <- _]; now left].
  destruct (isOwner c); cbn [negb]; [|intros [= <- _]; now left].
  unfold bind.
  destruct (getInitiativeRollIronclaw c _ w) as [[r|] w1]; [|discriminate].
  destruct (token c) as [t|]; unfold ret, throw; [|discriminate].
  intros [= <- _]. right. eexists. split; reflexivity.
Qed.

Lemma rollEach_updates (all : list Combatant) (settings : option Settings)
    (ids : list string) (updates updates' : list Update) (w w' : World) :
  rollEach all settings updates ids w = (Returned updates', w') ->
  Forall (fun u => In u updates \/ In (_id u) ids) updates'.
Proof.
  revert updates w. induction ids as [|cid ids IH]; intros updates w.
  - intros [= <- _]. apply Forall_forall. intros u Hu. now left.
  - unfold rollEach. cbn [Combat.rollEach]. unfold bind.
    destruct (Combat.rollOne _ _ all settings updates cid w)
      as [[updates1|] w1] eqn:E; [|discriminate].
    intros Hrest. apply IH in Hrest.
    apply rollOne_updates in E.
    eapply Forall_impl; [|exact Hrest]. intros u [Hu | Hu].
    + destruct E as [-> | [v [-> Hv]]]; [now left|].
      apply in_app_iff in Hu as [Hu | [<- | []]]; [now left|].
      right. left. now symmetry.
    + right. now right.
Qed.

Lemma rollEach_skips (all : list Combatant) (settings : option Settings)
    (ids : list string) (updates : list Update) (w : World) :
  Forall (fun cid =>
            match find (fun c => String.eqb (id c) cid) all with
            | Some c => isOwner c = false
            | None => True
            end) ids ->
  rollEach all settings updates ids w = (Returned updates, w).
Proof.
  induction 1 as [|cid ids Hcid _ IH]; [reflexivity|].
  unfold rollEach. cbn [Combat.rollEach]. unfold bind, Combat.rollOne.
  destruct (find _ all) as [c|]; [rewrite Hcid|]; exact IH.
Qed.

End Rolls.

(** ** The tie-breaker *)

Lemma tieBreaker_fold (highest bound : Z) (dice : list Z) (skipped : bool)
    (decimals : Z) :
  Forall (fun d => d < bound) dice -> decimals < bound ->
  decimals <= snd (fold_left (tieBreakStep highest) dice
                     (skipped, decimals)) < bound.
Proof.
  intros Hall. revert skipped decimals.
  induction Hall as [|d dice Hd _ IH]; intros skipped decimals Hdec.
  - cbn [fold_left snd]. lia.
  - cbn [fold_left].
    change (tieBreakStep highest (skipped, decimals) d)
      with (if negb skipped && (d =? highest) then (true, decimals)
            else (skipped, if decimals <? d then d else decimals)).
    destruct (negb skipped && (d =? highest)).
    + now apply IH.
    + destruct (Z.ltb_spec decimals d).
      * specialize (IH skipped d Hd). lia.
      * now apply IH.
Qed.

Lemma tieBreakStep_skipped (highest : Z) (dice : list Z) (decimals : Z) :
  snd (fold_left (tieBreakStep highest) dice (true, decimals))
  = fold_left Z.max dice decimals.
Proof.
  revert decimals. induction dice as [|d dice IH]; intros decimals;
    [reflexivity|].
  cbn [fold_left].
  change (tieBreakStep highest (true, decimals) d)
    with (true, if decimals <? d then d else decimals).
  rewrite IH. f_equal. destruct (Z.ltb_spec decimals d); lia.
Qed.

(** The loop sets aside the first die that shows the highest and keeps the
    largest of the others. *)
Lemma tieBreaker_dropFirst (initRoll : Dice.DiceReturn) :
  tieBreaker initRoll
  = Pool.highestOf
      (dropFirst (Dice.highest initRoll) (Roll.dice (Dice.roll initRoll))).
Proof.
  unfold tieBreaker, Pool.highestOf.
  generalize (Dice.highest initRoll) as h.
  generalize (Roll.dice (Dice.roll initRoll)) as dice.
  generalize 0 as decimals.
  intros decimals dice. revert decimals.
  induction dice as [|d dice IH]; intros decimals h; [reflexivity|].
  cbn [fold_left dropFirst].
  change (tieBreakStep h (false, decimals) d)
    with (if negb false && (d =? h) then (true, decimals)
          else (false, if decimals <? d then d else decimals)).
  cbn [negb andb]. destruct (d =? h).
  - apply tieBreakStep_skipped.
  - cbn [fold_left]. rewrite IH. f_equal.
    destruct (Z.ltb_spec decimals d); lia.
Qed.

Lemma applyUpdate_initiative (cs : list Combatant) (u : Update)
    (x : Combatant) :
  In x (applyUpdate cs u) -> id x = _id u ->
  initiative x = Some (newInitiative u).
Proof.
  unfold applyUpdate. intros Hin Hid.
  apply in_map_iff in Hin as [y [Hy _]].
  destruct (String.eqb_spec (id y) (_id u)) as [E|E]; subst x.
  - reflexivity.
  - contradiction.
Qed.

(** ** Resets *)

Lemma applyReset_fold (ids : list string) (cs : list Combatant) :
  fold_left applyReset ids cs
  = map (fun c => if existsb (String.eqb (id c)) ids then cleared c else c)
      cs.
Proof.
  revert cs. induction ids as [|cid ids IH]; intros cs.
  - cbn [fold_left existsb]. now rewrite map_id.
  - cbn [fold_left]. rewrite IH. unfold applyReset. rewrite map_map.
    apply map_ext. intros c. cbn [existsb].
    destruct (String.eqb (id c) cid); cbn [orb id];
      [now destruct (existsb _ ids) | reflexivity].
Qed.

Lemma resetAll_cleared (cs : list Combatant) :
  resetAll cs = map cleared cs.
Proof.
  unfold resetAll. cbv zeta. rewrite applyReset_fold.
  apply map_ext_in. intros c Hc.
  assert (E : existsb (String.eqb (id c)) (map id cs) = true).
  { apply existsb_exists. exists (id c). split.
    - now apply in_map.
    - apply String.eqb_refl. }
  now rewrite E.
Qed.

Lemma cleared_frame (cs cs' : list Combatant) :
  map frame cs = map frame cs' -> map cleared cs = map cleared cs'.
Proof.
  revert cs'. induction cs as [|c cs IH]; intros [|c' cs'];
    cbn [map]; try discriminate; [reflexivity|].
  intros [= Hid Ha Ht Htid Ho Hrest].
  rewrite (IH cs' Hrest). unfold cleared.
  now rewrite Hid, Ha, Ht, Htid, Ho.
Qed.

(** ** Sorting *)

Section Sorting.

Variable localeCompare : string -> string -> Z.

Let cmp := _sortCombatants localeCompare.

Lemma comesAfter_precedes (a b : Combatant) :
  comesAfter Combatant cmp a b = true -> precedes b a.
Proof.
  unfold comesAfter, cmp, _sortCombatants, precedes.
  destruct (Qeq_bool (numericInitiative b - numericInitiative a) 0) eqn:E;
    cbn [negb].
  - apply Qeq_bool_iff in E.
    assert (Heq : (numericInitiative b == numericInitiative a)%Q).
    { setoid_replace (numericInitiative b)
        with (numericInitiative b - numericInitiative a
              + numericInitiative a)%Q by ring.
      rewrite E. ring. }
    destruct (ownerAdvantage a) eqn:Ea, (ownerAdvantage b) eqn:Eb;
      cbn [Z.sub Z.eqb negb Z.opp Z.pos_sub].
    + intros _. right. split; [exact Heq | reflexivity].
    + intros H. apply Qltb_lt in H. now compute in H.
    + intros _. right. split; [exact Heq | reflexivity].
    + intros _. right. split; [exact Heq | discriminate].
  - intros H. apply Qltb_lt in H. left.
    apply Qlt_minus_iff. exact H.
Qed.

Lemma not_comesAfter_precedes (a b : Combatant) :
  comesAfter Combatant cmp a b = false -> precedes a b.
Proof.
  unfold comesAfter, cmp, _sortCombatants, precedes.
  destruct (Qeq_bool (numericInitiative b - numericInitiative a) 0) eqn:E;
    cbn [negb].
  - apply Qeq_bool_iff in E.
    assert (Heq : (numericInitiative a == numericInitiative b)%Q).
    { setoid_replace (numericInitiative b)
        with (numericInitiative b - numericInitiative a
              + numericInitiative a)%Q by ring.
      rewrite E. ring. }
    destruct (ownerAdvantage a) eqn:Ea, (ownerAdvantage b) eqn:Eb;
      cbn [Z.sub Z.eqb negb Z.opp Z.pos_sub].
    + intros _. right. split; [exact Heq | reflexivity].
    + intros _. right. split; [exact Heq | reflexivity].
    + intros H. apply Qltb_ge in H. now compute in H.
    + intros _. right. split; [exact Heq | discriminate].
  - intros H. apply Qltb_ge in H. left.
    apply Qeq_bool_neq in E.
    apply Qle_lt_or_eq in H as [H | H]; [|now contradiction E].
    apply Qlt_minus_iff in H. apply Qlt_minus_iff.
    setoid_replace (numericInitiative a + - numericInitiative b)%Q
      with (0 + - (numericInitiative b - numericInitiative a))%Q by ring.
    exact H.
Qed.

Lemma insertSorted_head (a : Combatant) (l : list Combatant)
    (b : Combatant) :
  HdRel precedes b l -> precedes b a ->
  HdRel precedes b (insertSorted Combatant cmp a l).
Proof.
  intros Hl Ha. destruct l as [|c l]; cbn [insertSorted].
  - now constructor.
  - destruct (comesAfter Combatant cmp a c); constructor;
      [now inversion Hl | exact Ha].
Qed.

Lemma insertSorted_sorted (a : Combatant) (l : list Combatant) :
  Sorted precedes l -> Sorted precedes (insertSorted Combatant cmp a l).
Proof.
  induction 1 as [|b l Hl IH Hb]; cbn [insertSorted].
  - repeat constructor.
  - destruct (comesAfter Combatant cmp a b) eqn:E.
    + constructor; [exact IH|].
      apply insertSorted_head; [exact Hb | now apply comesAfter_precedes].
    + constructor; [now constructor|]. constructor.
      now apply not_comesAfter_precedes.
Qed.

Lemma insertSorted_permutation (a : Combatant) (l : list Combatant) :
  Permutation (a :: l) (insertSorted Combatant cmp a l).
Proof.
  induction l as [|b l IH]; cbn [insertSorted]; [reflexivity|].
  destruct (comesAfter Combatant cmp a b); [|reflexivity].
  rewrite perm_swap. now constructor.
Qed.

End Sorting.

End TrackerFacts.

(* ================================================================== *)
(** * Further properties of the combat tracker *)
(* ================================================================== *)

Module CombatExtras.
Import Foundry Combat Encounter Tracker TrackerFacts.

(** X11.  The initiative threshold never drops as the distance to the
    closest opponent grows, and it stays between 2 and 6 whatever the
    distance. *)
Theorem getDistanceTN_monotone (d d' : Q) :
  (d <= d')%Q ->
  getDistanceTN d <= getDistanceTN d'
  /\ 2 <= getDistanceTN d /\ getDistanceTN d' <= 6.
Proof.
  intros Hle. split; [now apply getDistanceTN_le|].
  pose proof (getDistanceTN_range d). pose proof (getDistanceTN_range d').
  lia.
Qed.

Lemma getDistanceTN_monotone_witness :
  getDistanceTN 4 <= getDistanceTN (25 # 2)
  /\ 2 <= getDistanceTN 4 /\ getDistanceTN (25 # 2) <= 6.
Proof.
  apply (getDistanceTN_monotone 4 (25 # 2)). unfold Qle. simpl. lia.
Defined.

(** X12.  For a combatant with a token, [getDistanceToClosestOther] is the
    smallest of 10000 and the measured distances to the others that have a
    token: it is at most 10000 and at most each of these distances, and it
    is 10000 or one of them.  A combatant without a token, or no combatant,
    gets 10000. *)
Theorem getDistanceToClosestOther_minimum
    (measureDistance : option TokenData -> option TokenData -> Q)
    (c : Combatant) (own : Token) (others : list Combatant) :
  token c = Some own ->
  let closest := getDistanceToClosestOther measureDistance (Some c) others in
  (closest <= 10000)%Q
  /\ (forall x o, In x others -> token x = Some o ->
                  (closest <= measureDistance (data own) (data o))%Q)
  /\ (closest = 10000%Q
      \/ exists x o, In x others /\ token x = Some o
                     /\ closest = measureDistance (data own) (data o))
  /\ getDistanceToClosestOther measureDistance None others = 10000%Q
  /\ (forall n, token n = None ->
                getDistanceToClosestOther measureDistance (Some n) others
                = 10000%Q).
Proof.
  intros Hown closest. subst closest. unfold getDistanceToClosestOther.
  rewrite Hown. cbv zeta. split; [apply closest_le|].
  split; [intros x o; apply closest_measured|].
  split; [apply closest_attained|].
  split; [reflexivity|]. now intros n ->.
Qed.

Lemma getDistanceToClosestOther_minimum_witness :
  let closest :=
    getDistanceToClosestOther Plain.measureDistance (Some Plain.hero)
      [Plain.thug; Plain.otherThug] in
  (closest <= 10000)%Q
  /\ (closest = 10000%Q
      \/ exists x o, In x [Plain.thug; Plain.otherThug]
                     /\ token x = Some o
                     /\ closest
                        = Plain.measureDistance
                            (Some {| disposition := 1; x := 0; y := 0 |})
                            (data o)).
Proof.
  destruct (getDistanceToClosestOther_minimum Plain.measureDistance
              Plain.hero _ [Plain.thug; Plain.otherThug] eq_refl)
    as [Hle [_ [Hat _]]].
  split; [exact Hle | exact Hat].
Defined.

(** X13.  More combatants in the encounter never raise the initiative
    threshold of a combatant, and without a manual threshold the threshold
    lies between 2 and 6. *)
Theorem getInitiativeTN_more_combatants
    (measureDistance : option TokenData -> option TokenData -> Q)
    (c : option Combatant) (all extra : list Combatant)
    (s : option Settings) :
  getInitiativeTN measureDistance c (Some (all ++ extra)%list) s
  <= getInitiativeTN measureDistance c (Some all) s
  /\ (manualSet s = None ->
      2 <= getInitiativeTN measureDistance c (Some all) s <= 6).
Proof.
  unfold getInitiativeTN. destruct (manualSet s) as [tn|].
  - split; [lia | discriminate].
  - destruct c as [c|]; [|split; lia].
    destruct s as [s|]; [|split; lia].
    destruct (actor c) as [a|]; [|split; lia].
    destruct (token c) as [t|] eqn:Ht; [|split; lia].
    destruct (Js.truthy (initType s)); [|split; lia].
    split; [|intros _; apply getDistanceTN_range].
    apply getDistanceTN_le.
    assert (E : otherSideOf a t s (all ++ extra)
                = (otherSideOf a t s all ++ otherSideOf a t s extra)%list).
    { unfold otherSideOf.
      destruct (Js.strict_eq_number (initType s) 0
                || Js.strict_eq_number (initType s) 1); apply filter_app. }
    rewrite E. unfold getDistanceToClosestOther. rewrite Ht.
    rewrite fold_left_app. apply closest_le.
Qed.

Lemma getInitiativeTN_more_combatants_witness :
  2 <= getInitiativeTN Plain.measureDistance (Some Plain.hero)
         (Some [Plain.hero; Plain.thug])
         (Some (Plain.settings (Js.Number 2) None false)) <= 6.
Proof.
  apply (getInitiativeTN_more_combatants Plain.measureDistance
           (Some Plain.hero) [Plain.hero; Plain.thug] []
           (Some (Plain.settings (Js.Number 2) None false))).
  reflexivity.
Defined.

(** X14.  The first ordering mode and the way it is stored.  Stored as the
    number 0 it counts as no mode at all: every combatant is put in group
    -1 and, without a manual threshold, rolls against 2.  Stored in a form
    that is recognised as mode 0, the groups split the combatants by player
    ownership, but the threshold is measured to the combatants on the other
    side of the split by player ownership or friendly token: the test of
    [getInitiativeTN] for the modes 0 and 1 compares with the numbers, and
    passes for the number 1 alone. *)
Theorem mode_zero_sides (s : Settings) :
  (initType s = Js.Number 0 ->
   forall c,
     getInitiativeGroup c (Some s) = -1
     /\ forall measureDistance all,
          manualSet (Some s) = None ->
          getInitiativeTN measureDistance c all (Some s) = 2)
  /\ (Js.truthy (initType s) = true ->
      Js.parseInt (initType s) = Some 0 ->
      forall c a t all,
        actor c = Some a -> token c = Some t ->
        getInitiativeGroup (Some c) (Some s)
        = (if hasPlayerOwner a then 2 else 1)
        /\ otherSideOf a t s all
           = filter (fun x =>
                       negb (Bool.eqb (ownerOrFriendly x)
                               (hasPlayerOwner a || isFriendly t))) all).
Proof.
  split.
  - intros Hzero c. split.
    + unfold getInitiativeGroup. rewrite Hzero.
      destruct c as [c|]; [|reflexivity].
      now destruct (actor c), (token c).
    + intros measureDistance all Hmanual. unfold getInitiativeTN.
      rewrite Hmanual, Hzero. destruct c as [c|]; [|reflexivity].
      destruct all; [|reflexivity]. now destruct (actor c), (token c).
  - intros Htruthy Hmode c a t all Ha Ht. split.
    + unfold getInitiativeGroup. rewrite Ha, Ht, Htruthy, Hmode.
      now destruct (hasPlayerOwner a).
    + unfold otherSideOf.
      destruct (initType s) as [|n|txt]; try discriminate.
      * cbn in Htruthy, Hmode. injection Hmode as ->. discriminate.
      * reflexivity.
Qed.

Lemma mode_zero_sides_witness :
  getInitiativeGroup (Some Plain.ally)
    (Some (Plain.settings (Js.Text "0") None true)) = 1
  /\ otherSideOf {| hasPlayerOwner := true |}
       {| data := Some {| disposition := 1; x := 0; y := 0 |};
          name := "Rita"; tokenActor := Some {| hasPlayerOwner := true |} |}
       (Plain.settings (Js.Text "0") None true)
       [Plain.hero; Plain.ally; Plain.thug]
     = [Plain.thug]
  /\ getInitiativeGroup (Some Plain.hero)
       (Some (Plain.settings (Js.Number 0) None true)) = -1.
Proof.
  split; [|split].
  - exact (proj1 (proj2 (mode_zero_sides
                           (Plain.settings (Js.Text "0") None true))
                    eq_refl eq_refl Plain.ally _ _ [] eq_refl eq_refl)).
  - rewrite (proj2 (proj2 (mode_zero_sides
                             (Plain.settings (Js.Text "0") None true))
                      eq_refl eq_refl Plain.hero _ _
                      [Plain.hero; Plain.ally; Plain.thug]
                      eq_refl eq_refl)).
    reflexivity.
  - exact (proj1 (proj1 (mode_zero_sides
                           (Plain.settings (Js.Number 0) None true))
                    eq_refl (Some Plain.hero))).
Defined.

(** X15.  [rollInitiative] passes over the ids it finds no combatant for
    and the combatants the user does not own: when the ids name no others,
    nothing is rolled, no draw is taken and the combatants stay as they
    are. *)
Theorem rollInitiative_skips
    (measureDistance : option TokenData -> option TokenData -> Q)
    (getInitiativeRollIronclaw : Combatant -> Z -> Host Dice.DiceReturn)
    (settings : option Settings) (ids : list string)
    (all : list Combatant) (w : World) :
  Forall (fun cid =>
            match find (fun c => String.eqb (id c) cid) all with
            | Some c => isOwner c = false
            | None => True
            end) ids ->
  rollInitiative measureDistance getInitiativeRollIronclaw settings ids
    all w = (Returned all, w).
Proof.
  intros Hids. unfold rollInitiative, bind.
  now rewrite (rollEach_skips measureDistance getInitiativeRollIronclaw
                 all settings ids [] w Hids).
Qed.

Lemma rollInitiative_skips_witness :
  rollInitiative Plain.measureDistance Plain.getInitiativeRollIronclaw
    (Some (Plain.settings (Js.Number 2) None false)) ["c9"; "c7"]
    [Plain.hero; Plain.thug] (Plain.world [2])
  = (Returned [Plain.hero; Plain.thug], Plain.world [2]).
Proof.
  apply rollInitiative_skips. repeat constructor.
Defined.

(** X16.  Whatever is rolled, [rollInitiative] hands back the same
    combatants in the same places: ids, actors, tokens and ownership are
    as before, a combatant whose id was not asked for is untouched, and a
    reset after the roll leaves what a reset before it would have left. *)
Theorem rollInitiative_frame
    (measureDistance : option TokenData -> option TokenData -> Q)
    (getInitiativeRollIronclaw : Combatant -> Z -> Host Dice.DiceReturn)
    (settings : option Settings) (ids : list string)
    (all all' : list Combatant) (w w' : World) :
  rollInitiative measureDistance getInitiativeRollIronclaw settings ids
    all w = (Returned all', w') ->
  map frame all' = map frame all
  /\ (forall n c, nth_error all n = Some c -> ~ In (id c) ids ->
                  nth_error all' n = Some c)
  /\ resetAll all' = resetAll all.
Proof.
  unfold rollInitiative, bind.
  destruct (rollEach _ _ all settings [] ids w) as [[updates|] w1] eqn:E;
    [|discriminate].
  apply rollEach_updates in E.
  assert (Hframe : forall l, (if (List.length updates =? 0)%nat
                              then ret all else ret l) w1
                             = (Returned all', w') ->
                             all' = all \/ all' = l)
    by (intros l; destruct (List.length updates =? 0)%nat;
        intros [= <- _]; auto).
  intros H. apply Hframe in H. clear Hframe.
  assert (Hsame : map frame all' = map frame all)
    by (destruct H as [-> | ->];
        [reflexivity | apply updateEmbeddedDocuments_frame]).
  split; [exact Hsame|]. split.
  - intros n c Hn Hc. destruct H as [-> | ->]; [exact Hn|].
    apply updateEmbeddedDocuments_other; [exact Hn|].
    eapply Forall_impl; [|exact E]. intros u [[] | Hu] Hid.
    apply Hc. now rewrite Hid.
  - rewrite !resetAll_cleared. now apply cleared_frame.
Qed.

Lemma rollInitiative_frame_witness :
  map frame Plain.heroRolled = map frame [Plain.hero; Plain.thug]
  /\ nth_error Plain.heroRolled 1 = Some Plain.thug
  /\ resetAll Plain.heroRolled = resetAll [Plain.hero; Plain.thug].
Proof.
  assert (Hrun : rollInitiative Plain.measureDistance
                   Plain.getInitiativeRollIronclaw
                   (Some (Plain.settings (Js.Number 2) None false))
                   ["c1"] [Plain.hero; Plain.thug] (Plain.world [2])
                 = (Returned Plain.heroRolled, Plain.world []))
    by (vm_compute; reflexivity).
  destruct (rollInitiative_frame _ _ _ _ _ _ _ _ Hrun)
    as [Hframe [Hrest Hreset]].
  split; [exact Hframe|]. split; [|exact Hreset].
  apply Hrest; [reflexivity|]. intros [H | []]. discriminate.
Defined.

(** X17.  When the combatants roll for themselves (no side-based
    initiative), [rollInitiative] stores on a combatant it rolls for the
    highest die of the initiative check plus a twentieth of the
    tie-breaker: the largest total among the dice of the check once the
    first die that shows the highest is set aside, 0 when no total is above
    it.  With dice below 20 this value lies from the highest die up to, but
    not at, the next whole number, so of two checks the one with the higher
    highest die gives the higher initiative, and between equal highest dice
    the one with the larger tie-breaker does. *)
Theorem rollInitiative_individual
    (measureDistance : option TokenData -> option TokenData -> Q)
    (getInitiativeRollIronclaw : Combatant -> Z -> Host Dice.DiceReturn)
    (s : Settings) (c : Combatant) (t : Token) (all : list Combatant)
    (r : Dice.DiceReturn) (w w' : World) :
  sideBased s = false ->
  find (fun x => String.eqb (id x) (id c)) all = Some c ->
  isOwner c = true ->
  token c = Some t ->
  getInitiativeRollIronclaw c
    (getInitiativeTN measureDistance (Some c) (Some all) (Some s)) w
  = (Returned r, w') ->
  (exists all',
      rollInitiative measureDistance getInitiativeRollIronclaw (Some s)
        [id c] all w = (Returned all', w')
      /\ (exists x, In x all' /\ id x = id c)
      /\ forall x, In x all' -> id x = id c ->
           initiative x = Some (individualInitiative r))
  /\ (Forall (fun d => d < 20) (Roll.dice (Dice.roll r)) ->
      (inject_Z (Dice.highest r) <= individualInitiative r)%Q
      /\ (individualInitiative r < inject_Z (Dice.highest r + 1))%Q
      /\ (forall r2, Dice.highest r < Dice.highest r2 ->
                     (individualInitiative r < individualInitiative r2)%Q)
      /\ (forall r2, Dice.highest r2 < Dice.highest r ->
                     Forall (fun d => d < 20) (Roll.dice (Dice.roll r2)) ->
                     (individualInitiative r2 < individualInitiative r)%Q)
      /\ (forall r2,
            Dice.highest r2 = Dice.highest r ->
            Pool.highestOf
              (dropFirst (Dice.highest r2) (Roll.dice (Dice.roll r2)))
            < Pool.highestOf
                (dropFirst (Dice.highest r) (Roll.dice (Dice.roll r))) ->
            (individualInitiative r2 < individualInitiative r)%Q)).
Proof.
  intros Hside Hfind Howner Htoken Hroll. split.
  - unfold rollInitiative, rollEach, rollOne, bind.
    rewrite Hfind, Howner. cbn [negb]. rewrite Hroll, Htoken. unfold ret.
    cbn [List.length app Nat.eqb updateEmbeddedDocuments fold_left].
    eexists. split; [reflexivity|]. split.
    + apply find_some in Hfind as [Hin _].
      apply CombatProperties.applyUpdate_present with (c := c);
        [exact Hin | reflexivity].
    + intros x Hin Hid. rewrite (applyUpdate_initiative all _ x Hin Hid).
      cbn [newInitiative]. unfold initiativeOf, individualInitiative.
      now rewrite Hside, tieBreaker_dropFirst.
  - intros Hdice.
    assert (Hbound : forall q, Forall (fun d => d < 20)
                                 (Roll.dice (Dice.roll q)) ->
      0 <= Pool.highestOf
             (dropFirst (Dice.highest q) (Roll.dice (Dice.roll q))) < 20).
    { intros q Hq. rewrite <- tieBreaker_dropFirst.
      apply tieBreaker_fold; [exact Hq | lia]. }
    assert (Hlow : forall q,
      0 <= Pool.highestOf
             (dropFirst (Dice.highest q) (Roll.dice (Dice.roll q))))
      by (intros q; apply DiceFacts.fold_max_ge).
    pose proof (Hbound r Hdice) as Br.
    unfold individualInitiative.
    split; [|split; [|split; [|split]]].
    + unfold Qle, Qplus, Qdiv, Qmult, Qinv, inject_Z.
      cbn [Qnum Qden Pos.mul Z.mul]. lia.
    + unfold Qlt, Qplus, Qdiv, Qmult, Qinv, inject_Z.
      cbn [Qnum Qden Pos.mul Z.mul]. lia.
    + intros r2 Hhigher. pose proof (Hlow r2) as B2.
      unfold Qlt, Qplus, Qdiv, Qmult, Qinv, inject_Z.
      cbn [Qnum Qden Pos.mul Z.mul]. lia.
    + intros r2 Hlower H2. pose proof (Hbound r2 H2) as B2.
      unfold Qlt, Qplus, Qdiv, Qmult, Qinv, inject_Z.
      cbn [Qnum Qden Pos.mul Z.mul]. lia.
    + intros r2 Hsame Hless.
      unfold Qlt, Qplus, Qdiv, Qmult, Qinv, inject_Z.
      cbn [Qnum Qden Pos.mul Z.mul]. lia.
Qed.

Lemma rollInitiative_individual_witness :
  let check :=
    let rolled := Pool.poolRoll "{1d6}cs>3" ["1d6"] [3] [3] 0 in
    {| Dice.roll := rolled; Dice.highest := 3;
       Dice.tnData := Some {| Dice.successes := 0; Dice.ties := 1 |};
       Dice.message :=
         Pool.rollMessage (Plain.getMacroSpeaker None)
           (Dice.flavorStringTN Plain.info Plain.i18n 0 1 false "Initiative")
           "TN" "Initiative" true [3] rolled;
       Dice.isSent := false |} in
  exists all',
    rollInitiative Plain.measureDistance Plain.getInitiativeRollIronclaw
      (Some (Plain.settings (Js.Number 2) None false))
      [id Plain.hero] [Plain.hero; Plain.thug] (Plain.world [2])
    = (Returned all', Plain.world [])
    /\ (exists x, In x all' /\ id x = id Plain.hero)
    /\ forall x, In x all' -> id x = id Plain.hero ->
         initiative x = Some (individualInitiative check).
Proof.
  intros check.
  refine (proj1 (rollInitiative_individual Plain.measureDistance
                   Plain.getInitiativeRollIronclaw
                   (Plain.settings (Js.Number 2) None false)
                   Plain.hero _ [Plain.hero; Plain.thug] check
                   (Plain.world [2]) (Plain.world []) _ _ _ _ _));
    [ reflexivity | reflexivity | reflexivity | reflexivity
    | vm_compute; reflexivity ].
Defined.

(** X18.  The turn order.  Sorting the combatants with [_sortCombatants]
    keeps every combatant and puts them in descending order of initiative,
    a combatant without initiative counting as -9999; among combatants of
    the same initiative, those with a player-owned actor come before the
    others.  This holds for every name comparison and every token id. *)
Theorem turn_order_sorted (localeCompare : string -> string -> Z)
    (l : list Combatant) :
  Permutation l (sort Combatant (_sortCombatants localeCompare) l)
  /\ Sorted precedes (sort Combatant (_sortCombatants localeCompare) l).
Proof.
  unfold sort. induction l as [|a l [IHp IHs]]; cbn [fold_right].
  - split; constructor.
  - split.
    + rewrite <- insertSorted_permutation. now constructor.
    + now apply insertSorted_sorted.
Qed.

(** X19.  [resetAll] takes the initiative and the initiative result off
    every combatant and leaves the rest of each as it is; a second reset
    changes nothing, and after a reset every combatant counts as -9999 in
    the turn order. *)
Theorem resetAll_clears (cs : list Combatant) :
  resetAll cs = map cleared cs
  /\ Forall (fun c => initiative c = None /\ initiativeResult c = None
                      /\ numericInitiative c = (-9999)%Q) (resetAll cs)
  /\ map frame (resetAll cs) = map frame cs
  /\ resetAll (resetAll cs) = resetAll cs.
Proof.
  rewrite !resetAll_cleared. split; [reflexivity|]. split; [|split].
  - apply Forall_forall. intros c Hc.
    apply in_map_iff in Hc as [x [<- _]]. now repeat split.
  - rewrite map_map. reflexivity.
  - rewrite map_map. reflexivity.
Qed.

End CombatExtras.

(* ================================================================== *)
(** * Further facts about the condition bookkeeping *)
(* ================================================================== *)

Module ConditionFacts.
Import Conditions ConditionProperties.

Lemma NoDup_map_filter {A B : Type} (f : A -> B) (keep : A -> bool)
    (l : list A) :
  NoDup (map f l) -> NoDup (map f (filter keep l)).
Proof.
  induction l as [|x l IH]; cbn [map filter]; [trivial|].
  intros H. inversion H as [|y l' Hx Hl]; subst.
  destruct (keep x); [|now apply IH].
  cbn [map]. constructor; [|now apply IH].
  intros Hin. apply Hx. apply in_map_iff in Hin as [z [E Hz]].
  apply filter_In in Hz as [Hz _]. rewrite <- E. now apply in_map.
Qed.

Lemma NoDup_map_injective {A B : Type} (f : A -> B) (l : list A)
    (x y : A) :
  NoDup (map f l) -> In x l -> In y l -> f x = f y -> x = y.
Proof.
  induction l as [|z l IH]; cbn [map]; [easy|].
  intros H Hx Hy E. inversion H as [|z' l' Hz Hl]; subst.
  destruct Hx as [-> | Hx], Hy as [-> | Hy].
  - reflexivity.
  - exfalso. apply Hz. rewrite E. now apply in_map.
  - exfalso. apply Hz. rewrite <- E. now apply in_map.
  - now apply IH.
Qed.

(** No two conditions of the catalog share an id. *)
Lemma catalog_ids_NoDup : NoDup (map id conditionList).
Proof.
  assert (E : nodup string_dec (map id conditionList)
              = map id conditionList) by (vm_compute; reflexivity).
  rewrite <- E. apply NoDup_nodup.
Qed.

Section Local.

Variable cubHasCondition : list string -> Target -> bool.
Variable localize : string -> string.

(** The status ids after an add has been carried out. *)
Lemma added_statusIds (conditions : ConditionArg) (target : Target)
    (a : Actor) :
  getTargetActor target = Some a ->
  conditionSet
    (commitAll target
       (addConditionsIronclaw false cubHasCondition localize conditions
          target))
  = (statusIds a
     ++ map id (getMatchedConditions
                  (used cubHasCondition conditions target a)))%list.
Proof.
  intros Ha.
  rewrite (addConditionsIronclaw_local cubHasCondition localize conditions
             target a Ha).
  rewrite <- (prepared_statusIds localize).
  set (datas := prepareEffects localize _).
  destruct (0 <? List.length datas)%nat eqn:Hlen;
    unfold commitAll; cbn [fold_left].
  - unfold commit. rewrite Ha.
    rewrite (conditionSet_actor _ (createEmbeddedDocuments a datas))
      by (now apply withActor_actor with (a := a)).
    apply created_statusIds.
  - rewrite (conditionSet_actor target a Ha).
    destruct datas; [now rewrite app_nil_r | discriminate].
Qed.

End Local.

(** ** Removing *)

Section Removal.

Variable conditions : list string.

Let asked (e : ActiveEffect) : bool :=
  match statusId e with
  | Some s => includes conditions s
  | None => false
  end.

Let removals (es : list ActiveEffect) : list string :=
  map effectId (filter asked es).

Lemma kept_not_asked (es : list ActiveEffect) (e : ActiveEffect) :
  In e (filter (fun e => negb (includes (removals es) (effectId e))) es) ->
  asked e = false.
Proof.
  intros H. apply filter_In in H as [He Hkept].
  destruct (asked e) eqn:E; [|reflexivity].
  assert (Hin : In (effectId e) (removals es)).
  { unfold removals. apply in_map. apply filter_In. now split. }
  apply includes_In in Hin. rewrite Hin in Hkept. discriminate.
Qed.

Lemma kept_all_others (es : list ActiveEffect) :
  NoDup (map effectId es) ->
  filter (fun e => negb (includes (removals es) (effectId e))) es
  = filter (fun e => negb (asked e)) es.
Proof.
  intros Hids. apply filter_ext_in. intros e He. f_equal.
  destruct (asked e) eqn:E.
  - apply includes_In. unfold removals. apply in_map.
    apply filter_In. now split.
  - destruct (includes (removals es) (effectId e)) eqn:Hin; [|reflexivity].
    apply includes_In in Hin. unfold removals in Hin.
    apply in_map_iff in Hin as [e' [Hid He']].
    apply filter_In in He' as [He' Hasked].
    assert (e' = e)
      by (apply (NoDup_map_injective effectId es); assumption).
    subst e'. congruence.
Qed.

Lemma statusIds_not_asked (es : list ActiveEffect) :
  flat_map (fun e => match statusId e with
                     | Some s => [s]
                     | None => []
                     end) (filter (fun e => negb (asked e)) es)
  = filter (fun s => negb (includes conditions s))
      (flat_map (fun e => match statusId e with
                          | Some s => [s]
                          | None => []
                          end) es).
Proof.
  induction es as [|e es IH]; [reflexivity|].
  assert (Hasked : asked e = match statusId e with
                             | Some s => includes conditions s
                             | None => false
                             end) by reflexivity.
  cbn [filter flat_map]. rewrite filter_app, <- IH.
  destruct (statusId e) as [s|] eqn:Es; rewrite Hasked.
  - cbn [filter]. destruct (includes conditions s);
      cbn [negb flat_map app]; rewrite ?Es; reflexivity.
  - cbn [negb flat_map filter app]. rewrite Es. reflexivity.
Qed.

(** The target after a removal has been carried out. *)
Lemma removed_target (cubHasCondition : list string -> Target -> bool)
    (arg : ConditionArg) (target : Target) (a : Actor) (checkfirst : bool) :
  asArray arg = conditions ->
  getTargetActor target = Some a ->
  conditionSet
    (commitAll target
       (removeConditionsIronclaw false cubHasCondition arg target
          checkfirst))
  = flat_map (fun e => match statusId e with
                       | Some s => [s]
                       | None => []
                       end)
      (filter (fun e => negb (includes (removals (effects a)) (effectId e)))
         (effects a)).
Proof.
  intros Harg Ha. unfold removeConditionsIronclaw. rewrite Ha, Harg.
  fold asked. fold (removals (effects a)).
  destruct (0 <? List.length (removals (effects a)))%nat eqn:Hlen;
    unfold commitAll; cbn [fold_left].
  - unfold commit. rewrite Ha.
    rewrite (conditionSet_actor _
               (deleteEmbeddedDocuments a (removals (effects a))))
      by (now apply withActor_actor with (a := a)).
    reflexivity.
  - rewrite (conditionSet_actor target a Ha). unfold statusIds.
    destruct (removals (effects a)); [|discriminate].
    f_equal. symmetry. apply forallb_filter_id.
    apply forallb_forall. reflexivity.
Qed.

End Removal.

End ConditionFacts.

(* ================================================================== *)
(** * Further properties of the condition bookkeeping *)
(* ================================================================== *)

Module ConditionExtras.
Import Conditions ConditionProperties ConditionFacts.

(** X20.  With the built-in backend, once an add has been carried out the
    target carries every condition of the catalog that was asked for, and
    keeps what it carried: its status ids are the ones from before,
    followed by the ids of the catalog conditions that were asked for and
    not carried yet, each once and in the order of the catalog; an id the
    catalog does not know adds nothing. *)
Theorem addConditionsIronclaw_carried
    (cubHasCondition : list string -> Target -> bool)
    (localize : string -> string) (conditions : ConditionArg)
    (target : Target) (a : Actor) :
  getTargetActor target = Some a ->
  let after :=
    commitAll target
      (addConditionsIronclaw false cubHasCondition localize conditions
         target) in
  let fresh :=
    map id
      (filter (fun cond =>
                 includes (asArray conditions) (id cond)
                 && negb (includes (conditionSet target) (id cond)))
         conditionList) in
  (forall cond, In cond conditionList -> In (id cond) (asArray conditions) ->
                In (id cond) (conditionSet after))
  /\ conditionSet after = (conditionSet target ++ fresh)%list
  /\ NoDup fresh.
Proof.
  intros Ha after fresh. subst after fresh.
  rewrite (added_statusIds cubHasCondition localize conditions target a Ha).
  rewrite (conditionSet_actor target a Ha). split; [|split].
  - intros cond Hcat Hasked. apply in_or_app.
    destruct (in_dec string_dec (id cond) (statusIds a)) as [Hold|Hnew];
      [now left | right].
    apply in_map. apply getMatchedConditions_In. split; [exact Hcat|].
    now apply fresh_used.
  - f_equal. f_equal. unfold getMatchedConditions.
    apply filter_ext_in. intros cond Hcat.
    apply Bool.eq_iff_eq_true.
    rewrite andb_true_iff, negb_true_iff, !includes_In. split.
    + intros Hused.
      destruct (used_fresh cubHasCondition conditions target a cond Ha Hcat
                  Hused) as [Hasked Hfresh].
      split; [exact Hasked|].
      destruct (includes (statusIds a) (id cond)) eqn:E; [|reflexivity].
      apply includes_In in E. contradiction.
    + intros [Hasked Hfresh]. apply fresh_used; [exact Hasked|].
      intros Hin. apply includes_In in Hin. congruence.
  - apply NoDup_map_filter. exact catalog_ids_NoDup.
Qed.

Lemma addConditionsIronclaw_carried_witness :
  In "afraid"
    (conditionSet
       (commitAll Plain.bruised
          (addConditionsIronclaw false (fun _ _ => false) (fun key => key)
             (Many ["hurt"; "afraid"; "bored"]) Plain.bruised))).
Proof.
  refine (proj1 (addConditionsIronclaw_carried (fun _ _ => false)
                   (fun key => key) (Many ["hurt"; "afraid"; "bored"])
                   Plain.bruised _ eq_refl)
            (condition "afraid"
               "systems/urbanjungle/icons/status/afraid.svg") _ _).
  - vm_compute. do 4 right. left. reflexivity.
  - vm_compute. right. left. reflexivity.
Defined.

(** X21.  With the built-in backend, once a removal has been carried out
    the target carries none of the given conditions, with or without the
    check first; and when no two effects of the actor share an id, every
    other status id is still there, in its place. *)
Theorem removeConditionsIronclaw_removed
    (cubHasCondition : list string -> Target -> bool)
    (conditions : ConditionArg) (target : Target) (a : Actor)
    (checkfirst : bool) :
  getTargetActor target = Some a ->
  let after :=
    commitAll target
      (removeConditionsIronclaw false cubHasCondition conditions target
         checkfirst) in
  (forall c, In c (asArray conditions) -> ~ In c (conditionSet after))
  /\ hasConditionsIronclaw false cubHasCondition conditions after = false
  /\ (NoDup (map effectId (effects a)) ->
      conditionSet after
      = filter (fun s => negb (includes (asArray conditions) s))
          (conditionSet target)).
Proof.
  intros Ha after.
  assert (Hset := removed_target (asArray conditions) cubHasCondition
                    conditions target a checkfirst eq_refl Ha).
  fold after in Hset.
  assert (Hnone : forall c, In c (asArray conditions) ->
                            ~ In c (conditionSet after)).
  { intros c Hc Hin. rewrite Hset in Hin.
    apply in_flat_map in Hin as [e [He Hs]].
    apply kept_not_asked in He.
    destruct (statusId e) as [s|]; [|contradiction].
    destruct Hs as [<- | []]. apply includes_In in Hc. congruence. }
  split; [exact Hnone|]. split.
  - unfold hasConditionsIronclaw.
    destruct (falsy conditions); [reflexivity|].
    destruct (getTargetActor after) as [b|] eqn:Hb; [|reflexivity].
    destruct (existsb _ (effects b)) eqn:E; [|reflexivity].
    apply carriesAny_In in E as [s [Hs Hin]].
    exfalso. apply (Hnone s Hs). unfold conditionSet. now rewrite Hb.
  - intros Hids. rewrite Hset, kept_all_others by exact Hids.
    rewrite statusIds_not_asked. unfold conditionSet. now rewrite Ha.
Qed.

Lemma removeConditionsIronclaw_removed_witness :
  ~ In "hurt"
      (conditionSet
         (commitAll Plain.bruised
            (removeConditionsIronclaw false (fun _ _ => false)
               (Many ["hurt"; "afraid"]) Plain.bruised true))).
Proof.
  refine (proj1 (removeConditionsIronclaw_removed (fun _ _ => false)
                   (Many ["hurt"; "afraid"]) Plain.bruised _ true eq_refl)
            "hurt" _).
  left. reflexivity.
Defined.



End ConditionExtras.

(* ================================================================== *)
(** * Further properties of the version numbers *)
(* ================================================================== *)

Module VersionFacts.
Import System Version.

Lemma spanDigits_digits (d rest : string) :
  Js.all_digits d = true -> stops rest ->
  spanDigits (d ++ rest) = (d, rest).
Proof.
  unfold Js.all_digits. intros Hd Hrest.
  induction d as [|c d IH]; cbn [append].
  - destruct rest as [|c rest]; [reflexivity|].
    cbn [spanDigits]. cbn [stops] in Hrest. now rewrite Hrest.
  - cbn [Js.all_chars] in Hd. apply andb_prop in Hd as [Hc Hd].
    cbn [spanDigits]. now rewrite Hc, (IH Hd).
Qed.

Lemma length_zero (s : string) :
  s <> EmptyString -> (String.length s =? 0)%nat = false.
Proof. now destruct s. Qed.

Lemma matchVersionAt_components (a b c tail : string) :
  Js.all_digits a = true -> a <> EmptyString ->
  Js.all_digits b = true -> b <> EmptyString ->
  Js.all_digits c = true -> stops tail ->
  matchVersionAt (a ++ "." ++ b ++ "." ++ c ++ tail)
  = Some [Some a; Some b;
          if (String.length c =? 0)%nat then None else Some c].
Proof.
  intros Ha Hna Hb Hnb Hc Htail. unfold matchVersionAt.
  rewrite (spanDigits_digits a) by (assumption || reflexivity).
  rewrite (length_zero a Hna). cbn [append].
  rewrite (spanDigits_digits b) by (assumption || reflexivity).
  rewrite (length_zero b Hnb).
  now rewrite (spanDigits_digits c tail Hc Htail).
Qed.

Lemma matchVersionAt_shape (s : string) (groups : list (option string)) :
  matchVersionAt s = Some groups ->
  exists major minor patch, groups = [Some major; Some minor; patch].
Proof.
  unfold matchVersionAt.
  destruct (spanDigits s) as [major after1].
  destruct (String.length major =? 0)%nat; [discriminate|].
  destruct after1 as [|c1 rest1]; [discriminate|].
  destruct (Ascii.eqb_spec c1 ".") as [->|Hc1].
  - destruct (spanDigits rest1) as [minor after2].
    destruct (String.length minor =? 0)%nat; [discriminate|].
    destruct after2 as [|c2 rest2]; [discriminate|].
    destruct (Ascii.eqb_spec c2 ".") as [->|Hc2].
    + destruct (spanDigits rest2) as [patch after3].
      intros [= <-]. now eexists; eexists; eexists.
    + destruct c2 as [[] [] [] [] [] [] [] []]; try discriminate.
      now contradiction Hc2.
  - destruct c1 as [[] [] [] [] [] [] [] []]; try discriminate.
    now contradiction Hc1.
Qed.

Lemma getVersionNumbers_shape (s : string) (groups : list (option string)) :
  getVersionNumbers s = Some groups ->
  exists major minor patch, groups = [Some major; Some minor; patch].
Proof.
  unfold getVersionNumbers. induction s as [|c s IH]; cbn [searchVersion].
  - destruct (matchVersionAt EmptyString) eqn:E; [|discriminate].
    intros [= <-]. now apply matchVersionAt_shape in E.
  - destruct (matchVersionAt (String c s)) eqn:E; [|exact IH].
    intros [= <-]. now apply matchVersionAt_shape in E.
Qed.

Lemma spanDigits_rest (s digits after : string) :
  spanDigits s = (digits, after) ->
  Js.has_char "." s = false -> Js.has_char "." after = false.
Proof.
  revert digits after. induction s as [|c s IH]; intros digits after;
    cbn [spanDigits].
  - intros [= <- <-]. reflexivity.
  - destruct (Js.is_digit c).
    + destruct (spanDigits s) as [ds rest].
      intros [= <- <-] H. cbn [Js.has_char] in H.
      apply orb_false_elim in H as [_ H]. now apply (IH ds).
    + intros [= <- <-] H. exact H.
Qed.

Lemma matchVersionAt_dot (s : string) :
  Js.has_char "." s = false -> matchVersionAt s = None.
Proof.
  intros Hdot. unfold matchVersionAt.
  destruct (spanDigits s) as [major after1] eqn:E.
  destruct (String.length major =? 0)%nat; [reflexivity|].
  apply (spanDigits_rest s major after1 E) in Hdot.
  destruct after1 as [|c1 rest1]; [reflexivity|].
  destruct (Ascii.eqb_spec c1 ".") as [->|Hc1].
  - cbn in Hdot. discriminate.
  - destruct c1 as [[] [] [] [] [] [] [] []]; try reflexivity.
    now contradiction Hc1.
Qed.

Lemma getVersionNumbers_split (major minor patch tail : string) :
  Js.all_digits major = true -> major <> EmptyString ->
  Js.all_digits minor = true -> minor <> EmptyString ->
  Js.all_digits patch = true -> stops tail ->
  getVersionNumbers (major ++ "." ++ minor ++ "." ++ patch ++ tail)
  = Some [Some major; Some minor;
          if (String.length patch =? 0)%nat then None else Some patch].
Proof.
  intros Ha Hna Hb Hnb Hc Htail. unfold getVersionNumbers.
  pose proof (matchVersionAt_components major minor patch tail
                Ha Hna Hb Hnb Hc Htail) as E.
  destruct (major ++ "." ++ minor ++ "." ++ patch ++ tail);
    cbn [searchVersion]; now rewrite E.
Qed.

Lemma getVersionNumbers_no_dot (s : string) :
  Js.has_char "." s = false -> getVersionNumbers s = None.
Proof.
  unfold getVersionNumbers.
  induction s as [|c s IH]; intros Hdot; cbn [searchVersion].
  - reflexivity.
  - rewrite (matchVersionAt_dot _ Hdot).
    cbn [Js.has_char] in Hdot. apply orb_false_elim in Hdot as [_ Hdot].
    now apply IH.
Qed.

Lemma ltb_asymmetric (x y : string) :
  String.ltb x y = true -> String.ltb y x = false.
Proof.
  unfold String.ltb. rewrite (String.compare_antisym y x).
  now destruct (String.compare x y).
Qed.

Lemma ltb_irreflexive (x : string) : String.ltb x x = false.
Proof.
  destruct (String.ltb x x) eqn:E; [|reflexivity].
  now rewrite (ltb_asymmetric x x E) in E.
Qed.

Lemma looseNeq_same (a : option string) : looseNeq a a = false.
Proof. destruct a as [x|]; [|reflexivity]. cbn. now rewrite String.eqb_refl. Qed.

Lemma looseNeq_symmetric (a b : option string) :
  looseNeq a b = looseNeq b a.
Proof.
  destruct a as [x|], b as [y|]; try reflexivity.
  cbn. now rewrite String.eqb_sym.
Qed.

Lemma greater_asymmetric (a b : option string) :
  greater a b = true -> greater b a = false.
Proof.
  destruct a as [x|], b as [y|]; try discriminate. apply ltb_asymmetric.
Qed.

Lemma newerFrom_asymmetric (a b c a' b' c' : option string) :
  newerFrom 0 [a; b; c] [a'; b'; c'] = true ->
  newerFrom 0 [a'; b'; c'] [a; b; c] = false.
Proof.
  cbn [newerFrom nth].
  rewrite (looseNeq_symmetric a' a), (looseNeq_symmetric b' b),
    (looseNeq_symmetric c' c).
  destruct (looseNeq a a'); [apply greater_asymmetric|].
  destruct (looseNeq b b'); [apply greater_asymmetric|].
  destruct (looseNeq c c'); [apply greater_asymmetric | reflexivity].
Qed.

End VersionFacts.

Module SystemExtras.
Import Foundry System Version VersionFacts.

(** X23.  [getVersionNumbers] splits a version written as three runs of
    digits with dots between them into these runs, as text and with their
    leading zeros; when no digit follows the second dot the third entry is
    undefined.  What comes after the third run is ignored, and a string
    without a dot cannot be split. *)
Theorem getVersionNumbers_components (major minor patch tail : string) :
  Js.all_digits major = true -> major <> EmptyString ->
  Js.all_digits minor = true -> minor <> EmptyString ->
  Js.all_digits patch = true -> stops tail ->
  getVersionNumbers (major ++ "." ++ minor ++ "." ++ patch ++ tail)
  = Some [Some major; Some minor;
          if (String.length patch =? 0)%nat then None else Some patch]
  /\ forall s, Js.has_char "." s = false -> getVersionNumbers s = None.
Proof.
  intros Ha Hna Hb Hnb Hc Htail. split.
  - now apply getVersionNumbers_split.
  - apply getVersionNumbers_no_dot.
Qed.

Lemma getVersionNumbers_components_witness :
  getVersionNumbers "0.04.12-beta" = Some [Some "0"; Some "04"; Some "12"].
Proof.
  exact (proj1 (getVersionNumbers_components "0" "04" "12" "-beta"
                  eq_refl ltac:(discriminate) eq_refl ltac:(discriminate)
                  eq_refl eq_refl)).
Defined.

(** X24.  [checkIfNewerVersion] compares two versions entry by entry and
    lets the first entries that differ decide, comparing them as text:
    the tested version is newer when its entry comes later in the order of
    the characters, so that 10 comes before 9. *)
Theorem checkIfNewerVersion_text (a b c a' b' c' : string) :
  Js.all_digits a = true -> a <> EmptyString ->
  Js.all_digits b = true -> b <> EmptyString ->
  Js.all_digits c = true -> c <> EmptyString ->
  Js.all_digits a' = true -> a' <> EmptyString ->
  Js.all_digits b' = true -> b' <> EmptyString ->
  Js.all_digits c' = true -> c' <> EmptyString ->
  checkIfNewerVersion (a ++ "." ++ b ++ "." ++ c)
    (a' ++ "." ++ b' ++ "." ++ c')
  = Returned (if negb (String.eqb a a') then String.ltb a' a
              else if negb (String.eqb b b') then String.ltb b' b
              else if negb (String.eqb c c') then String.ltb c' c
              else false).
Proof.
  intros Ha Hna Hb Hnb Hc Hnc Ha' Hna' Hb' Hnb' Hc' Hnc'.
  unfold checkIfNewerVersion.
  pose proof (getVersionNumbers_split a b c EmptyString
                Ha Hna Hb Hnb Hc I) as E.
  pose proof (getVersionNumbers_split a' b' c' EmptyString
                Ha' Hna' Hb' Hnb' Hc' I) as E'.
  rewrite !JsFacts.append_nil_r in E, E'. rewrite E, E'.
  rewrite (length_zero c Hnc), (length_zero c' Hnc'). reflexivity.
Qed.

Lemma checkIfNewerVersion_text_witness :
  checkIfNewerVersion "0.10.0" "0.9.0" = Returned false
  /\ checkIfNewerVersion "0.9.1" "0.9.0" = Returned true.
Proof.
  split.
  - exact (checkIfNewerVersion_text "0" "10" "0" "0" "9" "0"
             eq_refl ltac:(discriminate) eq_refl ltac:(discriminate)
             eq_refl ltac:(discriminate) eq_refl ltac:(discriminate)
             eq_refl ltac:(discriminate) eq_refl ltac:(discriminate)).
  - exact (checkIfNewerVersion_text "0" "9" "1" "0" "9" "0"
             eq_refl ltac:(discriminate) eq_refl ltac:(discriminate)
             eq_refl ltac:(discriminate) eq_refl ltac:(discriminate)
             eq_refl ltac:(discriminate) eq_refl ltac:(discriminate)).
Defined.

(** X25.  [checkIfNewerVersion] fails exactly when one of the two versions
    cannot be split.  Otherwise no version is newer than itself, and of
    two versions at most one is newer than the other. *)
Theorem checkIfNewerVersion_strict (testing baseversion : string) :
  (checkIfNewerVersion testing baseversion = Thrown
   <-> getVersionNumbers testing = None
       \/ getVersionNumbers baseversion = None)
  /\ (getVersionNumbers testing <> None ->
      checkIfNewerVersion testing testing = Returned false)
  /\ (checkIfNewerVersion testing baseversion = Returned true ->
      checkIfNewerVersion baseversion testing = Returned false).
Proof.
  unfold checkIfNewerVersion.
  destruct (getVersionNumbers testing) as [newver|] eqn:En.
  2:{ split; [split; [now left | reflexivity]|]. split; easy. }
  destruct (getVersionNumbers_shape _ _ En) as [x [y [z ->]]].
  split; [|split].
  - destruct (getVersionNumbers baseversion) as [oldver|]; split;
      try discriminate; [intros [H | H]; discriminate | now right
                        | reflexivity].
  - intros _. cbn [newerFrom nth]. rewrite !looseNeq_same. reflexivity.
  - destruct (getVersionNumbers baseversion) as [oldver|] eqn:Eo;
      [|discriminate].
    destruct (getVersionNumbers_shape _ _ Eo) as [x' [y' [z' ->]]].
    intros H. f_equal. apply newerFrom_asymmetric. congruence.
Qed.

Lemma checkIfNewerVersion_strict_witness :
  checkIfNewerVersion "1.2.3" "1.2.3" = Returned false
  /\ checkIfNewerVersion "1.2.3" "1.2.4" = Returned false.
Proof.
  split.
  - apply (proj1 (proj2 (checkIfNewerVersion_strict "1.2.3" "1.2.3"))).
    vm_compute. discriminate.
  - apply (proj2 (proj2 (checkIfNewerVersion_strict "1.2.4" "1.2.3"))).
    vm_compute. reflexivity.
Defined.

End SystemExtras.
